(** * FPIDController: a shallow embedding of PIDController.h / PIDController.cpp

    The C++ type [float] is embedded as IEEE 754 binary32 through the
    parameterised specification of the Standard Library ([SpecFloat], with
    24 bits of precision and exponent bound 128): every arithmetic operator
    of the source is one correctly rounded (to nearest, ties to even)
    binary32 operation, evaluated in the order the C++ expression gives.
    The struct is a record, its methods are computations in a small state
    monad over the object and the standard output stream; the one exception
    the code can raise, std::length_error from std::vector::reserve, is an
    explicit outcome of the methods that reach it. *)

From Stdlib Require Import ZArith List Bool String Lia.
From Stdlib Require Import SpecFloat.
Import ListNotations.

Local Open Scope Z_scope.

(** ** binary32 arithmetic *)

Module Float32.

Definition prec : Z := 24.
Definition emax : Z := 128.

Definition float : Type := spec_float.

Definition fadd (x y : float) : float := SFadd prec emax x y.
Definition fsub (x y : float) : float := SFsub prec emax x y.
Definition fmul (x y : float) : float := SFmul prec emax x y.
Definition fdiv (x y : float) : float := SFdiv prec emax x y.
Definition fneg (x : float) : float := SFopp x.

(** x == y, x < y, x <= y, x > y, x >= y *)
Definition feq (x y : float) : bool := SFeqb x y.
Definition flt (x y : float) : bool := SFltb x y.
Definition fle (x y : float) : bool := SFleb x y.
Definition fgt (x y : float) : bool := SFltb y x.
Definition fge (x y : float) : bool := SFleb y x.

(** (float)n for an integer n *)
Definition of_int (n : Z) : float := binary_normalize prec emax n 0 false.

(** the literal [n/d] written in decimal: the binary32 nearest to the
    quotient of two exactly representable integers *)
Definition of_ratio (n d : Z) : float := fdiv (of_int n) (of_int d).

Definition is_nan (x : float) : bool :=
  match x with S754_nan => true | _ => false end.

Definition is_finite (x : float) : bool :=
  match x with S754_zero _ | S754_finite _ _ _ => true | _ => false end.

Definition is_zero (x : float) : bool :=
  match x with S754_zero _ => true | _ => false end.

(** the representation is a canonical binary32, as every C++ float is *)
Definition valid (x : float) : bool := valid_binary prec emax x.

(** 0.f, 1.f, -1.f *)
Definition f0 : float := S754_zero false.
Definition f1 : float := of_int 1.
Definition fm1 : float := of_int (-1).

End Float32.

Import Float32.

(** ** The struct *)

Record FPIDController : Type := mkFPIDController {
  P_Gain : float;
  I_Gain : float;
  D_Gain : float;
  ControlledValue_Max : float;
  ControlledValue_Min : float;
  PeriodicDuration : float;
  _CalculationAveragingBuffer : list float;
  _CalculationAverageBufferSize : Z;
  _bIsEnabled : bool;
  _PreviousError : float;
  _PreviousCalculation : float;
  _PreviousInput : float;
  _IntegralAccumulation : float;
  _TickBuffer : float
}.

(** Field assignments.  All data members of the struct are assignable; the
    six tunables are public and written directly by the owner. *)

Definition set_P_Gain (v : float) (s : FPIDController) : FPIDController :=
  mkFPIDController v (I_Gain s) (D_Gain s) (ControlledValue_Max s)
    (ControlledValue_Min s) (PeriodicDuration s)
    (_CalculationAveragingBuffer s) (_CalculationAverageBufferSize s)
    (_bIsEnabled s) (_PreviousError s) (_PreviousCalculation s)
    (_PreviousInput s) (_IntegralAccumulation s) (_TickBuffer s).

Definition set_I_Gain (v : float) (s : FPIDController) : FPIDController :=
  mkFPIDController (P_Gain s) v (D_Gain s) (ControlledValue_Max s)
    (ControlledValue_Min s) (PeriodicDuration s)
    (_CalculationAveragingBuffer s) (_CalculationAverageBufferSize s)
    (_bIsEnabled s) (_PreviousError s) (_PreviousCalculation s)
    (_PreviousInput s) (_IntegralAccumulation s) (_TickBuffer s).

Definition set_D_Gain (v : float) (s : FPIDController) : FPIDController :=
  mkFPIDController (P_Gain s) (I_Gain s) v (ControlledValue_Max s)
    (ControlledValue_Min s) (PeriodicDuration s)
    (_CalculationAveragingBuffer s) (_CalculationAverageBufferSize s)
    (_bIsEnabled s) (_PreviousError s) (_PreviousCalculation s)
    (_PreviousInput s) (_IntegralAccumulation s) (_TickBuffer s).

Definition set_ControlledValue_Max (v : float) (s : FPIDController) : FPIDController :=
  mkFPIDController (P_Gain s) (I_Gain s) (D_Gain s) v
    (ControlledValue_Min s) (PeriodicDuration s)
    (_CalculationAveragingBuffer s) (_CalculationAverageBufferSize s)
    (_bIsEnabled s) (_PreviousError s) (_PreviousCalculation s)
    (_PreviousInput s) (_IntegralAccumulation s) (_TickBuffer s).

Definition set_ControlledValue_Min (v : float) (s : FPIDController) : FPIDController :=
  mkFPIDController (P_Gain s) (I_Gain s) (D_Gain s) (ControlledValue_Max s)
    v (PeriodicDuration s)
    (_CalculationAveragingBuffer s) (_CalculationAverageBufferSize s)
    (_bIsEnabled s) (_PreviousError s) (_PreviousCalculation s)
    (_PreviousInput s) (_IntegralAccumulation s) (_TickBuffer s).

Definition set_PeriodicDuration (v : float) (s : FPIDController) : FPIDController :=
  mkFPIDController (P_Gain s) (I_Gain s) (D_Gain s) (ControlledValue_Max s)
    (ControlledValue_Min s) v
    (_CalculationAveragingBuffer s) (_CalculationAverageBufferSize s)
    (_bIsEnabled s) (_PreviousError s) (_PreviousCalculation s)
    (_PreviousInput s) (_IntegralAccumulation s) (_TickBuffer s).

Definition set_CalculationAveragingBuffer (v : list float) (s : FPIDController) : FPIDController :=
  mkFPIDController (P_Gain s) (I_Gain s) (D_Gain s) (ControlledValue_Max s)
    (ControlledValue_Min s) (PeriodicDuration s)
    v (_CalculationAverageBufferSize s)
    (_bIsEnabled s) (_PreviousError s) (_PreviousCalculation s)
    (_PreviousInput s) (_IntegralAccumulation s) (_TickBuffer s).

Definition set_CalculationAverageBufferSize (v : Z) (s : FPIDController) : FPIDController :=
  mkFPIDController (P_Gain s) (I_Gain s) (D_Gain s) (ControlledValue_Max s)
    (ControlledValue_Min s) (PeriodicDuration s)
    (_CalculationAveragingBuffer s) v
    (_bIsEnabled s) (_PreviousError s) (_PreviousCalculation s)
    (_PreviousInput s) (_IntegralAccumulation s) (_TickBuffer s).

Definition set_bIsEnabled (v : bool) (s : FPIDController) : FPIDController :=
  mkFPIDController (P_Gain s) (I_Gain s) (D_Gain s) (ControlledValue_Max s)
    (ControlledValue_Min s) (PeriodicDuration s)
    (_CalculationAveragingBuffer s) (_CalculationAverageBufferSize s)
    v (_PreviousError s) (_PreviousCalculation s)
    (_PreviousInput s) (_IntegralAccumulation s) (_TickBuffer s).

Definition set_PreviousError (v : float) (s : FPIDController) : FPIDController :=
  mkFPIDController (P_Gain s) (I_Gain s) (D_Gain s) (ControlledValue_Max s)
    (ControlledValue_Min s) (PeriodicDuration s)
    (_CalculationAveragingBuffer s) (_CalculationAverageBufferSize s)
    (_bIsEnabled s) v (_PreviousCalculation s)
    (_PreviousInput s) (_IntegralAccumulation s) (_TickBuffer s).

Definition set_PreviousCalculation (v : float) (s : FPIDController) : FPIDController :=
  mkFPIDController (P_Gain s) (I_Gain s) (D_Gain s) (ControlledValue_Max s)
    (ControlledValue_Min s) (PeriodicDuration s)
    (_CalculationAveragingBuffer s) (_CalculationAverageBufferSize s)
    (_bIsEnabled s) (_PreviousError s) v
    (_PreviousInput s) (_IntegralAccumulation s) (_TickBuffer s).

Definition set_PreviousInput (v : float) (s : FPIDController) : FPIDController :=
  mkFPIDController (P_Gain s) (I_Gain s) (D_Gain s) (ControlledValue_Max s)
    (ControlledValue_Min s) (PeriodicDuration s)
    (_CalculationAveragingBuffer s) (_CalculationAverageBufferSize s)
    (_bIsEnabled s) (_PreviousError s) (_PreviousCalculation s)
    v (_IntegralAccumulation s) (_TickBuffer s).

Definition set_IntegralAccumulation (v : float) (s : FPIDController) : FPIDController :=
  mkFPIDController (P_Gain s) (I_Gain s) (D_Gain s) (ControlledValue_Max s)
    (ControlledValue_Min s) (PeriodicDuration s)
    (_CalculationAveragingBuffer s) (_CalculationAverageBufferSize s)
    (_bIsEnabled s) (_PreviousError s) (_PreviousCalculation s)
    (_PreviousInput s) v (_TickBuffer s).

Definition set_TickBuffer (v : float) (s : FPIDController) : FPIDController :=
  mkFPIDController (P_Gain s) (I_Gain s) (D_Gain s) (ControlledValue_Max s)
    (ControlledValue_Min s) (PeriodicDuration s)
    (_CalculationAveragingBuffer s) (_CalculationAverageBufferSize s)
    (_bIsEnabled s) (_PreviousError s) (_PreviousCalculation s)
    (_PreviousInput s) (_IntegralAccumulation s) v.

(** ** Effects: the object and the output stream *)

Record World : Type := mkWorld {
  self : FPIDController;      (* the object a method is called on *)
  cout : list string          (* what has been written to std::cout *)
}.

Definition M (A : Type) : Type := World -> A * World.

Definition ret {A : Type} (a : A) : M A := fun w => (a, w).

Definition bind {A B : Type} (m : M A) (k : A -> M B) : M B :=
  fun w => let r := m w in k (fst r) (snd r).

Declare Scope method_scope.
Delimit Scope method_scope with method.
Notation "x <- m ;; k" := (bind m (fun x => k))
  (at level 61, m at next level, right associativity) : method_scope.
Notation "m ;; k" := (bind m (fun _ => k))
  (at level 61, right associativity) : method_scope.
Local Open Scope method_scope.

(** reading a member, assigning members, [std::cout << s] *)
Definition get {A : Type} (field : FPIDController -> A) : M A :=
  fun w => (field (self w), w).

Definition assign (upd : FPIDController -> FPIDController) : M unit :=
  fun w => (tt, mkWorld (upd (self w)) (cout w)).

Definition print (s : string) : M unit :=
  fun w => (tt, mkWorld (self w) (cout w ++ [s])).

Definition result {A : Type} (m : M A) (w : World) : A := fst (m w).
Definition after {A : Type} (m : M A) (w : World) : World := snd (m w).

(** A method that reaches [std::vector::reserve] may leave by
    [std::length_error] instead of returning.  The exception passes
    through every caller up to the owner of the object; the members
    assigned before it was thrown keep their new values. *)
Inductive Outcome : Type :=
| Returns
| Throws_length_error.

(** [m; k] where [m] may throw: [k] runs only when [m] returned *)
Definition propagate (m k : M Outcome) : M Outcome :=
  fun w =>
    let r := m w in
    match fst r with
    | Returns => k (snd r)
    | Throws_length_error => (Throws_length_error, snd r)
    end.

Notation "m ;;! k" := (propagate m k)
  (at level 61, right associativity) : method_scope.

(** ** Static helpers (PIDController.h) *)

Definition ZeroThresholdRadius : float := of_ratio 1 100000.

Definition IsNearlyZero (value : float) : bool :=
  feq value f0 ||
  (fgt value (fneg ZeroThresholdRadius) && flt value ZeroThresholdRadius).

(** [Buffer] is passed by reference: the new content is returned with the
    overflow flag. *)
Definition AccumulateBuffer (Buffer DeltaTime BufferSize : float) : bool * float :=
  let Buffer := fadd Buffer DeltaTime in
  if fge Buffer BufferSize then (true, fsub Buffer BufferSize)
  else (false, Buffer).

(** [AccumulateBuffer(_TickBuffer, DeltaTime, BufferSize)] *)
Definition AccumulateBuffer_TickBuffer (DeltaTime BufferSize : float) : M bool :=
  Buffer <- get _TickBuffer ;;
  let r := AccumulateBuffer Buffer DeltaTime BufferSize in
  assign (set_TickBuffer (snd r)) ;;
  ret (fst r).

(** ** Const accessors *)

Definition GetLastCalculatedValue (s : FPIDController) : float := _PreviousCalculation s.
Definition IsEnabled (s : FPIDController) : bool := _bIsEnabled s.
Definition GetPreviousError (s : FPIDController) : float := _PreviousError s.
Definition GetPreviousInput (s : FPIDController) : float := _PreviousInput s.
Definition GetIntegralAccumulation (s : FPIDController) : float := _IntegralAccumulation s.
Definition GetAveragingBufferSize (s : FPIDController) : Z := _CalculationAverageBufferSize s.

(** ** Methods (PIDController.cpp) *)

Definition ProportionalError (Error : float) : M float :=
  P <- get P_Gain ;;
  if IsNearlyZero P then ret f0
  else ret (fmul P Error).

Definition IntegralError (Error DeltaTime : float) : M float :=
  I <- get I_Gain ;;
  if IsNearlyZero I then get _IntegralAccumulation
  else
    acc <- get _IntegralAccumulation ;;
    assign (set_IntegralAccumulation (fadd acc (fmul (fmul I Error) DeltaTime))) ;;
    acc <- get _IntegralAccumulation ;;
    Max <- get ControlledValue_Max ;;
    Min <- get ControlledValue_Min ;;
    (if fgt acc Max then assign (set_IntegralAccumulation Max)
     else if flt acc Min then assign (set_IntegralAccumulation Min)
     else ret tt) ;;
    get _IntegralAccumulation.

Definition DifferentialError (Error DeltaTime : float) : M float :=
  D <- get D_Gain ;;
  if flt DeltaTime f0 || IsNearlyZero DeltaTime || IsNearlyZero D then ret f0
  else
    prev <- get _PreviousError ;;
    ret (fmul D (fdiv (fsub Error prev) DeltaTime)).

Definition DifferentialError_PreventDerivativeKick (CurrentInput DeltaTime : float) : M float :=
  D <- get D_Gain ;;
  if flt DeltaTime f0 || IsNearlyZero DeltaTime || IsNearlyZero D then ret f0
  else
    prev <- get _PreviousInput ;;
    ret (fmul (fmul fm1 D) (fdiv (fsub CurrentInput prev) DeltaTime)).

Definition CachePreviousError (Error : float) : M unit :=
  assign (set_PreviousError Error).

Definition CachePreviousInput (InputValue : float) : M unit :=
  assign (set_PreviousInput InputValue).

(** [push_back(v)] then [erase(begin())] on the averaging vector *)
Definition push_back (v : float) : M unit :=
  assign (fun s => set_CalculationAveragingBuffer (_CalculationAveragingBuffer s ++ [v]) s).

Definition erase_begin : M unit :=
  assign (fun s => set_CalculationAveragingBuffer (tl (_CalculationAveragingBuffer s)) s).

Definition CachePreviousCalculation (CalculatedValue : float) : M unit :=
  assign (set_PreviousCalculation CalculatedValue) ;;
  size <- get GetAveragingBufferSize ;;
  if size >? 1 then push_back CalculatedValue ;; erase_begin
  else ret tt.

(** the clamp both [ClampAndCacheOutput] and the integral use *)
Definition clamp (Min Max OutputValue : float) : float :=
  if fgt OutputValue Max then Max
  else if flt OutputValue Min then Min
  else OutputValue.

Definition ClampAndCacheOutput (OutputValue : float) : M float :=
  Max <- get ControlledValue_Max ;;
  Min <- get ControlledValue_Min ;;
  let OutputValue :=
    if fgt OutputValue Max then Max
    else if flt OutputValue Min then Min
    else OutputValue in
  CachePreviousCalculation OutputValue ;;
  ret OutputValue.

Definition diagnostic : string := "delta time nearly zero".

(** [CalculateNewValue(TargetSetpoint, CurrentValue, DeltaTime)] *)
Definition CalculateNewValue (TargetSetpoint CurrentValue DeltaTime : float) : M float :=
  if IsNearlyZero DeltaTime then
    print diagnostic ;; ret f0
  else
    let Error := fsub TargetSetpoint CurrentValue in
    let Output := f0 in
    p <- ProportionalError Error ;;
    let Output := fadd Output p in
    i <- IntegralError Error DeltaTime ;;
    let Output := fadd Output i in
    d <- DifferentialError_PreventDerivativeKick CurrentValue DeltaTime ;;
    let Output := fadd Output d in
    CachePreviousError Error ;;
    CachePreviousInput CurrentValue ;;
    ClampAndCacheOutput Output.

(** [CalculateNewValue(Error, DeltaTime)] *)
Definition CalculateNewValue_Error (Error DeltaTime : float) : M float :=
  if IsNearlyZero DeltaTime then
    print diagnostic ;; ret f0
  else
    let Output := f0 in
    p <- ProportionalError Error ;;
    let Output := fadd Output p in
    i <- IntegralError Error DeltaTime ;;
    let Output := fadd Output i in
    d <- DifferentialError Error DeltaTime ;;
    let Output := fadd Output d in
    CachePreviousError Error ;;
    ClampAndCacheOutput Output.

(** the [for] loop of [ClearAveragingBuffer]: [n] iterations remain *)
Fixpoint push_back_zeros (n : nat) : M unit :=
  match n with
  | O => ret tt
  | S n' => push_back f0 ;; push_back_zeros n'
  end.

(** [reserve(n)] for an int [n], which the call converts to the unsigned
    size_type: a negative [n] becomes a request beyond [max_size()] and
    [std::length_error] is thrown.  Any other request only sets storage
    aside, which the contents do not show: size_type is taken to have 64
    bits, so that no int that is not negative exceeds [max_size()], and
    memory is taken to suffice. *)
Definition reserve (n : Z) : M Outcome :=
  if n <? 0 then ret Throws_length_error else ret Returns.

Definition ClearAveragingBuffer : M Outcome :=
  assign (set_CalculationAveragingBuffer []) ;;
  size <- get _CalculationAverageBufferSize ;;
  reserve size ;;!
  (if size >? 0 then push_back_zeros (Z.to_nat size)
   else ret tt) ;;
  ret Returns.

Definition SetAveragingBufferSize (AveragingBufferSize : Z) : M Outcome :=
  assign (set_CalculationAverageBufferSize AveragingBufferSize) ;;
  ClearAveragingBuffer.

(** the [for] loop of [GetAverageCalculatedValue]: [n] iterations remain,
    [i] is the index; leaving the vector breaks out of the loop *)
Fixpoint average_loop (n : nat) (i : nat) (buffer : list float) (Average : float) : float :=
  match n with
  | O => Average
  | S n' =>
      match nth_error buffer i with
      | None => Average
      | Some x => average_loop n' (S i) buffer (fadd Average x)
      end
  end.

Definition GetAverageCalculatedValue (s : FPIDController) : float :=
  let AveragingBufferSize := GetAveragingBufferSize s in
  if AveragingBufferSize <=? 1 then _PreviousCalculation s
  else
    let Average :=
      average_loop (Z.to_nat AveragingBufferSize) 0
        (_CalculationAveragingBuffer s) f0 in
    fdiv Average (of_int AveragingBufferSize).

(** [Tick(TargetSetpoint, CurrentValue, DeltaTime)] *)
Definition Tick (TargetSetpoint CurrentValue DeltaTime : float) : M bool :=
  Period <- get PeriodicDuration ;;
  if fgt Period f0 then
    if fgt DeltaTime Period then
      AccumulateBuffer_TickBuffer DeltaTime DeltaTime ;;
      CalculateNewValue TargetSetpoint CurrentValue DeltaTime ;;
      ret true
    else
      overflow <- AccumulateBuffer_TickBuffer DeltaTime Period ;;
      if overflow then
        CalculateNewValue TargetSetpoint CurrentValue Period ;;
        ret true
      else ret false
  else
    CalculateNewValue TargetSetpoint CurrentValue DeltaTime ;;
    ret true.

(** [Tick(Error, DeltaTime)] *)
Definition Tick_Error (Error DeltaTime : float) : M bool :=
  Period <- get PeriodicDuration ;;
  if fgt Period f0 then
    if fgt DeltaTime Period then
      AccumulateBuffer_TickBuffer DeltaTime DeltaTime ;;
      CalculateNewValue_Error Error DeltaTime ;;
      ret true
    else
      overflow <- AccumulateBuffer_TickBuffer DeltaTime Period ;;
      if overflow then
        CalculateNewValue_Error Error Period ;;
        ret true
      else ret false
  else
    CalculateNewValue_Error Error DeltaTime ;;
    ret true.

Definition TickIfEnabled (TargetSetpoint CurrentValue DeltaTime : float) : M bool :=
  enabled <- get IsEnabled ;;
  if enabled then Tick TargetSetpoint CurrentValue DeltaTime
  else ret false.

Definition TickIfEnabled_Error (Error DeltaTime : float) : M bool :=
  enabled <- get IsEnabled ;;
  if enabled then Tick_Error Error DeltaTime
  else ret false.

Definition SetPeriodicDuration (NewPeriodicDuration : float) : M unit :=
  Period <- get PeriodicDuration ;;
  (if fgt NewPeriodicDuration f0 && negb (IsNearlyZero NewPeriodicDuration) &&
      fgt Period f0 && negb (IsNearlyZero Period)
   then
     let GainChangeRatio := fdiv NewPeriodicDuration Period in
     assign (fun s => set_I_Gain (fmul (I_Gain s) GainChangeRatio) s) ;;
     assign (fun s => set_D_Gain (fdiv (D_Gain s) GainChangeRatio) s)
   else ret tt) ;;
  assign (set_PeriodicDuration NewPeriodicDuration).

Definition ClearState : M Outcome :=
  assign (set_bIsEnabled true) ;;
  assign (set_TickBuffer f0) ;;
  assign (set_IntegralAccumulation f0) ;;
  assign (set_PreviousCalculation f0) ;;
  assign (set_PreviousInput f0) ;;
  assign (set_PreviousError f0) ;;
  ClearAveragingBuffer.

Definition Initialize (bClearIntegralAccumulation : bool) : M Outcome :=
  (if bClearIntegralAccumulation then assign (set_IntegralAccumulation f0)
   else last <- get GetLastCalculatedValue ;;
        assign (set_IntegralAccumulation last)) ;;
  acc <- get _IntegralAccumulation ;;
  Max <- get ControlledValue_Max ;;
  Min <- get ControlledValue_Min ;;
  (if fgt acc Max then assign (set_IntegralAccumulation Max)
   else if flt acc Min then assign (set_IntegralAccumulation Min)
   else ret tt) ;;
  ClearState.

Definition SetEnabled (bIsEnabled bClearIntegralAccumulation : bool) : M Outcome :=
  enabled <- get IsEnabled ;;
  (if negb enabled && bIsEnabled then Initialize bClearIntegralAccumulation
   else ret Returns) ;;!
  assign (set_bIsEnabled bIsEnabled) ;;
  ret Returns.

(** ** Constructors

    The bodies assign every data member, so the object they leave does not
    depend on the storage they start from; [raw] is that storage, with the
    vector default-constructed (empty).  The averaging size is 1 when
    [ClearState] runs, so the constructors always return. *)

Definition raw : FPIDController :=
  mkFPIDController f0 f0 f0 f0 f0 f0 [] 0 false f0 f0 f0 f0 f0.

Definition FPIDController_default_body : M Outcome :=
  assign (set_CalculationAverageBufferSize 1) ;;
  ClearState ;;!
  assign (set_ControlledValue_Max (of_int 1)) ;;
  assign (set_ControlledValue_Min f0) ;;
  assign (set_PeriodicDuration (of_ratio 2 10)) ;;
  assign (set_P_Gain (of_int 1)) ;;
  assign (set_I_Gain f0) ;;
  assign (set_D_Gain f0) ;;
  ret Returns.

Definition FPIDController_gains_body
    (InP_Gain InI_Gain InD_Gain MaxValue MinValue InPeriodicDuration : float) : M Outcome :=
  FPIDController_default_body ;;!
  assign (set_P_Gain InP_Gain) ;;
  assign (set_I_Gain InI_Gain) ;;
  assign (set_D_Gain InD_Gain) ;;
  assign (set_ControlledValue_Max MaxValue) ;;
  assign (set_ControlledValue_Min MinValue) ;;
  assign (set_PeriodicDuration InPeriodicDuration) ;;
  ret Returns.

(** [FPIDController()] and [FPIDController(P, I, D, Max, Min, Period)],
    the stream being left as it is *)
Definition construct (out : list string) : World :=
  after FPIDController_default_body (mkWorld raw out).

Definition construct_gains
    (InP_Gain InI_Gain InD_Gain MaxValue MinValue InPeriodicDuration : float)
    (out : list string) : World :=
  after (FPIDController_gains_body InP_Gain InI_Gain InD_Gain MaxValue MinValue
           InPeriodicDuration) (mkWorld raw out).

(** ** The owner's view: calls, runs and reachable objects

    A call hands back its value, or the exception it threw.  The object
    outlives an exception the owner catches, so a run goes on after it and
    the object a throwing call leaves counts as reachable; a run that the
    exception ends is the run of a shorter list of calls. *)

Inductive Call : Type :=
| Call_CalculateNewValue (TargetSetpoint CurrentValue DeltaTime : float)
| Call_CalculateNewValue_Error (Error DeltaTime : float)
| Call_Tick (TargetSetpoint CurrentValue DeltaTime : float)
| Call_Tick_Error (Error DeltaTime : float)
| Call_TickIfEnabled (TargetSetpoint CurrentValue DeltaTime : float)
| Call_TickIfEnabled_Error (Error DeltaTime : float)
| Call_SetPeriodicDuration (NewPeriodicDuration : float)
| Call_SetEnabled (bIsEnabled bClearIntegralAccumulation : bool)
| Call_SetAveragingBufferSize (AveragingBufferSize : Z)
| Write_P_Gain (v : float)
| Write_I_Gain (v : float)
| Write_D_Gain (v : float)
| Write_ControlledValue_Max (v : float)
| Write_ControlledValue_Min (v : float)
| Write_PeriodicDuration (v : float).

Inductive Returned : Type :=
| Ret_void
| Ret_float (v : float)
| Ret_bool (b : bool)
| Ret_length_error.

Definition ended (o : Outcome) : Returned :=
  match o with
  | Returns => Ret_void
  | Throws_length_error => Ret_length_error
  end.

Definition perform (c : Call) : M Returned :=
  match c with
  | Call_CalculateNewValue t c dt => v <- CalculateNewValue t c dt ;; ret (Ret_float v)
  | Call_CalculateNewValue_Error e dt => v <- CalculateNewValue_Error e dt ;; ret (Ret_float v)
  | Call_Tick t c dt => b <- Tick t c dt ;; ret (Ret_bool b)
  | Call_Tick_Error e dt => b <- Tick_Error e dt ;; ret (Ret_bool b)
  | Call_TickIfEnabled t c dt => b <- TickIfEnabled t c dt ;; ret (Ret_bool b)
  | Call_TickIfEnabled_Error e dt => b <- TickIfEnabled_Error e dt ;; ret (Ret_bool b)
  | Call_SetPeriodicDuration p => SetPeriodicDuration p ;; ret Ret_void
  | Call_SetEnabled b c => o <- SetEnabled b c ;; ret (ended o)
  | Call_SetAveragingBufferSize n => o <- SetAveragingBufferSize n ;; ret (ended o)
  | Write_P_Gain v => assign (set_P_Gain v) ;; ret Ret_void
  | Write_I_Gain v => assign (set_I_Gain v) ;; ret Ret_void
  | Write_D_Gain v => assign (set_D_Gain v) ;; ret Ret_void
  | Write_ControlledValue_Max v => assign (set_ControlledValue_Max v) ;; ret Ret_void
  | Write_ControlledValue_Min v => assign (set_ControlledValue_Min v) ;; ret Ret_void
  | Write_PeriodicDuration v => assign (set_PeriodicDuration v) ;; ret Ret_void
  end.

Fixpoint perform_all (cs : list Call) : M (list Returned) :=
  match cs with
  | [] => ret []
  | c :: cs' => r <- perform c ;; rs <- perform_all cs' ;; ret (r :: rs)
  end.

Inductive reachable : World -> Prop :=
| reachable_construct (out : list string) :
    reachable (construct out)
| reachable_construct_gains (P I D Max Min Period : float) (out : list string) :
    reachable (construct_gains P I D Max Min Period out)
| reachable_perform (c : Call) (w : World) :
    reachable w -> reachable (after (perform c) w).

(** ** Vocabulary of the properties *)

(** Min <= x && x <= Max *)
Definition in_range (Min Max x : float) : bool := fle Min x && fle x Max.

(** the object with another tick buffer, the stream untouched *)
Definition with_TickBuffer (v : float) (w : World) : World :=
  mkWorld (set_TickBuffer v (self w)) (cout w).

(** the world after the early return of a calculation: only the
    diagnostic has been written *)
Definition diagnosed (w : World) : World :=
  mkWorld (self w) (cout w ++ [diagnostic]).

(** the averaging vector holds exactly as many entries as its size says *)
Definition buffer_filled (s : FPIDController) : Prop :=
  List.length (_CalculationAveragingBuffer s) = Z.to_nat (_CalculationAverageBufferSize s).

(** the plain arithmetic mean, summed from 0.f in index order *)
Definition mean (window : list float) : float :=
  fdiv (fold_left fadd window f0) (of_int (Z.of_nat (List.length window))).

(** the two derivative terms, as the calculations add them to the output *)
Definition kick_free_term (w : World) (CurrentValue DeltaTime : float) : float :=
  result (DifferentialError_PreventDerivativeKick CurrentValue DeltaTime) w.

Definition error_term (w : World) (Error DeltaTime : float) : float :=
  result (DifferentialError Error DeltaTime) w.

(** a deltaTime the calculations accept for the derivative *)
Definition valid_DeltaTime (DeltaTime : float) : bool :=
  fgt DeltaTime f0 && negb (IsNearlyZero DeltaTime).

(** Closed forms of what the methods compute, used to state their effect
    on the object. *)

(** the three terms *)
Definition proportional (s : FPIDController) (Error : float) : float :=
  if IsNearlyZero (P_Gain s) then f0 else fmul (P_Gain s) Error.

Definition integrate (s : FPIDController) (Error DeltaTime : float) : float :=
  clamp (ControlledValue_Min s) (ControlledValue_Max s)
    (fadd (_IntegralAccumulation s) (fmul (fmul (I_Gain s) Error) DeltaTime)).

Definition integrated (s : FPIDController) (Error DeltaTime : float) : FPIDController :=
  if IsNearlyZero (I_Gain s) then s
  else set_IntegralAccumulation (integrate s Error DeltaTime) s.

Definition derivative_of_error (s : FPIDController) (Error DeltaTime : float) : float :=
  if flt DeltaTime f0 || IsNearlyZero DeltaTime || IsNearlyZero (D_Gain s) then f0
  else fmul (D_Gain s) (fdiv (fsub Error (_PreviousError s)) DeltaTime).

Definition derivative_of_input (s : FPIDController) (CurrentInput DeltaTime : float) : float :=
  if flt DeltaTime f0 || IsNearlyZero DeltaTime || IsNearlyZero (D_Gain s) then f0
  else fmul (fmul fm1 (D_Gain s)) (fdiv (fsub CurrentInput (_PreviousInput s)) DeltaTime).

(** recording an output: the last value, and the rolling window when the
    size is above 1 *)
Definition cache (v : float) (s : FPIDController) : FPIDController :=
  let s := set_PreviousCalculation v s in
  if GetAveragingBufferSize s >? 1
  then set_CalculationAveragingBuffer (tl (_CalculationAveragingBuffer s ++ [v])) s
  else s.

(** a calculation that is carried out, for the setpoint/measurement
    overload: the three terms are added to 0.f in turn, the error and the
    input are stored, the sum is clamped and recorded; nothing is written
    to the stream *)
Definition calculated (TargetSetpoint CurrentValue DeltaTime : float) (w : World)
    : float * World :=
  let s := self w in
  let e := fsub TargetSetpoint CurrentValue in
  let s1 := integrated s e DeltaTime in
  let Output :=
    fadd (fadd (fadd f0 (proportional s e)) (_IntegralAccumulation s1))
      (derivative_of_input s1 CurrentValue DeltaTime) in
  let y := clamp (ControlledValue_Min s1) (ControlledValue_Max s1) Output in
  (y, mkWorld (cache y (set_PreviousInput CurrentValue (set_PreviousError e s1)))
        (cout w)).

(** a run of ticks, one (TargetSetpoint, CurrentValue, DeltaTime) per call *)
Fixpoint Ticks (inputs : list (float * float * float)) : M (list bool) :=
  match inputs with
  | [] => ret []
  | (t, c, dt) :: rest =>
      b <- Tick t c dt ;; bs <- Ticks rest ;; ret (b :: bs)
  end.

(** What the specification says of one tick whose DeltaTime does not
    exceed the period [T]: the time is added to the accumulator; once the
    accumulator has reached [T], [T] is taken out of it and one calculation
    is carried out with [T] as its DeltaTime; otherwise only the
    accumulator moves. *)
Definition accumulating_tick (T TargetSetpoint CurrentValue DeltaTime : float)
    (w : World) : bool * World :=
  let accumulated := fadd (_TickBuffer (self w)) DeltaTime in
  if fge accumulated T then
    (true, snd (calculated TargetSetpoint CurrentValue T
                  (with_TickBuffer (fsub accumulated T) w)))
  else (false, with_TickBuffer accumulated w).

Fixpoint accumulating_ticks (T : float) (inputs : list (float * float * float))
    (w : World) : list bool * World :=
  match inputs with
  | [] => ([], w)
  | (t, c, dt) :: rest =>
      let r := accumulating_tick T t c dt w in
      let rs := accumulating_ticks T rest (snd r) in
      (fst r :: fst rs, snd rs)
  end.

(** how [reserve(n)] ends *)
Definition reserved (n : Z) : Outcome :=
  if n <? 0 then Throws_length_error else Returns.

(** the object after [ClearAveragingBuffer] and after [ClearState]; when
    the size is negative the vector is empty, as [clear()] left it before
    [reserve] threw *)
Definition cleared_buffer (s : FPIDController) : FPIDController :=
  set_CalculationAveragingBuffer
    (repeat f0 (Z.to_nat (_CalculationAverageBufferSize s))) s.

Definition cleared (s : FPIDController) : FPIDController :=
  cleared_buffer
    (set_PreviousError f0 (set_PreviousInput f0 (set_PreviousCalculation f0
      (set_IntegralAccumulation f0 (set_TickBuffer f0 (set_bIsEnabled true s)))))).

(** the condition under which [SetPeriodicDuration] rescales the gains *)
Definition rescales (OldPeriod NewPeriod : float) : bool :=
  fgt NewPeriod f0 && negb (IsNearlyZero NewPeriod) &&
  fgt OldPeriod f0 && negb (IsNearlyZero OldPeriod).


(** ** Vocabulary of the further properties *)

(** the gated ticks, and the calls that may calculate *)
Definition is_gated_tick (c : Call) : bool :=
  match c with
  | Call_TickIfEnabled _ _ _ | Call_TickIfEnabled_Error _ _ => true
  | _ => false
  end.

Definition is_calculating_call (c : Call) : bool :=
  match c with
  | Call_CalculateNewValue _ _ _ | Call_CalculateNewValue_Error _ _
  | Call_Tick _ _ _ | Call_Tick_Error _ _
  | Call_TickIfEnabled _ _ _ | Call_TickIfEnabled_Error _ _ => true
  | _ => false
  end.

(** the value a call handed back, when it is a calculation *)
Definition returned_float (r : Returned) : option float :=
  match r with Ret_float v => Some v | _ => None end.

(** a direct calculation that is not turned away *)
Definition is_direct_calculation (c : Call) : bool :=
  match c with
  | Call_CalculateNewValue _ _ dt | Call_CalculateNewValue_Error _ dt =>
      negb (IsNearlyZero dt)
  | _ => false
  end.

(** the values a run of calls handed back *)
Fixpoint outputs (rs : list Returned) : list float :=
  match rs with
  | [] => []
  | r :: rs' =>
      match returned_float r with
      | Some v => v :: outputs rs'
      | None => outputs rs'
      end
  end.

(** x is NaN or Min <= x <= Max *)
Definition within (Min Max x : float) : Prop :=
  is_nan x = true \/ in_range Min Max x = true.

(** the members the owner tunes, and the two the lifecycle owns *)
Definition same_settings (s s' : FPIDController) : Prop :=
  P_Gain s' = P_Gain s /\
  I_Gain s' = I_Gain s /\
  D_Gain s' = D_Gain s /\
  ControlledValue_Max s' = ControlledValue_Max s /\
  ControlledValue_Min s' = ControlledValue_Min s /\
  PeriodicDuration s' = PeriodicDuration s /\
  _CalculationAverageBufferSize s' = _CalculationAverageBufferSize s /\
  _bIsEnabled s' = _bIsEnabled s.

(** the DeltaTime a call passes, and the elapsed times a caller's clock
    produces: canonical, finite and not negative *)
Definition DeltaTime_of (c : Call) : option float :=
  match c with
  | Call_CalculateNewValue _ _ dt | Call_CalculateNewValue_Error _ dt
  | Call_Tick _ _ dt | Call_Tick_Error _ dt
  | Call_TickIfEnabled _ _ dt | Call_TickIfEnabled_Error _ dt => Some dt
  | _ => None
  end.

Definition is_elapsed_time (dt : float) : bool :=
  valid dt && is_finite dt && fle f0 dt.

Definition passes_elapsed_time (c : Call) : bool :=
  match DeltaTime_of c with
  | Some dt => is_elapsed_time dt
  | None => false
  end.

(** the number a finite binary32 stands for, counted in units of 2^-149,
    the smallest positive binary32: an integer for every canonical float *)
Definition in_ulps (x : float) : Z :=
  match x with
  | S754_finite s m e => cond_Zopp s (Z.pos m * 2 ^ (e + 149))
  | _ => 0
  end.

(** the calls that keep the tick buffer within the period [T]: the direct
    calculations, which leave it alone, and the ticks whose DeltaTime is an
    elapsed time of at most [T] *)
Definition keeps_within_period (T : float) (c : Call) : bool :=
  match c with
  | Call_CalculateNewValue _ _ _ | Call_CalculateNewValue_Error _ _ => true
  | Call_Tick _ _ dt | Call_Tick_Error _ dt
  | Call_TickIfEnabled _ _ dt | Call_TickIfEnabled_Error _ dt =>
      is_elapsed_time dt && fle dt T
  | _ => false
  end.
(** * Properties *)

(** ** binary32 comparisons *)

Arguments fadd : simpl never.
Arguments fsub : simpl never.
Arguments fmul : simpl never.
Arguments fdiv : simpl never.
Arguments of_int : simpl never.
Arguments of_ratio : simpl never.
Arguments feq : simpl never.
Arguments flt : simpl never.
Arguments fle : simpl never.
Arguments fgt : simpl never.
Arguments fge : simpl never.
Arguments IsNearlyZero : simpl never.

Section Order.

Lemma SFcompare_antisym (x y : float) (c : comparison) :
  SFcompare x y = Some c -> SFcompare y x = Some (CompOpp c).
Proof.
  destruct x as [sx|sx| |sx mx ex], y as [sy|sy| |sy my ey]; simpl;
    try discriminate;
    try (destruct sx; intros [= <-]; reflexivity);
    try (destruct sy; intros [= <-]; reflexivity);
    try (destruct sx, sy; intros [= <-]; reflexivity).
  intros [= <-]. f_equal.
  change (Pos.compare_cont Eq mx my) with (Pos.compare mx my).
  change (Pos.compare_cont Eq my mx) with (Pos.compare my mx).
  rewrite (Pos.compare_antisym mx my), (Z.compare_antisym ex ey).
  destruct sx, sy; simpl; try reflexivity;
    destruct (ex ?= ey)%Z; simpl; try reflexivity;
    destruct (mx ?= my)%positive; reflexivity.
Qed.

Lemma SFcompare_defined (x y : float) :
  is_nan x = false -> is_nan y = false -> exists c, SFcompare x y = Some c.
Proof.
  destruct x, y; simpl; try discriminate; intros _ _; eexists; reflexivity.
Qed.

Lemma SFcompare_nan (x y : float) (c : comparison) :
  SFcompare x y = Some c -> is_nan x = false /\ is_nan y = false.
Proof.
  destruct x, y; simpl; try discriminate; auto.
Qed.

Lemma SFcompare_refl (x : float) : is_nan x = false -> SFcompare x x = Some Eq.
Proof.
  destruct x as [s|s| |s m e]; simpl; try discriminate; intros _;
    try (destruct s; reflexivity).
  change (Pos.compare_cont Eq m m) with (Pos.compare m m).
  rewrite Z.compare_refl, Pos.compare_refl. destruct s; reflexivity.
Qed.

Lemma fle_not_nan (x y : float) :
  fle x y = true -> is_nan x = false /\ is_nan y = false.
Proof.
  unfold fle, SFleb. destruct (SFcompare x y) eqn:E; [|discriminate].
  intros _. exact (SFcompare_nan _ _ _ E).
Qed.

Lemma fle_refl (x : float) : is_nan x = false -> fle x x = true.
Proof. intros H. unfold fle, SFleb. rewrite (SFcompare_refl x H). reflexivity. Qed.

(** !(x > y) gives x <= y unless a NaN is compared *)
Lemma not_fgt_fle (x y : float) :
  is_nan x = false -> is_nan y = false -> fgt x y = false -> fle x y = true.
Proof.
  intros Hx Hy. unfold fgt, fle, SFltb, SFleb.
  destruct (SFcompare_defined y x Hy Hx) as [c E]. rewrite E.
  rewrite (SFcompare_antisym _ _ _ E). destruct c; simpl; congruence.
Qed.

(** !(x < y) gives y <= x unless a NaN is compared *)
Lemma not_flt_fle (x y : float) :
  is_nan x = false -> is_nan y = false -> flt x y = false -> fle y x = true.
Proof. intros Hx Hy. apply (not_fgt_fle y x Hy Hx). Qed.

Lemma fle_not_fgt (x y : float) : fle x y = true -> fgt x y = false.
Proof.
  unfold fgt, fle, SFltb, SFleb.
  destruct (SFcompare x y) as [c|] eqn:E; [|discriminate].
  rewrite (SFcompare_antisym _ _ _ E). destruct c; simpl; congruence.
Qed.

Lemma fge_not_flt (x y : float) : fge x y = true -> flt x y = false.
Proof. apply (fle_not_fgt y x). Qed.

Lemma fgt_not_nan (x y : float) :
  fgt x y = true -> is_nan x = false /\ is_nan y = false.
Proof.
  unfold fgt, SFltb. destruct (SFcompare y x) eqn:E; [|discriminate].
  intros _. destruct (SFcompare_nan _ _ _ E); auto.
Qed.

End Order.

(** ** Clamping *)

Lemma clamp_in_range (Min Max x : float) :
  fle Min Max = true ->
  is_nan (clamp Min Max x) = true \/ in_range Min Max (clamp Min Max x) = true.
Proof.
  intros HMM. destruct (fle_not_nan _ _ HMM) as [HMin HMax].
  unfold clamp, in_range.
  destruct (fgt x Max) eqn:E1.
  - right. rewrite HMM, (fle_refl Max HMax). reflexivity.
  - destruct (flt x Min) eqn:E2.
    + right. rewrite HMM, (fle_refl Min HMin). reflexivity.
    + destruct (is_nan x) eqn:Hx; [left; reflexivity|right].
      rewrite (not_flt_fle x Min Hx HMin E2), (not_fgt_fle x Max Hx HMax E1).
      reflexivity.
Qed.

Lemma clamp_inside (Min Max x : float) :
  in_range Min Max x = true -> clamp Min Max x = x.
Proof.
  unfold in_range, clamp. intros H. apply andb_prop in H. destruct H as [H1 H2].
  rewrite (fle_not_fgt _ _ H2).
  change (flt x Min) with (fgt Min x). rewrite (fle_not_fgt _ _ H1). reflexivity.
Qed.

(** ** What each method leaves behind *)

Ltac run_methods :=
  unfold result, after, bind, get, assign, ret, print; cbn.

Lemma world_eta (w : World) : mkWorld (self w) (cout w) = w.
Proof. destruct w; reflexivity. Qed.

Lemma ProportionalError_run (e : float) (w : World) :
  ProportionalError e w = (proportional (self w) e, w).
Proof.
  unfold ProportionalError, proportional. run_methods.
  destruct (IsNearlyZero _); reflexivity.
Qed.

Lemma IntegralError_run (e dt : float) (w : World) :
  IntegralError e dt w =
  (_IntegralAccumulation (integrated (self w) e dt),
   mkWorld (integrated (self w) e dt) (cout w)).
Proof.
  unfold IntegralError, integrated, integrate, clamp. run_methods.
  destruct (IsNearlyZero _); [rewrite world_eta; reflexivity|].
  destruct (fgt _ _); [reflexivity|]. destruct (flt _ _); reflexivity.
Qed.

Lemma DifferentialError_run (e dt : float) (w : World) :
  DifferentialError e dt w = (derivative_of_error (self w) e dt, w).
Proof.
  unfold DifferentialError, derivative_of_error. run_methods.
  destruct (_ || _); reflexivity.
Qed.

Lemma DifferentialError_PreventDerivativeKick_run (c dt : float) (w : World) :
  DifferentialError_PreventDerivativeKick c dt w = (derivative_of_input (self w) c dt, w).
Proof.
  unfold DifferentialError_PreventDerivativeKick, derivative_of_input. run_methods.
  destruct (_ || _); reflexivity.
Qed.

Lemma CachePreviousCalculation_run (v : float) (w : World) :
  CachePreviousCalculation v w = (tt, mkWorld (cache v (self w)) (cout w)).
Proof.
  unfold CachePreviousCalculation, push_back, erase_begin, cache. run_methods.
  unfold GetAveragingBufferSize; cbn.
  destruct (_ >? 1); reflexivity.
Qed.

Lemma ClampAndCacheOutput_run (x : float) (w : World) :
  ClampAndCacheOutput x w =
  (clamp (ControlledValue_Min (self w)) (ControlledValue_Max (self w)) x,
   mkWorld (cache (clamp (ControlledValue_Min (self w)) (ControlledValue_Max (self w)) x)
              (self w)) (cout w)).
Proof.
  unfold ClampAndCacheOutput. unfold bind at 1 2 3. unfold get, ret. cbn.
  rewrite CachePreviousCalculation_run. reflexivity.
Qed.

(** the output of a calculation that is not turned away, and the object
    it leaves, for both overloads *)
Lemma CalculateNewValue_run (t c dt : float) (w : World) :
  IsNearlyZero dt = false ->
  CalculateNewValue t c dt w =
  let s := self w in
  let e := fsub t c in
  let s1 := integrated s e dt in
  let Output :=
    fadd (fadd (fadd f0 (proportional s e)) (_IntegralAccumulation s1))
      (derivative_of_input s1 c dt) in
  let y := clamp (ControlledValue_Min s1) (ControlledValue_Max s1) Output in
  (y, mkWorld (cache y (set_PreviousInput c (set_PreviousError e s1))) (cout w)).
Proof.
  intros Hdt. unfold CalculateNewValue. rewrite Hdt.
  unfold bind at 1. rewrite ProportionalError_run. cbn [fst snd].
  unfold bind at 1. rewrite IntegralError_run. cbn [fst snd].
  unfold bind at 1. rewrite DifferentialError_PreventDerivativeKick_run. cbn [fst snd self].
  unfold CachePreviousError, CachePreviousInput.
  unfold bind at 1 2. unfold assign at 1 2. cbn [fst snd self cout].
  rewrite ClampAndCacheOutput_run. reflexivity.
Qed.

Lemma CalculateNewValue_Error_run (e dt : float) (w : World) :
  IsNearlyZero dt = false ->
  CalculateNewValue_Error e dt w =
  let s := self w in
  let s1 := integrated s e dt in
  let Output :=
    fadd (fadd (fadd f0 (proportional s e)) (_IntegralAccumulation s1))
      (derivative_of_error s1 e dt) in
  let y := clamp (ControlledValue_Min s1) (ControlledValue_Max s1) Output in
  (y, mkWorld (cache y (set_PreviousError e s1)) (cout w)).
Proof.
  intros Hdt. unfold CalculateNewValue_Error. rewrite Hdt.
  unfold bind at 1. rewrite ProportionalError_run. cbn [fst snd].
  unfold bind at 1. rewrite IntegralError_run. cbn [fst snd].
  unfold bind at 1. rewrite DifferentialError_run. cbn [fst snd self].
  unfold CachePreviousError.
  unfold bind at 1. unfold assign at 1. cbn [fst snd self cout].
  rewrite ClampAndCacheOutput_run. reflexivity.
Qed.

Lemma CalculateNewValue_nearly_zero (t c dt : float) (w : World) :
  IsNearlyZero dt = true -> CalculateNewValue t c dt w = (f0, diagnosed w).
Proof. intros H. unfold CalculateNewValue. rewrite H. reflexivity. Qed.

Lemma CalculateNewValue_Error_nearly_zero (e dt : float) (w : World) :
  IsNearlyZero dt = true -> CalculateNewValue_Error e dt w = (f0, diagnosed w).
Proof. intros H. unfold CalculateNewValue_Error. rewrite H. reflexivity. Qed.

Arguments CalculateNewValue : simpl never.
Arguments CalculateNewValue_Error : simpl never.
Arguments AccumulateBuffer : simpl never.

Lemma AccumulateBuffer_TickBuffer_run (dt size : float) (w : World) :
  AccumulateBuffer_TickBuffer dt size w =
  (fst (AccumulateBuffer (_TickBuffer (self w)) dt size),
   with_TickBuffer (snd (AccumulateBuffer (_TickBuffer (self w)) dt size)) w).
Proof. reflexivity. Qed.

Lemma Tick_run (t c dt : float) (w : World) :
  Tick t c dt w =
  let T := PeriodicDuration (self w) in
  let b := _TickBuffer (self w) in
  if fgt T f0 then
    if fgt dt T then
      (true, after (CalculateNewValue t c dt)
               (with_TickBuffer (snd (AccumulateBuffer b dt dt)) w))
    else if fst (AccumulateBuffer b dt T) then
      (true, after (CalculateNewValue t c T)
               (with_TickBuffer (snd (AccumulateBuffer b dt T)) w))
    else (false, with_TickBuffer (snd (AccumulateBuffer b dt T)) w)
  else (true, after (CalculateNewValue t c dt) w).
Proof.
  unfold Tick, AccumulateBuffer_TickBuffer, with_TickBuffer. run_methods.
  destruct (fgt (PeriodicDuration (self w)) f0); [|reflexivity].
  destruct (fgt dt (PeriodicDuration (self w))); [reflexivity|].
  destruct (fst (AccumulateBuffer _ _ _)); reflexivity.
Qed.

Lemma Tick_Error_run (e dt : float) (w : World) :
  Tick_Error e dt w =
  let T := PeriodicDuration (self w) in
  let b := _TickBuffer (self w) in
  if fgt T f0 then
    if fgt dt T then
      (true, after (CalculateNewValue_Error e dt)
               (with_TickBuffer (snd (AccumulateBuffer b dt dt)) w))
    else if fst (AccumulateBuffer b dt T) then
      (true, after (CalculateNewValue_Error e T)
               (with_TickBuffer (snd (AccumulateBuffer b dt T)) w))
    else (false, with_TickBuffer (snd (AccumulateBuffer b dt T)) w)
  else (true, after (CalculateNewValue_Error e dt) w).
Proof.
  unfold Tick_Error, AccumulateBuffer_TickBuffer, with_TickBuffer. run_methods.
  destruct (fgt (PeriodicDuration (self w)) f0); [|reflexivity].
  destruct (fgt dt (PeriodicDuration (self w))); [reflexivity|].
  destruct (fst (AccumulateBuffer _ _ _)); reflexivity.
Qed.

Lemma SetPeriodicDuration_run (p : float) (w : World) :
  SetPeriodicDuration p w =
  let s := self w in
  let T := PeriodicDuration s in
  (tt, mkWorld
         (set_PeriodicDuration p
            (if rescales T p
             then set_D_Gain (fdiv (D_Gain s) (fdiv p T))
                    (set_I_Gain (fmul (I_Gain s) (fdiv p T)) s)
             else s))
         (cout w)).
Proof.
  unfold SetPeriodicDuration, rescales. run_methods.
  destruct (_ && _); reflexivity.
Qed.

Lemma push_back_zeros_run (n : nat) (w : World) :
  push_back_zeros n w =
  (tt, mkWorld (set_CalculationAveragingBuffer
                  (_CalculationAveragingBuffer (self w) ++ repeat f0 n) (self w))
         (cout w)).
Proof.
  revert w. induction n as [|n IH]; intros w.
  - cbn. rewrite app_nil_r. destruct w as [[] ?]; reflexivity.
  - cbn [push_back_zeros]. unfold bind at 1. unfold push_back at 1.
    unfold assign at 1. cbn [fst snd]. rewrite IH. cbn.
    rewrite <- app_assoc. reflexivity.
Qed.

(** [ClearAveragingBuffer] throws exactly when the size is negative, the
    vector being empty by then; otherwise it leaves [size] zeros *)
Lemma ClearAveragingBuffer_run (w : World) :
  ClearAveragingBuffer w =
  (reserved (_CalculationAverageBufferSize (self w)),
   mkWorld (cleared_buffer (self w)) (cout w)).
Proof.
  unfold ClearAveragingBuffer, cleared_buffer, reserve, reserved.
  unfold propagate, bind, get, assign. cbn [fst snd self cout].
  change (_CalculationAverageBufferSize (set_CalculationAveragingBuffer [] (self w)))
    with (_CalculationAverageBufferSize (self w)).
  destruct (_CalculationAverageBufferSize (self w) <? 0) eqn:N; cbn [ret fst snd].
  - apply Z.ltb_lt in N.
    assert (Z.to_nat (_CalculationAverageBufferSize (self w)) = 0%nat) as -> by lia.
    reflexivity.
  - destruct (_CalculationAverageBufferSize (self w) >? 0) eqn:E.
    + rewrite push_back_zeros_run. reflexivity.
    + assert (Z.to_nat (_CalculationAverageBufferSize (self w)) = 0%nat) as ->.
      { rewrite Z.gtb_ltb, Z.ltb_ge in E. lia. }
      reflexivity.
Qed.

Lemma SetAveragingBufferSize_run (n : Z) (w : World) :
  SetAveragingBufferSize n w =
  (reserved n,
   mkWorld (cleared_buffer (set_CalculationAverageBufferSize n (self w))) (cout w)).
Proof.
  unfold SetAveragingBufferSize. unfold bind at 1. unfold assign at 1.
  cbn [fst snd]. rewrite ClearAveragingBuffer_run. reflexivity.
Qed.

Lemma ClearState_run (w : World) :
  ClearState w =
  (reserved (_CalculationAverageBufferSize (self w)),
   mkWorld (cleared (self w)) (cout w)).
Proof.
  unfold ClearState, cleared.
  unfold bind at 1 2 3 4 5 6. unfold assign. cbn [fst snd self cout].
  rewrite ClearAveragingBuffer_run. reflexivity.
Qed.

(** [Initialize] seeds and clamps the accumulator, then [ClearState]
    resets it with everything else *)
Lemma Initialize_run (b : bool) (w : World) :
  Initialize b w =
  (reserved (_CalculationAverageBufferSize (self w)),
   mkWorld (cleared (self w)) (cout w)).
Proof.
  unfold Initialize.
  assert (forall v s, cleared (set_IntegralAccumulation v s) = cleared s) as Hc
    by (intros v s; reflexivity).
  destruct b; run_methods; rewrite ClearState_run; cbn [self cout];
    repeat match goal with |- context [if ?x then _ else _] => destruct x end;
    cbn [fst snd self cout]; rewrite ?Hc; reflexivity.
Qed.

(** when [Initialize] throws, the assignment of the flag is skipped; the
    flag is set all the same, by [ClearState] *)
Lemma SetEnabled_run (b c : bool) (w : World) :
  SetEnabled b c w =
  (if negb (IsEnabled (self w)) && b
   then reserved (_CalculationAverageBufferSize (self w)) else Returns,
   mkWorld (set_bIsEnabled b
              (if negb (IsEnabled (self w)) && b then cleared (self w) else self w))
     (cout w)).
Proof.
  unfold SetEnabled. unfold bind at 1. unfold get at 1. cbn [fst snd].
  unfold propagate.
  destruct (negb (IsEnabled (self w))) eqn:Hoff; destruct b; cbn [andb];
    try reflexivity.
  rewrite Initialize_run. cbn [fst snd].
  destruct (reserved _); reflexivity.
Qed.

(** the averaging size is 1 when the constructors clear the state, so
    they always return *)
Lemma constructors_return
    (storage : FPIDController) (out : list string)
    (P I D MaxValue MinValue Period : float) :
  result FPIDController_default_body (mkWorld storage out) = Returns /\
  result (FPIDController_gains_body P I D MaxValue MinValue Period)
    (mkWorld storage out) = Returns.
Proof. destruct storage. split; reflexivity. Qed.

(** ** Small facts on zero and on the tolerance *)

Lemma feq_zero_IsNearlyZero (x : float) : feq x f0 = true -> IsNearlyZero x = true.
Proof. intros H. unfold IsNearlyZero. rewrite H. reflexivity. Qed.

Lemma feq_zero_inv (x : float) :
  feq x f0 = true -> x = S754_zero false \/ x = S754_zero true.
Proof.
  destruct x as [[]|[]| |[] m e]; cbv; try discriminate; auto.
Qed.

(** 0.f + 0.f + a + 0.f is 0.f + a, which is a unless a is the negative zero *)
Lemma fadd_zero_terms (a : float) : fadd (fadd (fadd f0 f0) a) f0 = fadd f0 a.
Proof. destruct a as [[]|[]| |[] m e]; reflexivity. Qed.

Lemma fadd_zero_left (a : float) : a <> S754_zero true -> fadd f0 a = a.
Proof. destruct a as [[]|[]| |[] m e]; try reflexivity. intros H; elim H; reflexivity. Qed.

(** ** Re-enabling (C1) *)

(** Whatever the flag, enabling a disabled controller ends in [ClearState]:
    the accumulator and the last output are both 0.f afterwards. *)
Lemma SetEnabled_reenable_clears (w : World) (bClearIntegralAccumulation : bool) :
  IsEnabled (self w) = false ->
  after (SetEnabled true bClearIntegralAccumulation) w =
  mkWorld (cleared (self w)) (cout w).
Proof.
  intros H. unfold after. rewrite SetEnabled_run, H. cbn [snd negb andb].
  reflexivity.
Qed.

(** C1, at the failing input: a default controller calculates 0.5 from the
    error 0.5, is disabled, and is enabled again with
    bClearIntegralAccumulation = false.  The last output 0.5 lies within
    the output range [0, 1], yet the integral accumulator is 0.f after the
    call, not the last output: Initialize seeds it and then ClearState
    zeroes it. *)
Theorem SetEnabled_reenable_loses_seed :
  let w := after (SetEnabled false false)
             (after (CalculateNewValue_Error (of_ratio 1 2) f1) (construct [])) in
  IsEnabled (self w) = false /\
  GetLastCalculatedValue (self w) = of_ratio 1 2 /\
  in_range (ControlledValue_Min (self w)) (ControlledValue_Max (self w))
    (GetLastCalculatedValue (self w)) = true /\
  GetIntegralAccumulation (self (after (SetEnabled true false) w)) = f0 /\
  GetIntegralAccumulation (self (after (SetEnabled true false) w))
    <> GetLastCalculatedValue (self w).
Proof.
  vm_compute. repeat split; discriminate.
Qed.

(** ** Zero gains (C3) *)

(** C3 as stated fails: a controller built with integral gain 1 and range
    [0, 1] integrates the error 0.5 over one second; its three gains are
    then set to 0.  The next calculation returns the held accumulator 0.5,
    not 0. *)
Lemma zero_gains_return_held_integral :
  let w := after (perform (Write_I_Gain f0))
             (after (perform (Call_CalculateNewValue_Error (of_ratio 1 2) f1))
                (construct_gains f0 f1 f0 f1 f0 (of_ratio 2 10) [])) in
  reachable w /\
  P_Gain (self w) = f0 /\ I_Gain (self w) = f0 /\ D_Gain (self w) = f0 /\
  result (CalculateNewValue_Error f0 f1) w = of_ratio 1 2 /\
  result (CalculateNewValue f0 f0 f1) w = of_ratio 1 2 /\
  result (CalculateNewValue_Error f0 f1) w <> f0.
Proof.
  intros w. split.
  - unfold w. do 2 apply reachable_perform. apply reachable_construct_gains.
  - vm_compute. repeat split; discriminate.
Qed.

(** C3, amended: with the three gains equal to 0, a calculation of either
    overload never changes the integral accumulator, and returns 0 for a
    nearly zero DeltaTime and otherwise the accumulator (0.f + accumulator)
    clamped to [Min, Max]; so it returns 0 when the accumulator is 0 and 0
    lies within the range. *)
Theorem zero_gains_return_clamped_integral (w : World) (t c e dt : float) :
  feq (P_Gain (self w)) f0 = true ->
  feq (I_Gain (self w)) f0 = true ->
  feq (D_Gain (self w)) f0 = true ->
  let s := self w in
  let held :=
    clamp (ControlledValue_Min s) (ControlledValue_Max s)
      (fadd f0 (_IntegralAccumulation s)) in
  result (CalculateNewValue t c dt) w = (if IsNearlyZero dt then f0 else held) /\
  result (CalculateNewValue_Error e dt) w = (if IsNearlyZero dt then f0 else held) /\
  GetIntegralAccumulation (self (after (CalculateNewValue t c dt) w)) =
    GetIntegralAccumulation s /\
  GetIntegralAccumulation (self (after (CalculateNewValue_Error e dt) w)) =
    GetIntegralAccumulation s /\
  (feq (_IntegralAccumulation s) f0 = true ->
   in_range (ControlledValue_Min s) (ControlledValue_Max s) f0 = true ->
   held = f0).
Proof.
  intros HP HI HD s held.
  apply feq_zero_IsNearlyZero in HP, HI, HD.
  assert (Hs : integrated s (fsub t c) dt = s /\ integrated s e dt = s)
    by (unfold integrated; fold s in HI; rewrite HI; auto).
  destruct Hs as [Hs1 Hs2].
  unfold result, after.
  destruct (IsNearlyZero dt) eqn:Hdt.
  - rewrite CalculateNewValue_nearly_zero, CalculateNewValue_Error_nearly_zero by assumption.
    cbn [fst snd diagnosed self]. repeat split; try reflexivity.
    subst held. intros Hacc Hr.
    destruct (feq_zero_inv _ Hacc) as [-> | ->];
      (change (fadd f0 _) with f0); apply clamp_inside; exact Hr.
  - rewrite CalculateNewValue_run, CalculateNewValue_Error_run by assumption.
    cbn zeta. fold s. rewrite Hs1, Hs2. cbn [fst snd self].
    unfold proportional, derivative_of_input, derivative_of_error.
    fold s in HP, HD. rewrite HP, HD, !orb_true_r, fadd_zero_terms.
    fold held. repeat split; try reflexivity.
    + unfold cache, GetIntegralAccumulation.
      destruct (_ >? 1); reflexivity.
    + unfold cache, GetIntegralAccumulation.
      destruct (_ >? 1); reflexivity.
    + subst held. intros Hacc Hr.
      destruct (feq_zero_inv _ Hacc) as [-> | ->];
        (change (fadd f0 _) with f0); apply clamp_inside; exact Hr.
Qed.

Lemma zero_gains_return_clamped_integral_witness :
  let w := construct_gains f0 f0 f0 f1 f0 (of_ratio 2 10) [] in
  feq (P_Gain (self w)) f0 = true /\
  feq (I_Gain (self w)) f0 = true /\
  feq (D_Gain (self w)) f0 = true /\
  result (CalculateNewValue f1 f0 f1) w = f0 /\
  GetIntegralAccumulation (self (after (CalculateNewValue f1 f0 f1) w)) = f0.
Proof.
  intros w.
  assert (HP : feq (P_Gain (self w)) f0 = true) by (vm_compute; reflexivity).
  assert (HI : feq (I_Gain (self w)) f0 = true) by (vm_compute; reflexivity).
  assert (HD : feq (D_Gain (self w)) f0 = true) by (vm_compute; reflexivity).
  destruct (zero_gains_return_clamped_integral w f1 f0 f1 f1 HP HI HD)
    as (H1 & _ & H3 & _ & _).
  split; [exact HP|]. split; [exact HI|]. split; [exact HD|]. split.
  - rewrite H1. vm_compute. reflexivity.
  - rewrite H3. vm_compute. reflexivity.
Defined.

(** ** DeltaTime the calculations turn away (C4) *)

(** C4 as stated fails for a negative DeltaTime: with DeltaTime = -1 the
    default controller is not turned away.  It returns 0.5 for the error
    0.5, writes no diagnostic and records the error and the output. *)
Lemma negative_DeltaTime_is_calculated :
  let w := construct [] in
  let r := CalculateNewValue_Error (of_ratio 1 2) fm1 w in
  flt fm1 f0 = true /\
  fst r = of_ratio 1 2 /\ fst r <> f0 /\
  cout (snd r) = cout w /\
  GetPreviousError (self w) = f0 /\
  GetPreviousError (self (snd r)) = of_ratio 1 2 /\
  GetLastCalculatedValue (self w) = f0 /\
  GetLastCalculatedValue (self (snd r)) = of_ratio 1 2.
Proof.
  vm_compute. repeat split; discriminate.
Qed.

(** C4, amended: for every controller state and every DeltaTime that is
    nearly zero (equal to 0, or strictly between -0.00001f and 0.00001f),
    either overload of the calculation writes the diagnostic, returns 0 and
    leaves every member of the object as it was. *)
Theorem nearly_zero_DeltaTime_turned_away (w : World) (t c e dt : float) :
  IsNearlyZero dt = true ->
  CalculateNewValue t c dt w = (f0, mkWorld (self w) (cout w ++ [diagnostic])) /\
  CalculateNewValue_Error e dt w = (f0, mkWorld (self w) (cout w ++ [diagnostic])).
Proof.
  intros H. split.
  - apply CalculateNewValue_nearly_zero, H.
  - apply CalculateNewValue_Error_nearly_zero, H.
Qed.

Lemma nearly_zero_DeltaTime_turned_away_witness :
  let w := construct [] in
  let dt := of_ratio 1 1000000 in
  IsNearlyZero dt = true /\
  CalculateNewValue f1 f0 dt w = (f0, mkWorld (self w) [diagnostic]) /\
  CalculateNewValue_Error f1 dt w = (f0, mkWorld (self w) [diagnostic]).
Proof.
  intros w dt.
  assert (H : IsNearlyZero dt = true) by (vm_compute; reflexivity).
  destruct (nearly_zero_DeltaTime_turned_away w f1 f0 f1 dt H) as [E1 E2].
  split; [exact H|]. split.
  - rewrite E1. vm_compute. reflexivity.
  - rewrite E2. vm_compute. reflexivity.
Defined.

(** a negative DeltaTime that is not nearly zero only silences the
    derivative: both derivative terms are 0.f *)
Lemma negative_DeltaTime_derivative (w : World) (c e dt : float) :
  flt dt f0 = true ->
  kick_free_term w c dt = f0 /\ error_term w e dt = f0.
Proof.
  intros H. unfold kick_free_term, error_term, result.
  rewrite DifferentialError_PreventDerivativeKick_run, DifferentialError_run.
  unfold derivative_of_input, derivative_of_error. rewrite H. auto.
Qed.

(** ** Tick answering true without a calculation (C10) *)

(** C10: Tick answers true although the calculation it called was turned
    away.  With a period that is not positive, a nearly zero DeltaTime
    leaves the whole object unchanged (only the diagnostic is written), for
    both overloads.  Past the period (DeltaTime > period > 0) with a nearly
    zero DeltaTime, everything but the tick buffer is unchanged, and on the
    controller of period 2^-20 with an empty tick buffer and DeltaTime
    2^-19 the whole object is unchanged. *)
Theorem Tick_true_without_calculation :
  (forall (w : World) (t c e dt : float),
     fgt (PeriodicDuration (self w)) f0 = false ->
     IsNearlyZero dt = true ->
     Tick t c dt w = (true, mkWorld (self w) (cout w ++ [diagnostic])) /\
     Tick_Error e dt w = (true, mkWorld (self w) (cout w ++ [diagnostic]))) /\
  (forall (w : World) (t c e dt : float),
     fgt (PeriodicDuration (self w)) f0 = true ->
     fgt dt (PeriodicDuration (self w)) = true ->
     IsNearlyZero dt = true ->
     let b := snd (AccumulateBuffer (_TickBuffer (self w)) dt dt) in
     Tick t c dt w =
       (true, mkWorld (set_TickBuffer b (self w)) (cout w ++ [diagnostic])) /\
     Tick_Error e dt w =
       (true, mkWorld (set_TickBuffer b (self w)) (cout w ++ [diagnostic]))) /\
  (let w := construct_gains f1 f0 f0 f1 f0 (of_ratio 1 1048576) [] in
   let dt := of_ratio 1 524288 in
   fgt (PeriodicDuration (self w)) f0 = true /\
   fgt dt (PeriodicDuration (self w)) = true /\
   IsNearlyZero dt = true /\
   Tick f1 f0 dt w = (true, mkWorld (self w) [diagnostic]) /\
   Tick_Error f1 dt w = (true, mkWorld (self w) [diagnostic])).
Proof.
  split; [|split].
  - intros w t c e dt HT Hdt.
    rewrite Tick_run, Tick_Error_run. cbn zeta. rewrite HT. unfold after.
    rewrite CalculateNewValue_nearly_zero, CalculateNewValue_Error_nearly_zero
      by assumption.
    split; reflexivity.
  - intros w t c e dt HT Hover Hdt b.
    rewrite Tick_run, Tick_Error_run. cbn zeta. rewrite HT, Hover. unfold after.
    rewrite CalculateNewValue_nearly_zero, CalculateNewValue_Error_nearly_zero
      by assumption.
    split; reflexivity.
  - vm_compute. repeat split.
Qed.

Lemma Tick_true_without_calculation_witness :
  let w := construct_gains f1 f0 f0 f1 f0 f0 [] in
  fgt (PeriodicDuration (self w)) f0 = false /\
  IsNearlyZero f0 = true /\
  Tick f1 f0 f0 w = (true, mkWorld (self w) [diagnostic]) /\
  GetLastCalculatedValue (self (after (Tick f1 f0 f0) w)) =
    GetLastCalculatedValue (self w).
Proof.
  intros w.
  assert (HT : fgt (PeriodicDuration (self w)) f0 = false) by (vm_compute; reflexivity).
  assert (Hdt : IsNearlyZero f0 = true) by (vm_compute; reflexivity).
  destruct Tick_true_without_calculation as [Hpass _].
  destruct (Hpass w f1 f0 f1 f0 HT Hdt) as [H _].
  split; [exact HT|]. split; [exact Hdt|]. split.
  - rewrite H. vm_compute. reflexivity.
  - unfold after. rewrite H. cbn [snd self]. reflexivity.
Defined.

(** ** Changing the period (C7) *)

(** C7: SetPeriodicDuration multiplies the integral gain by
    new / old and divides the derivative gain by the same ratio exactly
    when both periods are positive and not nearly zero, stores the new
    period in every case and touches nothing else; from period 0.2 to 0.1
    the gains 2.0 and 1.0 become 1.0 and 2.0; and when either period is
    <= 0 the gains stay as they are. *)
Theorem SetPeriodicDuration_rescales_gains :
  (forall (w : World) (p : float),
     let s := self w in
     let T := PeriodicDuration s in
     let ratio := fdiv p T in
     after (SetPeriodicDuration p) w =
       mkWorld
         (set_PeriodicDuration p
            (if fgt p f0 && negb (IsNearlyZero p) && fgt T f0 && negb (IsNearlyZero T)
             then set_D_Gain (fdiv (D_Gain s) ratio)
                    (set_I_Gain (fmul (I_Gain s) ratio) s)
             else s))
         (cout w)) /\
  (let w := construct_gains f1 (of_int 2) (of_int 1) f1 f0 (of_ratio 2 10) [] in
   let s' := self (after (SetPeriodicDuration (of_ratio 1 10)) w) in
   I_Gain s' = of_int 1 /\ D_Gain s' = of_int 2 /\
   PeriodicDuration s' = of_ratio 1 10) /\
  (forall (w : World) (p : float),
     fle p f0 = true \/ fle (PeriodicDuration (self w)) f0 = true ->
     self (after (SetPeriodicDuration p) w) = set_PeriodicDuration p (self w)).
Proof.
  split; [|split].
  - intros w p s T ratio. unfold after. rewrite SetPeriodicDuration_run.
    reflexivity.
  - vm_compute. repeat split.
  - intros w p H. unfold after. rewrite SetPeriodicDuration_run.
    cbn [snd self]. unfold rescales.
    destruct H as [H | H]; rewrite (fle_not_fgt _ _ H);
      rewrite ?andb_false_r; reflexivity.
Qed.

Lemma SetPeriodicDuration_rescales_gains_witness :
  let w := construct_gains f1 (of_int 2) (of_int 1) f1 f0 (of_ratio 2 10) [] in
  fle f0 f0 = true /\
  self (after (SetPeriodicDuration f0) w) = set_PeriodicDuration f0 (self w) /\
  I_Gain (self (after (SetPeriodicDuration f0) w)) = of_int 2 /\
  D_Gain (self (after (SetPeriodicDuration f0) w)) = of_int 1.
Proof.
  intros w.
  assert (H : fle f0 f0 = true) by (vm_compute; reflexivity).
  destruct SetPeriodicDuration_rescales_gains as (_ & _ & Hkeep).
  pose proof (Hkeep w f0 (or_introl H)) as E.
  split; [exact H|]. split; [exact E|]. split.
  - rewrite E. vm_compute. reflexivity.
  - rewrite E. vm_compute. reflexivity.
Defined.

(** ** Members a calculation leaves alone *)

Lemma integrated_frame (s : FPIDController) (e dt : float) :
  P_Gain (integrated s e dt) = P_Gain s /\
  I_Gain (integrated s e dt) = I_Gain s /\
  D_Gain (integrated s e dt) = D_Gain s /\
  ControlledValue_Max (integrated s e dt) = ControlledValue_Max s /\
  ControlledValue_Min (integrated s e dt) = ControlledValue_Min s /\
  PeriodicDuration (integrated s e dt) = PeriodicDuration s /\
  _CalculationAveragingBuffer (integrated s e dt) = _CalculationAveragingBuffer s /\
  _CalculationAverageBufferSize (integrated s e dt) = _CalculationAverageBufferSize s /\
  _TickBuffer (integrated s e dt) = _TickBuffer s /\
  _bIsEnabled (integrated s e dt) = _bIsEnabled s.
Proof.
  unfold integrated. destruct (IsNearlyZero (I_Gain s)); repeat split; reflexivity.
Qed.

Lemma cache_frame (v : float) (s : FPIDController) :
  P_Gain (cache v s) = P_Gain s /\
  I_Gain (cache v s) = I_Gain s /\
  D_Gain (cache v s) = D_Gain s /\
  ControlledValue_Max (cache v s) = ControlledValue_Max s /\
  ControlledValue_Min (cache v s) = ControlledValue_Min s /\
  PeriodicDuration (cache v s) = PeriodicDuration s /\
  _CalculationAverageBufferSize (cache v s) = _CalculationAverageBufferSize s /\
  _IntegralAccumulation (cache v s) = _IntegralAccumulation s /\
  _TickBuffer (cache v s) = _TickBuffer s /\
  _bIsEnabled (cache v s) = _bIsEnabled s /\
  _PreviousCalculation (cache v s) = v.
Proof.
  unfold cache, GetAveragingBufferSize. cbn.
  destruct (_ >? 1); repeat split; reflexivity.
Qed.

(** ** Anti-windup (C2) *)




(** ** Ticks that stay within the period (C5) *)

Lemma CalculateNewValue_PeriodicDuration (t c dt : float) (w : World) :
  PeriodicDuration (self (after (CalculateNewValue t c dt) w)) =
  PeriodicDuration (self w).
Proof.
  unfold after. destruct (IsNearlyZero dt) eqn:Hdt.
  - rewrite CalculateNewValue_nearly_zero by assumption. reflexivity.
  - rewrite CalculateNewValue_run by assumption. cbn zeta. cbn [snd self].
    destruct (cache_frame
                (clamp (ControlledValue_Min (integrated (self w) (fsub t c) dt))
                   (ControlledValue_Max (integrated (self w) (fsub t c) dt))
                   (fadd
                      (fadd (fadd f0 (proportional (self w) (fsub t c)))
                         (_IntegralAccumulation (integrated (self w) (fsub t c) dt)))
                      (derivative_of_input (integrated (self w) (fsub t c) dt) c dt)))
                (set_PreviousInput c
                   (set_PreviousError (fsub t c) (integrated (self w) (fsub t c) dt))))
      as (_ & _ & _ & _ & _ & E & _).
    rewrite E. cbn.
    destruct (integrated_frame (self w) (fsub t c) dt) as (_ & _ & _ & _ & _ & E' & _).
    exact E'.
Qed.

Lemma CalculateNewValue_calculated (t c dt : float) (w : World) :
  IsNearlyZero dt = false -> CalculateNewValue t c dt w = calculated t c dt w.
Proof. intros H. rewrite CalculateNewValue_run by exact H. reflexivity. Qed.

(** one tick: the code does what [accumulating_tick] says *)
Lemma Tick_accumulating (t c dt : float) (w : World) :
  fgt (PeriodicDuration (self w)) f0 = true ->
  IsNearlyZero (PeriodicDuration (self w)) = false ->
  fle dt (PeriodicDuration (self w)) = true ->
  Tick t c dt w = accumulating_tick (PeriodicDuration (self w)) t c dt w.
Proof.
  intros HT HZ Hdt. rewrite Tick_run. cbn zeta.
  rewrite HT, (fle_not_fgt _ _ Hdt).
  unfold accumulating_tick, AccumulateBuffer, after.
  destruct (fge _ _); cbn [fst snd]; [|reflexivity].
  rewrite CalculateNewValue_calculated by exact HZ. reflexivity.
Qed.

(** what a calculation that is carried out leaves in the object *)
Lemma calculated_frame (t c dt : float) (w : World) :
  let w' := snd (calculated t c dt w) in
  PeriodicDuration (self w') = PeriodicDuration (self w) /\
  _TickBuffer (self w') = _TickBuffer (self w) /\
  GetLastCalculatedValue (self w') = fst (calculated t c dt w) /\
  GetPreviousError (self w') = fsub t c /\
  GetPreviousInput (self w') = c /\
  cout w' = cout w.
Proof.
  unfold calculated. cbn zeta. cbn [fst snd self cout].
  destruct (integrated_frame (self w) (fsub t c) dt)
    as (_ & _ & _ & _ & _ & E6' & _ & _ & E9' & _).
  unfold GetLastCalculatedValue, GetPreviousError, GetPreviousInput.
  unfold cache, GetAveragingBufferSize. cbn.
  destruct (_ >? 1); cbn; repeat split; assumption || reflexivity.
Qed.

Lemma accumulating_tick_PeriodicDuration (T t c dt : float) (w : World) :
  PeriodicDuration (self (snd (accumulating_tick T t c dt w))) =
  PeriodicDuration (self w).
Proof.
  unfold accumulating_tick. destruct (fge _ _); cbn [snd].
  - destruct (calculated_frame t c T
                (with_TickBuffer (fsub (fadd (_TickBuffer (self w)) dt) T) w))
      as (E & _).
    rewrite E. reflexivity.
  - reflexivity.
Qed.

(** C5 as stated fails for a period that is positive but nearly zero.  On
    the controller of period 2^-20 a tick of 2^-20 has
    0 < DeltaTime <= period and takes the accumulator to the period, so
    Tick answers true; but the calculation it calls is turned away: only
    the diagnostic is written, the object is left as it was and the last
    output is still 0, where a calculation would have recorded 1. *)
Lemma nearly_zero_period_calculates_nothing :
  let T := of_ratio 1 1048576 in
  let w := construct_gains f1 f0 f0 f1 f0 T [] in
  PeriodicDuration (self w) = T /\
  fgt T f0 = true /\ fle T T = true /\
  IsNearlyZero T = true /\
  fge (fadd (_TickBuffer (self w)) T) T = true /\
  Tick f1 f0 T w = (true, mkWorld (self w) [diagnostic]) /\
  GetLastCalculatedValue (self (after (Tick f1 f0 T) w)) = f0 /\
  GetPreviousError (self (after (Tick f1 f0 T) w)) = f0 /\
  fst (calculated f1 f0 T w) = f1 /\
  GetPreviousError (self (snd (calculated f1 f0 T w))) = f1.
Proof. vm_compute. repeat split. Qed.

(** C5, amended: on a controller whose period T is positive and not nearly
    zero, along every sequence of Tick calls whose DeltaTime satisfies
    0 < DeltaTime <= T, each call adds its DeltaTime to the accumulator;
    when the accumulator has reached T the call takes T out of it, carries
    out exactly one calculation with T as the DeltaTime (the error and the
    input are stored, the clamped output is recorded, nothing is written)
    and answers true; every other call answers false and changes nothing
    but the accumulator, so the last output stays. *)
Theorem Ticks_within_period
    (T : float) (inputs : list (float * float * float)) (w : World) :
  PeriodicDuration (self w) = T ->
  fgt T f0 = true ->
  IsNearlyZero T = false ->
  Forall (fun i => fgt (snd i) f0 = true /\ fle (snd i) T = true) inputs ->
  Ticks inputs w = accumulating_ticks T inputs w /\
  (forall t c dt,
     fst (accumulating_tick T t c dt w) = false ->
     self (snd (accumulating_tick T t c dt w)) =
       set_TickBuffer (fadd (_TickBuffer (self w)) dt) (self w) /\
     cout (snd (accumulating_tick T t c dt w)) = cout w /\
     GetLastCalculatedValue (self (snd (accumulating_tick T t c dt w))) =
       GetLastCalculatedValue (self w)) /\
  (forall t c dt,
     fst (accumulating_tick T t c dt w) = true ->
     let w1 := with_TickBuffer (fsub (fadd (_TickBuffer (self w)) dt) T) w in
     let w' := snd (accumulating_tick T t c dt w) in
     fge (fadd (_TickBuffer (self w)) dt) T = true /\
     w' = after (CalculateNewValue t c T) w1 /\
     w' = snd (calculated t c T w1) /\
     _TickBuffer (self w') = fsub (fadd (_TickBuffer (self w)) dt) T /\
     GetLastCalculatedValue (self w') = fst (calculated t c T w1) /\
     GetPreviousError (self w') = fsub t c /\
     GetPreviousInput (self w') = c /\
     cout w' = cout w).
Proof.
  intros HP HT HZ Hin. split; [|split].
  - revert w HP. induction Hin as [|[[t c] dt] rest [_ Hdt] _ IH]; intros w HP.
    + reflexivity.
    + cbn [Ticks accumulating_ticks snd] in *.
      unfold bind at 1. rewrite Tick_accumulating; rewrite HP; try assumption.
      unfold bind at 1.
      rewrite IH by (rewrite accumulating_tick_PeriodicDuration; exact HP).
      reflexivity.
  - intros t c dt. unfold accumulating_tick.
    destruct (fge _ _); cbn [fst snd]; [discriminate|]. intros _.
    repeat split; reflexivity.
  - intros t c dt. unfold accumulating_tick.
    destruct (fge _ _); cbn [fst snd]; [|discriminate]. intros _. cbn zeta.
    destruct (calculated_frame t c T
                (with_TickBuffer (fsub (fadd (_TickBuffer (self w)) dt) T) w))
      as (_ & Eb & El & Ee & Ei & Ec).
    split; [reflexivity|]. split.
    { unfold after. rewrite CalculateNewValue_calculated by exact HZ. reflexivity. }
    split; [reflexivity|]. split; [exact Eb|]. split; [exact El|].
    split; [exact Ee|]. split; [exact Ei|]. exact Ec.
Qed.

Lemma Ticks_within_period_witness :
  let w := construct_gains f1 f0 f0 f1 f0 (of_ratio 25 100) [] in
  let dt := of_ratio 1 10 in
  let inputs := [(f1, f0, dt); (f1, f0, dt); (f1, f0, dt)] in
  PeriodicDuration (self w) = of_ratio 25 100 /\
  fgt (of_ratio 25 100) f0 = true /\
  IsNearlyZero (of_ratio 25 100) = false /\
  fgt dt f0 = true /\ fle dt (of_ratio 25 100) = true /\
  Ticks inputs w = accumulating_ticks (of_ratio 25 100) inputs w /\
  result (Ticks inputs) w = [false; false; true] /\
  _TickBuffer (self (after (Ticks inputs) w)) =
    fsub (fadd (fadd dt dt) dt) (of_ratio 25 100) /\
  GetLastCalculatedValue (self (after (Ticks inputs) w)) = f1.
Proof.
  intros w dt inputs.
  assert (HP : PeriodicDuration (self w) = of_ratio 25 100) by (vm_compute; reflexivity).
  assert (HT : fgt (of_ratio 25 100) f0 = true) by (vm_compute; reflexivity).
  assert (HZ : IsNearlyZero (of_ratio 25 100) = false) by (vm_compute; reflexivity).
  assert (H1 : fgt dt f0 = true) by (vm_compute; reflexivity).
  assert (H2 : fle dt (of_ratio 25 100) = true) by (vm_compute; reflexivity).
  assert (Hin : Forall (fun i : float * float * float =>
                          fgt (snd i) f0 = true /\ fle (snd i) (of_ratio 25 100) = true)
                  inputs) by (repeat constructor; assumption).
  destruct (Ticks_within_period (of_ratio 25 100) inputs w HP HT HZ Hin) as [E _].
  split; [exact HP|]. split; [exact HT|]. split; [exact HZ|].
  split; [exact H1|]. split; [exact H2|].
  split; [exact E|].
  vm_compute. repeat split.
Defined.

(** ** The averaging window (C9) *)

Lemma buffer_filled_frame (s s' : FPIDController) :
  _CalculationAveragingBuffer s' = _CalculationAveragingBuffer s ->
  _CalculationAverageBufferSize s' = _CalculationAverageBufferSize s ->
  buffer_filled s -> buffer_filled s'.
Proof. unfold buffer_filled. intros -> ->. auto. Qed.

Lemma buffer_filled_cleared_buffer (s : FPIDController) :
  buffer_filled (cleared_buffer s).
Proof. unfold buffer_filled, cleared_buffer. cbn. apply repeat_length. Qed.

Lemma buffer_filled_cache (v : float) (s : FPIDController) :
  buffer_filled s -> buffer_filled (cache v s).
Proof.
  unfold buffer_filled, cache, GetAveragingBufferSize. cbn.
  destruct (_ >? 1) eqn:E; cbn; [|auto].
  intros H. rewrite <- H.
  destruct (_CalculationAveragingBuffer s); cbn; [reflexivity|].
  rewrite length_app. cbn. lia.
Qed.

Lemma buffer_filled_integrated (s : FPIDController) (e dt : float) :
  buffer_filled s -> buffer_filled (integrated s e dt).
Proof.
  destruct (integrated_frame s e dt) as (_ & _ & _ & _ & _ & _ & Eb & En & _).
  apply buffer_filled_frame; assumption.
Qed.

Lemma buffer_filled_CalculateNewValue (t c dt : float) (w : World) :
  buffer_filled (self w) -> buffer_filled (self (after (CalculateNewValue t c dt) w)).
Proof.
  intros H. unfold after. destruct (IsNearlyZero dt) eqn:Hdt.
  - rewrite CalculateNewValue_nearly_zero by assumption. exact H.
  - rewrite CalculateNewValue_run by assumption. cbn zeta. cbn [snd self].
    apply buffer_filled_cache.
    apply (buffer_filled_frame (integrated (self w) (fsub t c) dt)); try reflexivity.
    apply buffer_filled_integrated, H.
Qed.

Lemma buffer_filled_CalculateNewValue_Error (e dt : float) (w : World) :
  buffer_filled (self w) -> buffer_filled (self (after (CalculateNewValue_Error e dt) w)).
Proof.
  intros H. unfold after. destruct (IsNearlyZero dt) eqn:Hdt.
  - rewrite CalculateNewValue_Error_nearly_zero by assumption. exact H.
  - rewrite CalculateNewValue_Error_run by assumption. cbn zeta. cbn [snd self].
    apply buffer_filled_cache.
    apply (buffer_filled_frame (integrated (self w) e dt)); try reflexivity.
    apply buffer_filled_integrated, H.
Qed.

Lemma buffer_filled_Tick (t c dt : float) (w : World) :
  buffer_filled (self w) -> buffer_filled (self (after (Tick t c dt) w)).
Proof.
  intros H. unfold after. rewrite Tick_run. cbn zeta.
  repeat match goal with |- context [if ?b then _ else _] => destruct b end;
    cbn [snd]; try apply buffer_filled_CalculateNewValue; exact H.
Qed.

Lemma buffer_filled_Tick_Error (e dt : float) (w : World) :
  buffer_filled (self w) -> buffer_filled (self (after (Tick_Error e dt) w)).
Proof.
  intros H. unfold after. rewrite Tick_Error_run. cbn zeta.
  repeat match goal with |- context [if ?b then _ else _] => destruct b end;
    cbn [snd]; try apply buffer_filled_CalculateNewValue_Error; exact H.
Qed.

Lemma buffer_filled_perform (c : Call) (w : World) :
  buffer_filled (self w) -> buffer_filled (self (after (perform c) w)).
Proof.
  intros H. destruct c; unfold after, perform; unfold bind at 1; cbn [snd ret].
  - apply buffer_filled_CalculateNewValue, H.
  - apply buffer_filled_CalculateNewValue_Error, H.
  - apply buffer_filled_Tick, H.
  - apply buffer_filled_Tick_Error, H.
  - unfold TickIfEnabled. unfold bind at 1. unfold get at 1. cbn [fst snd].
    destruct (IsEnabled (self w)); [apply buffer_filled_Tick, H | exact H].
  - unfold TickIfEnabled_Error. unfold bind at 1. unfold get at 1. cbn [fst snd].
    destruct (IsEnabled (self w)); [apply buffer_filled_Tick_Error, H | exact H].
  - rewrite SetPeriodicDuration_run. cbn [snd self].
    destruct (rescales _ _); exact H.
  - rewrite SetEnabled_run. cbn [snd self].
    destruct (negb _ && _); [|exact H].
    apply (buffer_filled_frame (cleared (self w))); try reflexivity.
    apply buffer_filled_cleared_buffer.
  - rewrite SetAveragingBufferSize_run. cbn [snd self].
    apply buffer_filled_cleared_buffer.
  - exact H.
  - exact H.
  - exact H.
  - exact H.
  - exact H.
  - exact H.
Qed.

(** the averaging vector of every object the owner can reach holds
    exactly [_CalculationAverageBufferSize] entries (none for a size <= 0) *)
Lemma reachable_buffer_filled (w : World) : reachable w -> buffer_filled (self w).
Proof.
  induction 1 as [out | P I D Max Min T out | c w _ IH].
  - reflexivity.
  - reflexivity.
  - apply buffer_filled_perform, IH.
Qed.

Lemma average_loop_fold (n i : nat) (buffer : list float) (a : float) :
  average_loop n i buffer a = fold_left fadd (firstn n (skipn i buffer)) a.
Proof.
  revert i a. induction n as [|n IH]; intros i a; cbn [average_loop firstn].
  - reflexivity.
  - destruct (nth_error buffer i) as [x|] eqn:E.
    + rewrite IH.
      assert (Hs : skipn i buffer = x :: skipn (S i) buffer).
      { clear -E. revert i E. induction buffer as [|y l IHl]; intros [|i] E;
          cbn in *; try discriminate.
        - injection E as ->. reflexivity.
        - apply IHl, E. }
      rewrite Hs. reflexivity.
    + apply nth_error_None in E. rewrite skipn_all2 by exact E. reflexivity.
Qed.

Lemma GetAverageCalculatedValue_filled (s : FPIDController) :
  buffer_filled s ->
  GetAverageCalculatedValue s =
  if GetAveragingBufferSize s <=? 1 then GetLastCalculatedValue s
  else mean (_CalculationAveragingBuffer s).
Proof.
  unfold buffer_filled, GetAverageCalculatedValue, GetAveragingBufferSize, mean.
  intros H. destruct (_ <=? 1) eqn:E; [reflexivity|].
  apply Z.leb_gt in E.
  rewrite average_loop_fold. cbn [skipn]. rewrite <- H, firstn_all, H.
  rewrite Z2Nat.id by lia. reflexivity.
Qed.

(** C9: on every object the owner can reach, GetAverageCalculatedValue is
    the plain arithmetic mean of the window (the entries summed and divided
    by their number) when the averaging size is > 1, and the last output
    when the size is <= 1; with size 3 and the outputs 0.2, 0.4, 0.6 of a
    default controller the average after the third calculation is 0.4; and
    SetAveragingBufferSize(n) with n >= 0 returns and leaves a window of n
    zeros. *)
Theorem GetAverageCalculatedValue_is_mean :
  (forall w : World, reachable w ->
     GetAverageCalculatedValue (self w) =
     if GetAveragingBufferSize (self w) <=? 1
     then GetLastCalculatedValue (self w)
     else mean (_CalculationAveragingBuffer (self w))) /\
  (let w0 := after (SetAveragingBufferSize 3) (construct []) in
   let w1 := after (CalculateNewValue_Error (of_ratio 2 10) f1) w0 in
   let w2 := after (CalculateNewValue_Error (of_ratio 4 10) f1) w1 in
   let w3 := after (CalculateNewValue_Error (of_ratio 6 10) f1) w2 in
   _CalculationAveragingBuffer (self w3) = [of_ratio 2 10; of_ratio 4 10; of_ratio 6 10] /\
   GetAverageCalculatedValue (self w3) = of_ratio 4 10) /\
  (forall (w : World) (n : Z),
     (0 <= n)%Z ->
     let s' := self (after (SetAveragingBufferSize n) w) in
     result (SetAveragingBufferSize n) w = Returns /\
     GetAveragingBufferSize s' = n /\
     _CalculationAveragingBuffer s' = repeat f0 (Z.to_nat n)).
Proof.
  split; [|split].
  - intros w Hw. apply GetAverageCalculatedValue_filled, reachable_buffer_filled, Hw.
  - vm_compute. split; reflexivity.
  - intros w n Hn s'. subst s'. unfold after, result.
    rewrite SetAveragingBufferSize_run. cbn [fst snd]. split.
    + unfold reserved. destruct (n <? 0) eqn:E; [|reflexivity].
      apply Z.ltb_lt in E. lia.
    + split; reflexivity.
Qed.

Lemma GetAverageCalculatedValue_is_mean_witness :
  let w0 := after (perform (Call_SetAveragingBufferSize 2)) (construct []) in
  let w1 := after (perform (Call_CalculateNewValue_Error (of_ratio 1 2) f1)) w0 in
  reachable w1 /\ (0 <= 2)%Z /\
  GetAverageCalculatedValue (self w1) = mean [f0; of_ratio 1 2] /\
  GetAverageCalculatedValue (self w1) = of_ratio 1 4 /\
  result (SetAveragingBufferSize 2) (construct []) = Returns /\
  _CalculationAveragingBuffer (self (after (SetAveragingBufferSize 2) (construct []))) =
    [f0; f0].
Proof.
  intros w0 w1.
  assert (Hw : reachable w1)
    by (unfold w1, w0; do 2 apply reachable_perform; apply reachable_construct).
  assert (Hn : (0 <= 2)%Z) by lia.
  destruct GetAverageCalculatedValue_is_mean as (Hmean & _ & Hsize).
  pose proof (Hmean w1 Hw) as E.
  destruct (Hsize (construct []) 2%Z Hn) as (R & _ & B).
  split; [exact Hw|]. split; [exact Hn|]. split; [|split; [|split]].
  - rewrite E. vm_compute. reflexivity.
  - rewrite E. vm_compute. reflexivity.
  - exact R.
  - rewrite B. reflexivity.
Defined.

(** ** binary32 facts behind the derivative terms and the tick buffer *)

Lemma digits2_pos_shift23 (m : positive) :
  Z.pos (digits2_pos (Pos.mul 8388608 m)) = (Z.pos (digits2_pos m) + 23)%Z.
Proof.
  cbn [Pos.mul digits2_pos]. rewrite !Pos2Z.inj_succ. lia.
Qed.

Lemma fmul_fm1 (x : float) :
  valid x = true -> is_finite x = true -> fmul fm1 x = fneg x.
Proof.
  destruct x as [s|s| |s m e]; try discriminate.
  - intros _ _. reflexivity.
  - intros Hv _. unfold valid, valid_binary, bounded, canonical_mantissa in Hv.
    apply andb_prop in Hv. destruct Hv as [Hc Hb].
    apply Z.eqb_eq in Hc. apply Z.leb_le in Hb.
    unfold fmul, fm1, of_int.
    change (binary_normalize prec emax (-1) 0 false) with (S754_finite true 8388608 (-23)).
    unfold SFmul, binary_round_aux, shr_fexp.
    unfold Zdigits2 at 1. rewrite digits2_pos_shift23.
    replace (Z.pos (digits2_pos m) + 23 + (-23 + e))%Z with (Z.pos (digits2_pos m) + e)%Z by lia.
    rewrite Hc.
    replace (e - (-23 + e))%Z with 23%Z by lia.
    unfold shr at 1. cbn [shr_record_of_loc].
    change (iter_pos shr_1 23 {| shr_m := Z.pos (8388608 * m); shr_r := false; shr_s := false |})
      with {| shr_m := Z.pos m; shr_r := false; shr_s := false |}.
    cbn [shr_m loc_of_shr_record round_nearest_even shr_record_of_loc Zdigits2].
    replace (-23 + e + 23)%Z with e by lia.
    rewrite Hc, Z.sub_diag. cbn [shr shr_m].
    apply Z.leb_le in Hb. rewrite Hb. reflexivity.
Qed.
Lemma feq_finite_inv (s1 s2 : bool) (m1 m2 : positive) (e1 e2 : Z) :
  feq (S754_finite s1 m1 e1) (S754_finite s2 m2 e2) = true ->
  s1 = s2 /\ m1 = m2 /\ e1 = e2.
Proof.
  unfold feq, SFeqb, SFcompare.
  change (Pos.compare_cont Eq m1 m2) with (Pos.compare m1 m2).
  destruct s1, s2; try discriminate;
    destruct (Z.compare e1 e2) eqn:Ee; try discriminate;
    destruct (Pos.compare m1 m2) eqn:Em; try discriminate; intros _;
    apply Z.compare_eq in Ee; apply Pos.compare_eq in Em; auto.
Qed.

(** x - y is a zero when x == y and x is finite *)
Lemma fsub_equal_is_zero (x y : float) :
  feq x y = true -> is_finite x = true -> is_zero (fsub x y) = true.
Proof.
  destruct x as [sx|sx| |sx mx ex], y as [sy|sy| |sy my ey]; try discriminate;
    try (destruct sx; discriminate); try (destruct sy; discriminate).
  - intros _ _. destruct sx, sy; reflexivity.
  - intros H _. apply feq_finite_inv in H. destruct H as (-> & -> & ->).
    unfold fsub, SFsub. rewrite Z.sub_diag. reflexivity.
Qed.

(** 0 / dt is a zero for a positive dt *)
Lemma fdiv_zero_is_zero (z dt : float) :
  is_zero z = true -> fgt dt f0 = true -> is_zero (fdiv z dt) = true.
Proof.
  destruct z as [sz|sz| |sz mz ez]; try discriminate. intros _.
  destruct dt as [s|s| |s m e]; try discriminate; try reflexivity.
Qed.

(** x * 0 is a zero for a finite x *)
Lemma fmul_zero_is_zero (x z : float) :
  is_finite x = true -> is_zero z = true -> is_zero (fmul x z) = true.
Proof.
  destruct z as [sz|sz| |sz mz ez]; try discriminate.
  destruct x as [s|s| |s m e]; try discriminate; reflexivity.
Qed.

(** adding a zero to an output leaves a value that compares equal to it *)
Lemma fadd_zero_feq (o z : float) :
  is_zero z = true -> is_nan o = false -> feq (fadd o z) o = true.
Proof.
  destruct z as [sz|sz| |sz mz ez]; try discriminate. intros _.
  destruct o as [s|s| |s m e]; try discriminate; intros _.
  - destruct s, sz; reflexivity.
  - destruct s; reflexivity.
  - change (fadd (S754_finite s m e) (S754_zero sz)) with (S754_finite s m e).
    unfold feq, SFeqb. rewrite SFcompare_refl; reflexivity.
Qed.

Lemma is_finite_fneg (x : float) : is_finite (fneg x) = is_finite x.
Proof. destruct x; reflexivity. Qed.
Lemma digits2_pos_size (m : positive) : digits2_pos m = Pos.size m.
Proof. induction m; cbn; congruence. Qed.

Lemma digits2_pos_bounds (m : positive) :
  (2 ^ (Z.pos (digits2_pos m) - 1) <= Z.pos m < 2 ^ Z.pos (digits2_pos m))%Z.
Proof.
  rewrite digits2_pos_size. split.
  - pose proof (Pos.size_le m) as H.
    assert (H' : (Z.pos (2 ^ Pos.size m) <= Z.pos m~0)%Z) by exact H.
    rewrite Pos2Z.inj_pow in H'.
    replace (Z.pos (Pos.size m)) with (Z.succ (Z.pos (Pos.size m) - 1)) in H' by lia.
    rewrite Z.pow_succ_r in H' by lia. lia.
  - pose proof (Pos.size_gt m) as H.
    assert (H' : (Z.pos m < Z.pos (2 ^ Pos.size m))%Z) by exact H.
    rewrite Pos2Z.inj_pow in H'. exact H'.
Qed.

Lemma iter_xO_pow2 (d m : positive) :
  Z.pos (Pos.iter xO m d) = (Z.pos m * 2 ^ Z.pos d)%Z.
Proof.
  induction d as [|d IH] using Pos.peano_ind.
  - cbn. lia.
  - rewrite Pos.iter_succ, Pos2Z.inj_xO, IH, Pos2Z.inj_succ, Z.pow_succ_r by lia. lia.
Qed.

(** aligning a mantissa to a smaller exponent multiplies it by the power of
    two between the exponents *)
Lemma shl_align_value (m : positive) (e e' : Z) :
  (e' <= e)%Z ->
  Z.pos (fst (shl_align m e e')) = (Z.pos m * 2 ^ (e - e'))%Z.
Proof.
  intros H. unfold shl_align.
  destruct (e' - e)%Z as [|d|d] eqn:E; cbn [fst].
  - replace (e - e')%Z with 0%Z by lia. lia.
  - lia.
  - rewrite iter_xO_pow2. f_equal. f_equal. lia.
Qed.
(** of two canonical binary32 mantissas, the one with the smaller exponent
    is the smaller number *)
Lemma canonical_exponent_order (mx my : positive) (ex ey : Z) :
  canonical_mantissa prec emax mx ex = true ->
  canonical_mantissa prec emax my ey = true ->
  (ey < ex)%Z ->
  (Z.pos my < Z.pos mx * 2 ^ (ex - ey))%Z.
Proof.
  unfold canonical_mantissa, fexp, emin, prec, emax.
  intros Hx Hy Hlt. apply Z.eqb_eq in Hx, Hy.
  destruct (digits2_pos_bounds mx) as [Lx _].
  destruct (digits2_pos_bounds my) as [_ Uy].
  set (dx := Z.pos (digits2_pos mx)) in *.
  set (dy := Z.pos (digits2_pos my)) in *.
  assert (Hdx : dx = 24%Z) by lia.
  assert (Hdy : (dy <= 24)%Z) by lia.
  assert (H1 : (2 ^ dy <= 2 ^ 24)%Z) by (apply Z.pow_le_mono_r; lia).
  assert (H2 : (2 ^ 1 <= 2 ^ (ex - ey))%Z) by (apply Z.pow_le_mono_r; lia).
  rewrite Hdx in Lx. change (2 ^ (24 - 1))%Z with 8388608%Z in Lx.
  change (2 ^ 24)%Z with 16777216%Z in H1. change (2 ^ 1)%Z with 2%Z in H2.
  nia.
Qed.

Lemma shr_1_nonneg (mrs : shr_record) :
  (0 <= shr_m mrs)%Z -> (0 <= shr_m (shr_1 mrs))%Z.
Proof.
  destruct mrs as [m r s]. cbn [shr_m].
  destruct m as [|[p|p|]|[p|p|]]; cbn; lia.
Qed.

Lemma iter_shr_1_nonneg (p : positive) (mrs : shr_record) :
  (0 <= shr_m mrs)%Z -> (0 <= shr_m (iter_pos shr_1 p mrs))%Z.
Proof.
  revert mrs. induction p as [p IH|p IH|]; intros mrs H; cbn [iter_pos].
  - apply IH, IH, shr_1_nonneg, H.
  - apply IH, IH, H.
  - apply shr_1_nonneg, H.
Qed.

Lemma shr_fexp_nonneg (m e : Z) (l : location) :
  (0 <= m)%Z -> (0 <= shr_m (fst (shr_fexp prec emax m e l)))%Z.
Proof.
  intros H. unfold shr_fexp, shr.
  assert (H0 : (0 <= shr_m (shr_record_of_loc m l))%Z)
    by (destruct l as [|[]]; exact H).
  destruct (_ - e)%Z; cbn [fst]; try exact H0.
  apply iter_shr_1_nonneg, H0.
Qed.

Lemma round_nearest_even_nonneg (m : Z) (l : location) :
  (0 <= m)%Z -> (0 <= round_nearest_even m l)%Z.
Proof.
  intros H. destruct l as [|[]]; cbn; try lia. destruct (Z.even m); lia.
Qed.

(** rounding a non-negative mantissa with the sign bit clear gives +0, a
    positive number or +infinity, never a NaN and never a negative *)
Lemma binary_round_aux_nonneg (m e : Z) (l : location) :
  (0 <= m)%Z -> fle f0 (binary_round_aux prec emax false m e l) = true.
Proof.
  intros H. unfold binary_round_aux.
  pose proof (shr_fexp_nonneg m e l H) as H1.
  destruct (shr_fexp prec emax m e l) as [mrs' e']. cbn [fst] in H1.
  pose proof (shr_fexp_nonneg _ e' loc_Exact
                (round_nearest_even_nonneg _ (loc_of_shr_record mrs') H1)) as H2.
  destruct (shr_fexp prec emax _ e' loc_Exact) as [mrs'' e'']. cbn [fst] in H2.
  destruct (shr_m mrs'') as [|p|p]; [reflexivity| |lia].
  destruct (_ <=? _); reflexivity.
Qed.

Lemma binary_normalize_nonneg (m e : Z) :
  (0 <= m)%Z -> fle f0 (binary_normalize prec emax m e false) = true.
Proof.
  intros H. destruct m as [|p|p]; [reflexivity| |lia].
  unfold binary_normalize, binary_round.
  destruct (shl_align _ _ _) as [mz ez].
  apply binary_round_aux_nonneg. lia.
Qed.
(** x - y is never negative when y <= x, for canonical x and y with y
    finite (infinity - infinity is a NaN) *)
Lemma fsub_nonneg (x y : float) :
  valid x = true -> valid y = true -> is_finite y = true ->
  fle y x = true -> fle f0 (fsub x y) = true.
Proof.
  destruct y as [sy|sy| |sy my ey]; try discriminate;
    destruct x as [sx|sx| |sx mx ex]; try discriminate; intros Hvx Hvy _ Hle.
  - destruct sx, sy; reflexivity.
  - destruct sx; [discriminate|reflexivity].
  - destruct sx; [discriminate|]. exact Hle.
  - destruct sy; [reflexivity|discriminate].
  - destruct sx; [discriminate|reflexivity].
  - unfold valid, valid_binary, bounded in Hvx, Hvy.
    apply andb_prop in Hvx, Hvy. destruct Hvx as [Hcx _], Hvy as [Hcy _].
    unfold fsub, SFsub. apply binary_normalize_nonneg.
    rewrite !shl_align_value by lia.
    unfold fle, SFleb, SFcompare in Hle.
    change (Pos.compare_cont Eq my mx) with (Pos.compare my mx) in Hle.
    pose proof (Z.compare_spec ey ex) as Se.
    pose proof (Pos.compare_spec my mx) as Sm.
    assert (Pm : (0 < Z.pos mx * 2 ^ (ex - Z.min ex ey))%Z)
      by (apply Z.mul_pos_pos; [lia | apply Z.pow_pos_nonneg; lia]).
    assert (Py : (0 < Z.pos my * 2 ^ (ey - Z.min ex ey))%Z)
      by (apply Z.mul_pos_pos; [lia | apply Z.pow_pos_nonneg; lia]).
    destruct sx, sy; cbn [cond_Zopp]; try discriminate; try lia.
    + (* both negative: the exponent of y is not below that of x *)
      destruct Se as [Ee | Ee | Ee]; try discriminate.
      * subst ey. rewrite Z.min_id, Z.sub_diag, !Z.mul_1_r in *.
        destruct Sm as [Em | Em | Em]; try discriminate; lia.
      * rewrite Z.min_l, Z.sub_diag, Z.mul_1_r by lia.
        pose proof (canonical_exponent_order my mx ey ex Hcy Hcx Ee). lia.
    + (* both positive: the exponent of y is not above that of x *)
      destruct Se as [Ee | Ee | Ee]; try discriminate.
      * subst ey. rewrite Z.min_id, Z.sub_diag, !Z.mul_1_r in *.
        destruct Sm as [Em | Em | Em]; try discriminate; lia.
      * rewrite Z.min_r, Z.sub_diag, Z.mul_1_r by lia.
        pose proof (canonical_exponent_order mx my ex ey Hcx Hcy Ee). lia.
Qed.

(** ** The derivative terms across a setpoint jump (C8) *)

(** C8 as stated fails for a derivative gain that is not zero but nearly
    zero: with the gain 2^-20 and the error going from 0 to 1 over one
    second, the derivative term of the error overload is 0, not a kick. *)
Lemma small_gain_gives_no_kick :
  let w := construct_gains f1 f0 (of_ratio 1 1048576) f1 f0 (of_ratio 2 10) [] in
  feq (D_Gain (self w)) f0 = false /\
  valid_DeltaTime f1 = true /\
  GetPreviousError (self w) = f0 /\
  feq f1 (GetPreviousError (self w)) = false /\
  error_term w f1 f1 = f0.
Proof. vm_compute. repeat split. Qed.

(** C8, amended: for a DeltaTime that is positive and not nearly zero,
    (1) when the measured value equals the stored previous input and is
    finite, and the derivative gain is finite, the derivative term of the
    setpoint/measurement calculation is a zero, so adding it to an output
    leaves a value equal to that output; (2) when the derivative gain is
    not nearly zero, the derivative term of the error calculation is
    D_Gain * ((Error - previous error) / DeltaTime); (3) on a default
    controller with derivative gain 1 whose setpoint jumps from 0 to 1 with
    the measurement held at 0, the first term equals 0 and the second is 1. *)
Theorem derivative_terms_across_jump :
  (forall (w : World) (c dt o : float),
     valid_DeltaTime dt = true ->
     feq c (GetPreviousInput (self w)) = true ->
     is_finite c = true ->
     valid (D_Gain (self w)) = true ->
     is_finite (D_Gain (self w)) = true ->
     is_zero (kick_free_term w c dt) = true /\
     (is_nan o = false -> feq (fadd o (kick_free_term w c dt)) o = true)) /\
  (forall (w : World) (e dt : float),
     valid_DeltaTime dt = true ->
     IsNearlyZero (D_Gain (self w)) = false ->
     error_term w e dt =
       fmul (D_Gain (self w)) (fdiv (fsub e (GetPreviousError (self w))) dt)) /\
  (let w := construct_gains f1 f0 f1 f1 f0 (of_ratio 2 10) [] in
   GetPreviousInput (self w) = f0 /\ GetPreviousError (self w) = f0 /\
   feq (kick_free_term w f0 f1) f0 = true /\
   error_term w (fsub f1 f0) f1 = f1).
Proof.
  split; [|split].
  - intros w c dt o Hdt Hc Hfc HvD HfD.
    unfold valid_DeltaTime in Hdt. apply andb_prop in Hdt. destruct Hdt as [Hpos Hnz].
    assert (Hz : is_zero (kick_free_term w c dt) = true).
    { unfold kick_free_term, result.
      rewrite DifferentialError_PreventDerivativeKick_run. cbn [fst].
      unfold derivative_of_input.
      destruct (_ || _); [reflexivity|].
      apply fmul_zero_is_zero.
      - rewrite (fmul_fm1 _ HvD HfD), is_finite_fneg. exact HfD.
      - apply fdiv_zero_is_zero; [|exact Hpos].
        apply fsub_equal_is_zero; assumption. }
    split; [exact Hz|]. intros Ho. apply fadd_zero_feq; assumption.
  - intros w e dt Hdt HD.
    unfold valid_DeltaTime in Hdt. apply andb_prop in Hdt. destruct Hdt as [Hpos Hnz].
    apply negb_true_iff in Hnz.
    assert (Hneg : flt dt f0 = false) by (apply fge_not_flt; unfold fge;
      unfold fgt, SFltb in Hpos; unfold fle, SFleb;
      destruct (SFcompare f0 dt) as [[]|]; try discriminate; reflexivity).
    unfold error_term, result. rewrite DifferentialError_run. cbn [fst].
    unfold derivative_of_error. rewrite Hneg, Hnz, HD. reflexivity.
  - vm_compute. repeat split.
Qed.

Lemma derivative_terms_across_jump_witness :
  let w := after (CalculateNewValue (of_int 2) (of_int 3) f1)
             (construct_gains f1 f0 (of_int 4) (of_int 100) (of_int (-100)) f0 []) in
  valid_DeltaTime (of_ratio 1 2) = true /\
  feq (of_int 3) (GetPreviousInput (self w)) = true /\
  is_finite (of_int 3) = true /\
  valid (D_Gain (self w)) = true /\
  is_finite (D_Gain (self w)) = true /\
  IsNearlyZero (D_Gain (self w)) = false /\
  is_zero (kick_free_term w (of_int 3) (of_ratio 1 2)) = true /\
  error_term w (of_int 5) (of_ratio 1 2) =
    fmul (of_int 4) (fdiv (fsub (of_int 5) (of_int (-1))) (of_ratio 1 2)) /\
  error_term w (of_int 5) (of_ratio 1 2) = of_int 48.
Proof.
  intros w.
  assert (H1 : valid_DeltaTime (of_ratio 1 2) = true) by (vm_compute; reflexivity).
  assert (H2 : feq (of_int 3) (GetPreviousInput (self w)) = true) by (vm_compute; reflexivity).
  assert (H3 : is_finite (of_int 3) = true) by (vm_compute; reflexivity).
  assert (H4 : valid (D_Gain (self w)) = true) by (vm_compute; reflexivity).
  assert (H5 : is_finite (D_Gain (self w)) = true) by (vm_compute; reflexivity).
  assert (H6 : IsNearlyZero (D_Gain (self w)) = false) by (vm_compute; reflexivity).
  destruct derivative_terms_across_jump as (Hfree & Hkick & _).
  destruct (Hfree w (of_int 3) (of_ratio 1 2) f0 H1 H2 H3 H4 H5) as [Hz _].
  pose proof (Hkick w (of_int 5) (of_ratio 1 2) H1 H6) as Ek.
  split; [exact H1|]. split; [exact H2|]. split; [exact H3|].
  split; [exact H4|]. split; [exact H5|]. split; [exact H6|].
  split; [exact Hz|]. split.
  - rewrite Ek. vm_compute. reflexivity.
  - rewrite Ek. vm_compute. reflexivity.
Defined.

(** ** The tick buffer across a calculation *)



(** ** Rounding gives canonical binary32 numbers *)

Lemma fexp_unfold (k : Z) : fexp prec emax k = Z.max (k - 24) (-149).
Proof. reflexivity. Qed.

Lemma Zdigits2_nonneg (m : Z) : (0 <= Zdigits2 m)%Z.
Proof. destruct m; cbn; lia. Qed.

Lemma Zdigits2_pos (m : Z) : (0 < m)%Z -> (0 < Zdigits2 m)%Z.
Proof. destruct m; cbn; lia. Qed.

Lemma Zdigits2_zero_inv (m : Z) : (0 <= m)%Z -> Zdigits2 m = 0%Z -> m = 0%Z.
Proof. destruct m; cbn; lia. Qed.

Lemma Zdigits2_bounds (m : Z) :
  (0 < m)%Z -> (2 ^ (Zdigits2 m - 1) <= m < 2 ^ Zdigits2 m)%Z.
Proof.
  destruct m as [|p|p]; try lia. intros _. cbn [Zdigits2]. apply digits2_pos_bounds.
Qed.

Lemma Zdigits2_unique (m k : Z) :
  (0 < m)%Z -> (2 ^ (k - 1) <= m < 2 ^ k)%Z -> Zdigits2 m = k.
Proof.
  intros Hm [Hl Hu]. pose proof (Zdigits2_bounds m Hm) as [Dl Du].
  pose proof (Zdigits2_pos m Hm) as Dp.
  assert (Hk : (0 < k)%Z).
  { destruct (Z.lt_ge_cases 0 k) as [|Hk]; [assumption|].
    destruct (Z.eq_dec k 0) as [->|]; [cbn in Hu; lia|].
    rewrite Z.pow_neg_r in Hu by lia. lia. }
  destruct (Z.lt_trichotomy (Zdigits2 m) k) as [H | [H | H]]; [|assumption|].
  - assert (2 ^ Zdigits2 m <= 2 ^ (k - 1))%Z by (apply Z.pow_le_mono_r; lia). lia.
  - assert (2 ^ k <= 2 ^ (Zdigits2 m - 1))%Z by (apply Z.pow_le_mono_r; lia). lia.
Qed.

Lemma Zdigits2_succ (m : Z) :
  (0 <= m)%Z ->
  Zdigits2 (m + 1) = Zdigits2 m \/ Zdigits2 (m + 1) = (Zdigits2 m + 1)%Z.
Proof.
  intros Hm. destruct (Z.eq_dec m 0) as [->|Hz]; [right; reflexivity|].
  assert (Hp : (0 < m)%Z) by lia.
  pose proof (Zdigits2_bounds m Hp) as [Dl Du].
  pose proof (Zdigits2_pos m Hp) as Dp.
  destruct (Z.eq_dec (m + 1) (2 ^ Zdigits2 m)) as [E | E].
  - right. apply Zdigits2_unique; [lia|].
    replace (Zdigits2 m + 1 - 1)%Z with (Zdigits2 m) by lia.
    rewrite Z.pow_add_r by lia. lia.
  - left. apply Zdigits2_unique; lia.
Qed.

Lemma iter_pos_iter {A : Type} (f : A -> A) (p : positive) (x : A) :
  iter_pos f p x = Pos.iter f x p.
Proof.
  revert x. induction p as [p IH|p IH|]; intros x; cbn [iter_pos Pos.iter].
  - rewrite !IH, !Pos.iter_swap. reflexivity.
  - rewrite !IH. reflexivity.
  - reflexivity.
Qed.

Lemma shr_1_digits (mrs : shr_record) :
  (0 <= shr_m mrs)%Z ->
  Zdigits2 (shr_m (shr_1 mrs)) = Z.max 0 (Zdigits2 (shr_m mrs) - 1).
Proof.
  destruct mrs as [m r s]. cbn [shr_m].
  destruct m as [|[p|p|]|[p|p|]]; cbn [shr_1 shr_m Zdigits2 digits2_pos]; intros H;
    rewrite ?Pos2Z.inj_succ; lia.
Qed.

Lemma iter_shr_1_digits (n : positive) (mrs : shr_record) :
  (0 <= shr_m mrs)%Z ->
  Zdigits2 (shr_m (iter_pos shr_1 n mrs)) = Z.max 0 (Zdigits2 (shr_m mrs) - Z.pos n).
Proof.
  intros H. rewrite iter_pos_iter.
  induction n as [|n IH] using Pos.peano_ind.
  - cbn [Pos.iter]. apply shr_1_digits, H.
  - rewrite Pos.iter_succ, shr_1_digits.
    + rewrite IH. pose proof (Zdigits2_nonneg (shr_m mrs)). lia.
    + rewrite <- iter_pos_iter. apply iter_shr_1_nonneg, H.
Qed.

Lemma shr_record_of_loc_m (m : Z) (l : location) : shr_m (shr_record_of_loc m l) = m.
Proof. destruct l as [|[]]; reflexivity. Qed.

(** what [shr_fexp] leaves: the mantissa is shifted right by the distance
    to the canonical exponent, when that distance is positive *)
Lemma shr_fexp_spec (m e : Z) (l : location) :
  (0 <= m)%Z ->
  let n := (fexp prec emax (Zdigits2 m + e) - e)%Z in
  let r := shr_fexp prec emax m e l in
  (0 <= shr_m (fst r))%Z /\
  ((n <= 0)%Z -> shr_m (fst r) = m /\ snd r = e) /\
  ((0 < n)%Z ->
   Zdigits2 (shr_m (fst r)) = Z.max 0 (Zdigits2 m - n) /\ snd r = (e + n)%Z).
Proof.
  intros Hm n r. split; [apply shr_fexp_nonneg, Hm|].
  subst r. unfold shr_fexp, shr. fold n.
  destruct n as [|p|p]; cbn [fst snd].
  - split; [intros _; split; [apply shr_record_of_loc_m|reflexivity]|lia].
  - split; [lia|]. intros _. split; [|reflexivity].
    rewrite iter_shr_1_digits by (rewrite shr_record_of_loc_m; exact Hm).
    rewrite shr_record_of_loc_m. reflexivity.
  - split; [intros _; split; [apply shr_record_of_loc_m|reflexivity]|lia].
Qed.

Lemma round_nearest_even_digits (m : Z) (l : location) :
  (0 <= m)%Z ->
  (0 <= round_nearest_even m l)%Z /\
  (m <= round_nearest_even m l)%Z /\
  (Zdigits2 (round_nearest_even m l) = Zdigits2 m \/
   Zdigits2 (round_nearest_even m l) = (Zdigits2 m + 1)%Z).
Proof.
  intros Hm. pose proof (Zdigits2_succ m Hm) as Hs.
  destruct l as [|[]]; cbn [round_nearest_even]; try (repeat split; auto; lia).
  destruct (Z.even m); repeat split; auto; lia.
Qed.

Lemma Zdigits2_pos_iff (m : Z) : (0 <= m)%Z -> ((0 < m)%Z <-> (0 < Zdigits2 m)%Z).
Proof. destruct m; cbn; lia. Qed.

(** after the first shift the mantissa is canonical for its exponent, or
    it has been shifted out entirely at the smallest exponent *)
Lemma shr_fexp_canonical (m e : Z) (l : location) :
  (0 <= m)%Z ->
  (e <= fexp prec emax (Zdigits2 m + e))%Z ->
  let r := shr_fexp prec emax m e l in
  (0 <= shr_m (fst r))%Z /\
  ((shr_m (fst r) = 0%Z /\ snd r = (-149)%Z /\
    (Zdigits2 m <= fexp prec emax (Zdigits2 m + e) - e)%Z) \/
   ((0 < shr_m (fst r))%Z /\
    fexp prec emax (Zdigits2 (shr_m (fst r)) + snd r) = snd r)).
Proof.
  intros Hm Hpre r.
  pose proof (shr_fexp_spec m e l Hm) as S1. cbn zeta in S1. fold r in S1.
  destruct S1 as (N1 & Z1 & P1). split; [exact N1|].
  pose proof (Zdigits2_pos_iff m Hm) as I0.
  pose proof (Zdigits2_pos_iff (shr_m (fst r)) N1) as I1.
  pose proof (Zdigits2_nonneg m) as G0.
  rewrite !fexp_unfold in *.
  destruct (Z_le_gt_dec (Z.max (Zdigits2 m + e - 24) (-149) - e) 0) as [Hn | Hn].
  - destruct (Z1 Hn) as [E1 E2]. rewrite E1, E2 in *. clear Z1 P1 E1 E2 N1.
    destruct (Z.eq_dec m 0) as [-> | Hz].
    + left. cbn [Zdigits2] in *. lia.
    + right. lia.
  - destruct (P1 ltac:(lia)) as [E1 E2]. rewrite E2 in *. clear Z1 P1.
    generalize dependent (Zdigits2 (shr_m (fst r))). intros d1 I1 E1.
    generalize dependent (Zdigits2 m). intros d Hpre I0 G0 Hn E1.
    destruct (Z_le_gt_dec d1 0) as [Hd | Hd].
    + left. lia.
    + right. lia.
Qed.

(** rounding up by at most one unit and shifting again keeps the mantissa
    canonical *)
Lemma shr_fexp_round_canonical (m1 m2 e1 : Z) :
  (0 <= m1)%Z -> (m1 <= m2)%Z ->
  (Zdigits2 m2 = Zdigits2 m1 \/ Zdigits2 m2 = (Zdigits2 m1 + 1)%Z) ->
  ((m1 = 0%Z /\ e1 = (-149)%Z) \/
   ((0 < m1)%Z /\ fexp prec emax (Zdigits2 m1 + e1) = e1)) ->
  let r := shr_fexp prec emax m2 e1 loc_Exact in
  (0 <= shr_m (fst r))%Z /\
  ((shr_m (fst r) = 0%Z /\ m1 = 0%Z) \/
   ((0 < shr_m (fst r))%Z /\
    fexp prec emax (Zdigits2 (shr_m (fst r)) + snd r) = snd r)).
Proof.
  intros N1 L2 D2 K r.
  assert (N2 : (0 <= m2)%Z) by lia.
  pose proof (shr_fexp_spec m2 e1 loc_Exact N2) as S2. cbn zeta in S2. fold r in S2.
  destruct S2 as (N3 & Z3 & P3). split; [exact N3|].
  pose proof (Zdigits2_pos_iff m1 N1) as I1.
  pose proof (Zdigits2_pos_iff m2 N2) as I2.
  pose proof (Zdigits2_pos_iff (shr_m (fst r)) N3) as I3.
  rewrite !fexp_unfold in *.
  destruct (Z_le_gt_dec (Z.max (Zdigits2 m2 + e1 - 24) (-149) - e1) 0) as [Hn | Hn].
  - destruct (Z3 Hn) as [E1 E2]. rewrite E1, E2 in *. clear Z3 P3 E1 E2 N3 I3.
    assert (D1 : m1 = 0%Z -> Zdigits2 m1 = 0%Z) by (intros ->; reflexivity).
    generalize dependent (Zdigits2 m1). intros d1 D2 K I1 D1.
    generalize dependent (Zdigits2 m2). intros d2 I2 Hn D2.
    destruct (Z.eq_dec m2 0) as [Hz | Hz]; [left; lia|right].
    split; [lia|].
    destruct K as [[K1 K2] | [K1 K2]]; [|lia].
    specialize (D1 K1). lia.
  - destruct (P3 ltac:(lia)) as [E1 E2]. rewrite E2 in *. clear Z3 P3 E2.
    assert (D1 : m1 = 0%Z -> Zdigits2 m1 = 0%Z) by (intros ->; reflexivity).
    generalize dependent (Zdigits2 (shr_m (fst r))). intros d3 I3 E1.
    generalize dependent (Zdigits2 m1). intros d1 D2 K I1 D1.
    generalize dependent (Zdigits2 m2). intros d2 I2 Hn D2 E1.
    destruct K as [[K1 K2] | [K1 K2]].
    + specialize (D1 K1). lia.
    + right. lia.
Qed.

(** Rounding a non-negative mantissa whose exponent is not above the
    canonical one gives a signed zero (only when the whole mantissa was
    shifted out), an infinity, or a canonical finite number within the
    exponent range. *)
Lemma binary_round_aux_spec (s : bool) (m e : Z) (l : location) :
  (0 <= m)%Z ->
  (e <= fexp prec emax (Zdigits2 m + e))%Z ->
  let r := binary_round_aux prec emax s m e l in
  (r = S754_zero s /\ (Zdigits2 m <= fexp prec emax (Zdigits2 m + e) - e)%Z) \/
  r = S754_infinity s \/
  (exists m3 e3, r = S754_finite s m3 e3 /\ bounded prec emax m3 e3 = true).
Proof.
  intros Hm Hpre r. subst r. unfold binary_round_aux.
  pose proof (shr_fexp_canonical m e l Hm Hpre) as S1. cbn zeta in S1.
  destruct (shr_fexp prec emax m e l) as [mrs1 e1]. cbn [fst snd] in S1.
  destruct S1 as (N1 & K1).
  pose proof (round_nearest_even_digits (shr_m mrs1) (loc_of_shr_record mrs1) N1)
    as (N2 & L2 & D2).
  assert (K1' : (shr_m mrs1 = 0%Z /\ e1 = (-149)%Z) \/
                ((0 < shr_m mrs1)%Z /\
                 fexp prec emax (Zdigits2 (shr_m mrs1) + e1) = e1))
    by (destruct K1 as [(A & B & _) | K1]; [left; auto | right; exact K1]).
  pose proof (shr_fexp_round_canonical (shr_m mrs1) _ e1 N1 L2 D2 K1') as S2.
  cbn zeta in S2.
  destruct (shr_fexp prec emax _ e1 loc_Exact) as [mrs2 e2]. cbn [fst snd] in S2.
  destruct S2 as (N3 & K3).
  destruct (shr_m mrs2) as [|p|p] eqn:Em3.
  - left. split; [reflexivity|].
    destruct K3 as [[_ Z1] | [K3 _]]; [|lia].
    destruct K1 as [(_ & _ & H) | [H _]]; [exact H|lia].
  - right. destruct (e2 <=? emax - prec)%Z eqn:Eb; [right|left; reflexivity].
    exists p, e2. split; [reflexivity|].
    unfold bounded, canonical_mantissa. rewrite Eb, andb_true_r.
    apply Z.eqb_eq.
    destruct K3 as [[K3 _] | [_ K3]]; [discriminate|exact K3].
  - lia.
Qed.

Lemma iter_xO_digits (d m : positive) :
  Z.pos (digits2_pos (Pos.iter xO m d)) = (Z.pos (digits2_pos m) + Z.pos d)%Z.
Proof.
  induction d as [|d IH] using Pos.peano_ind.
  - cbn. lia.
  - rewrite Pos.iter_succ. cbn [digits2_pos]. rewrite Pos2Z.inj_succ, IH. lia.
Qed.

(** aligning to the canonical exponent leaves the exponent at or below the
    canonical one and keeps the position of the leading bit *)
Lemma shl_align_fexp (m : positive) (e : Z) :
  let r := shl_align m e (fexp prec emax (Z.pos (digits2_pos m) + e)) in
  (snd r <= fexp prec emax (Zdigits2 (Z.pos (fst r)) + snd r))%Z /\
  (Zdigits2 (Z.pos (fst r)) + snd r = Z.pos (digits2_pos m) + e)%Z /\
  (snd r <= e)%Z.
Proof.
  cbn zeta. unfold shl_align.
  destruct (fexp prec emax (Z.pos (digits2_pos m) + e) - e)%Z as [|d|d] eqn:E;
    cbn [fst snd Zdigits2].
  - lia.
  - lia.
  - rewrite iter_xO_digits.
    replace (Z.pos (digits2_pos m) + Z.pos d +
             fexp prec emax (Z.pos (digits2_pos m) + e))%Z
      with (Z.pos (digits2_pos m) + e)%Z by lia.
    lia.
Qed.

Lemma binary_round_spec (s : bool) (m : positive) (e : Z) :
  let r := binary_round prec emax s m e in
  (r = S754_zero s /\ (e < -149)%Z) \/
  r = S754_infinity s \/
  (exists m3 e3, r = S754_finite s m3 e3 /\ bounded prec emax m3 e3 = true).
Proof.
  cbn zeta. unfold binary_round.
  pose proof (shl_align_fexp m e) as (A & B & C). cbn zeta in A, B, C.
  assert (D : snd (shl_align m e (fexp prec emax (Z.pos (digits2_pos m) + e))) =
              fexp prec emax (Z.pos (digits2_pos m) + e) \/
              shl_align m e (fexp prec emax (Z.pos (digits2_pos m) + e)) = (m, e)).
  { unfold shl_align. destruct (_ - e)%Z; auto. }
  destruct (shl_align m e (fexp prec emax (Z.pos (digits2_pos m) + e))) as [mz ez].
  cbn [fst snd] in A, B, C, D.
  destruct (binary_round_aux_spec s (Z.pos mz) ez loc_Exact ltac:(lia) A)
    as [[E H] | H]; [left|right; exact H].
  split; [exact E|]. rewrite B in H. rewrite fexp_unfold in *.
  cbn [Zdigits2] in B, H.
  pose proof (Pos2Z.is_pos (digits2_pos mz)).
  pose proof (Pos2Z.is_pos (digits2_pos m)).
  destruct D as [D | D]; [lia|]. injection D as -> ->. lia.
Qed.

Lemma binary_normalize_valid (m e : Z) (szero : bool) :
  valid (binary_normalize prec emax m e szero) = true.
Proof.
  destruct m as [|p|p]; cbn [binary_normalize]; [reflexivity| |].
  - destruct (binary_round_spec false p e) as [[-> _] | [-> | (m3 & e3 & -> & H)]];
      [reflexivity|reflexivity|exact H].
  - destruct (binary_round_spec true p e) as [[-> _] | [-> | (m3 & e3 & -> & H)]];
      [reflexivity|reflexivity|exact H].
Qed.

(** the sum and the difference of canonical binary32 numbers, and the
    conversion of an integer, are canonical binary32 numbers *)
Lemma fadd_valid (x y : float) :
  valid x = true -> valid y = true -> valid (fadd x y) = true.
Proof.
  intros Hx Hy. unfold fadd, SFadd.
  destruct x as [sx|sx| |sx mx ex], y as [sy|sy| |sy my ey];
    try reflexivity; try assumption;
    try (destruct sx, sy; reflexivity).
  apply binary_normalize_valid.
Qed.

Lemma fsub_valid (x y : float) :
  valid x = true -> valid y = true -> valid (fsub x y) = true.
Proof.
  intros Hx Hy. unfold fsub, SFsub.
  destruct x as [sx|sx| |sx mx ex], y as [sy|sy| |sy my ey];
    try reflexivity; try assumption;
    try (destruct sx, sy; reflexivity).
  apply binary_normalize_valid.
Qed.

Lemma of_int_valid (n : Z) : valid (of_int n) = true.
Proof. apply binary_normalize_valid. Qed.

(** (float)n is a positive number or +infinity for n > 0 *)
Lemma of_int_positive (n : Z) :
  (0 < n)%Z ->
  of_int n = S754_infinity false \/ exists m e, of_int n = S754_finite false m e.
Proof.
  intros Hn. destruct n as [|p|p]; try lia. unfold of_int. cbn [binary_normalize].
  destruct (binary_round_spec false p 0) as [[_ H] | [-> | (m3 & e3 & -> & _)]];
    [lia|left; reflexivity|right; eauto].
Qed.

(** ** Sums and differences of elapsed times *)

Lemma fle_f0_inv (x : float) :
  fle f0 x = true ->
  (exists s, x = S754_zero s) \/ x = S754_infinity false \/
  (exists m e, x = S754_finite false m e).
Proof.
  destruct x as [s|[]| |[] m e]; try discriminate; intros _; eauto.
Qed.

Lemma fadd_nonneg (x y : float) :
  fle f0 x = true -> fle f0 y = true -> fle f0 (fadd x y) = true.
Proof.
  intros Hx Hy.
  destruct (fle_f0_inv x Hx) as [[sx ->] | [-> | (mx & ex & ->)]];
    destruct (fle_f0_inv y Hy) as [[sy ->] | [-> | (my & ey & ->)]];
    try reflexivity; try (destruct sx; reflexivity); try (destruct sy; reflexivity).
  - destruct sx, sy; reflexivity.
  - unfold fadd, SFadd. apply binary_normalize_nonneg. cbn [cond_Zopp]. lia.
Qed.

Lemma AccumulateBuffer_nonneg (b dt size : float) :
  valid b = true -> fle f0 b = true ->
  is_elapsed_time dt = true ->
  valid size = true -> is_finite size = true ->
  valid (snd (AccumulateBuffer b dt size)) = true /\
  fle f0 (snd (AccumulateBuffer b dt size)) = true.
Proof.
  intros Hvb Hb Hdt Hvs Hfs.
  unfold is_elapsed_time in Hdt. apply andb_prop in Hdt. destruct Hdt as [Hdt Hd0].
  apply andb_prop in Hdt. destruct Hdt as [Hvd Hfd].
  pose proof (fadd_valid b dt Hvb Hvd) as Hv.
  pose proof (fadd_nonneg b dt Hb Hd0) as Hn.
  unfold AccumulateBuffer. destruct (fge (fadd b dt) size) eqn:G; cbn [snd].
  - split; [apply fsub_valid; assumption|apply fsub_nonneg; assumption].
  - split; assumption.
Qed.


(** ** Rounding never passes a binary32 above the exact value *)

Lemma fle_flt_trans (x y z : float) :
  fle x y = true -> flt y z = true -> flt x z = true.
Proof.
  unfold fle, flt, SFleb, SFltb, SFcompare.
  destruct x as [[]|[]| |[] mx ex], y as [[]|[]| |[] my ey], z as [[]|[]| |[] mz ez];
    try discriminate; try reflexivity;
    change (Pos.compare_cont Eq) with Pos.compare;
    repeat match goal with
           | |- context [Z.compare ?a ?b] => destruct (Z.compare_spec a b)
           | |- context [Pos.compare ?a ?b] => destruct (Pos.compare_spec a b)
           end;
    cbn [CompOpp]; try discriminate; try reflexivity; intros; exfalso; lia.
Qed.


Lemma canonical_exponent_min (m : positive) (e : Z) :
  canonical_mantissa prec emax m e = true -> (-149 <= e)%Z.
Proof.
  unfold canonical_mantissa. rewrite fexp_unfold. intros H.
  apply Z.eqb_eq in H. lia.
Qed.

Lemma pow2_pos (k : Z) : (0 <= k)%Z -> (0 < 2 ^ k)%Z.
Proof. intros H. apply Z.pow_pos_nonneg; lia. Qed.

(** moving a factor 2^(e' - e) between the mantissa and the unit *)
Lemma ulps_shift (e e' : Z) :
  (-149 <= e)%Z -> (e <= e')%Z ->
  (2 ^ (e' + 149) = 2 ^ (e' - e) * 2 ^ (e + 149))%Z.
Proof.
  intros H1 H2. rewrite <- Z.pow_add_r by lia. f_equal. lia.
Qed.

(** of two canonical mantissas, the one with the smaller exponent stands
    for the smaller number *)
Lemma in_ulps_exponent_order (mx my : positive) (ex ey : Z) :
  canonical_mantissa prec emax mx ex = true ->
  canonical_mantissa prec emax my ey = true ->
  (ex < ey)%Z ->
  (Z.pos mx * 2 ^ (ex + 149) < Z.pos my * 2 ^ (ey + 149))%Z.
Proof.
  intros Hx Hy Hlt.
  pose proof (canonical_exponent_min _ _ Hx) as Lx.
  pose proof (canonical_exponent_order my mx ey ex Hy Hx Hlt) as H.
  rewrite (ulps_shift ex ey) by lia.
  pose proof (pow2_pos (ex + 149) ltac:(lia)) as Hp.
  rewrite Z.mul_assoc. apply Z.mul_lt_mono_pos_r; assumption.
Qed.

Lemma in_ulps_positive (m : positive) (e : Z) :
  (-149 <= e)%Z -> (0 < Z.pos m * 2 ^ (e + 149))%Z.
Proof.
  intros H. apply Z.mul_pos_pos; [lia|apply pow2_pos; lia].
Qed.

(** x <= y on positive canonical binary32 numbers is the order of the
    numbers they stand for *)
Lemma fle_in_ulps_finite (mx my : positive) (ex ey : Z) :
  canonical_mantissa prec emax mx ex = true ->
  canonical_mantissa prec emax my ey = true ->
  fle (S754_finite false mx ex) (S754_finite false my ey) = true <->
  (Z.pos mx * 2 ^ (ex + 149) <= Z.pos my * 2 ^ (ey + 149))%Z.
Proof.
  intros Hx Hy.
  pose proof (canonical_exponent_min _ _ Hx) as Lx.
  unfold fle, SFleb, SFcompare.
  change (Pos.compare_cont Eq mx my) with (Pos.compare mx my).
  destruct (Z.compare_spec ex ey) as [E | E | E].
  - subst ey. pose proof (pow2_pos (ex + 149) ltac:(lia)) as Hp.
    rewrite <- Z.mul_le_mono_pos_r by exact Hp.
    destruct (Pos.compare_spec mx my) as [Em | Em | Em]; split; intros H;
      try reflexivity; try discriminate; lia.
  - pose proof (in_ulps_exponent_order mx my ex ey Hx Hy E).
    split; intros _; [lia|reflexivity].
  - pose proof (in_ulps_exponent_order my mx ey ex Hy Hx E).
    split; intros H0; [discriminate|lia].
Qed.

(** a canonical finite binary32 that is not negative *)
Lemma nonneg_finite_inv (x : float) :
  is_finite x = true -> fle f0 x = true ->
  (exists s, x = S754_zero s) \/ (exists m e, x = S754_finite false m e).
Proof.
  destruct x as [s|[]| |[] m e]; try discriminate; intros _ _; eauto.
Qed.

Lemma valid_finite_inv (s : bool) (m : positive) (e : Z) :
  valid (S754_finite s m e) = true ->
  canonical_mantissa prec emax m e = true /\ (-149 <= e <= 104)%Z.
Proof.
  unfold valid, valid_binary, bounded. intros H.
  apply andb_prop in H. destruct H as [Hc Hb]. split; [exact Hc|].
  pose proof (canonical_exponent_min _ _ Hc). apply Z.leb_le in Hb.
  change (emax - prec)%Z with 104%Z in Hb. lia.
Qed.

(** x <= y is the order of the numbers, for canonical finite binary32
    numbers that are not negative *)
Lemma fle_in_ulps (x y : float) :
  valid x = true -> valid y = true ->
  is_finite x = true -> is_finite y = true ->
  fle f0 x = true -> fle f0 y = true ->
  fle x y = true <-> (in_ulps x <= in_ulps y)%Z.
Proof.
  intros Vx Vy Fx Fy Nx Ny.
  destruct (nonneg_finite_inv x Fx Nx) as [[sx ->] | (mx & ex & ->)];
    destruct (nonneg_finite_inv y Fy Ny) as [[sy ->] | (my & ey & ->)];
    cbn [in_ulps cond_Zopp].
  - split; intros _; [lia|reflexivity].
  - destruct (valid_finite_inv _ _ _ Vy) as [_ Ly].
    pose proof (in_ulps_positive my ey ltac:(lia)).
    split; intros _; [lia|reflexivity].
  - destruct (valid_finite_inv _ _ _ Vx) as [_ Lx].
    pose proof (in_ulps_positive mx ex ltac:(lia)).
    split; intros H0; [discriminate|lia].
  - destruct (valid_finite_inv _ _ _ Vx) as [Cx _].
    destruct (valid_finite_inv _ _ _ Vy) as [Cy _].
    apply fle_in_ulps_finite; assumption.
Qed.

(** one right shift halves the mantissa, the bit shifted out going to
    the round bit and the old round bit to the sticky bit *)
Lemma shr_1_value (mrs : shr_record) :
  (0 <= shr_m mrs)%Z ->
  shr_m mrs = (2 * shr_m (shr_1 mrs) + (if shr_r (shr_1 mrs) then 1 else 0))%Z /\
  shr_s (shr_1 mrs) = shr_r mrs || shr_s mrs.
Proof.
  destruct mrs as [m r s]. cbn [shr_m shr_r shr_s].
  destruct m as [|[p|p|]|[p|p|]]; cbn; intros H; split; try reflexivity; lia.
Qed.

(** after k shifts of M the mantissa is M / 2^k rounded down, and the
    round and sticky bits are clear only when nothing was lost *)
Lemma iter_shr_1_value (n : positive) (M : Z) :
  (0 <= M)%Z ->
  let mrs := iter_pos shr_1 n {| shr_m := M; shr_r := false; shr_s := false |} in
  (shr_m mrs * 2 ^ Z.pos n <= M)%Z /\
  (shr_r mrs || shr_s mrs = true -> shr_m mrs * 2 ^ Z.pos n < M)%Z.
Proof.
  intros HM. cbn zeta. rewrite iter_pos_iter.
  induction n as [|n IH] using Pos.peano_ind.
  - cbn [Pos.iter].
    destruct (shr_1_value {| shr_m := M; shr_r := false; shr_s := false |} HM)
      as [E S]. cbn [shr_m shr_r shr_s orb] in E, S.
    change (2 ^ 1)%Z with 2%Z. rewrite S, orb_false_r.
    destruct (shr_r _); split; try discriminate; lia.
  - rewrite Pos.iter_succ.
    set (mrs := Pos.iter shr_1 {| shr_m := M; shr_r := false; shr_s := false |} n) in *.
    assert (N : (0 <= shr_m mrs)%Z)
      by (subst mrs; rewrite <- iter_pos_iter; apply iter_shr_1_nonneg; exact HM).
    destruct (shr_1_value mrs N) as [E S].
    destruct IH as [L I].
    rewrite Pos2Z.inj_succ, Z.pow_succ_r by lia.
    pose proof (pow2_pos (Z.pos n) ltac:(lia)) as Hp.
    set (P := (2 ^ Z.pos n)%Z) in *.
    set (m' := shr_m (shr_1 mrs)) in *.
    assert (Hm : (0 <= m')%Z) by (subst m'; apply shr_1_nonneg, N).
    assert (E' : (shr_m mrs * P = 2 * (m' * P) + (if shr_r (shr_1 mrs) then P else 0))%Z).
    { rewrite E. destruct (shr_r (shr_1 mrs)); lia. }
    rewrite S. split.
    + destruct (shr_r (shr_1 mrs)); lia.
    + intros H. destruct (shr_r (shr_1 mrs)); cbn [orb] in H.
      * lia.
      * specialize (I H). lia.
Qed.

Lemma loc_of_shr_record_exact (mrs : shr_record) :
  shr_r mrs || shr_s mrs = false -> loc_of_shr_record mrs = loc_Exact.
Proof. destruct mrs as [m [] []]; cbn; congruence. Qed.

(** the first shift of the rounding: the mantissa is divided by the power
    of two that takes the exponent to the canonical one, rounded down, and
    is exact unless the location says otherwise *)
Lemma shr_fexp_value (m e : Z) :
  (0 <= m)%Z ->
  let r := shr_fexp prec emax m e loc_Exact in
  (e <= snd r)%Z /\
  (shr_m (fst r) * 2 ^ (snd r - e) <= m)%Z /\
  (shr_m (fst r) * 2 ^ (snd r - e) < m \/
   loc_of_shr_record (fst r) = loc_Exact)%Z.
Proof.
  intros Hm. cbn zeta. unfold shr_fexp, shr. cbn [shr_record_of_loc].
  destruct (fexp prec emax (Zdigits2 m + e) - e)%Z as [|n|n]; cbn [fst snd shr_m].
  - rewrite Z.sub_diag. cbn. split; [lia|]. split; [lia|]. right. reflexivity.
  - replace (e + Z.pos n - e)%Z with (Z.pos n) by lia.
    destruct (iter_shr_1_value n m Hm) as [L I]. split; [lia|]. split; [exact L|].
    destruct (shr_r _ || shr_s _) eqn:B.
    + left. apply I. reflexivity.
    + right. apply loc_of_shr_record_exact, B.
  - rewrite Z.sub_diag. cbn. split; [lia|]. split; [lia|]. right. reflexivity.
Qed.

(** rounding to nearest adds at most one unit, and nothing to an exact
    mantissa *)
Lemma round_nearest_even_le (m : Z) (l : location) :
  (round_nearest_even m l <= m + 1)%Z /\
  (l = loc_Exact -> round_nearest_even m l = m).
Proof.
  destruct l as [|[]]; cbn [round_nearest_even]; split; try discriminate;
    try reflexivity; try lia.
  destruct (Z.even m); lia.
Qed.

Lemma fexp_mono (a b : Z) :
  (a <= b)%Z -> (fexp prec emax a <= fexp prec emax b)%Z.
Proof. rewrite !fexp_unfold. lia. Qed.

(** a number that does not exceed a binary32 has its leading bit no
    higher *)
Lemma leading_bit_le (mz ez : Z) (mF : positive) (eF : Z) :
  (0 < mz)%Z -> (-149 <= ez)%Z -> (-149 <= eF)%Z ->
  (mz * 2 ^ (ez + 149) <= Z.pos mF * 2 ^ (eF + 149))%Z ->
  (Zdigits2 mz + ez <= Z.pos (digits2_pos mF) + eF)%Z.
Proof.
  intros Hm He HeF Hle.
  destruct (Zdigits2_bounds mz Hm) as [Dl _].
  destruct (digits2_pos_bounds mF) as [_ Du].
  pose proof (Zdigits2_pos mz Hm) as Dp.
  pose proof (pow2_pos (ez + 149) ltac:(lia)) as HA.
  pose proof (pow2_pos (eF + 149) ltac:(lia)) as HB.
  assert (H1 : (2 ^ (Zdigits2 mz - 1) * 2 ^ (ez + 149) <= mz * 2 ^ (ez + 149))%Z)
    by (apply Z.mul_le_mono_nonneg_r; lia).
  assert (H2 : (Z.pos mF * 2 ^ (eF + 149) <
                2 ^ Z.pos (digits2_pos mF) * 2 ^ (eF + 149))%Z)
    by (apply Z.mul_lt_mono_pos_r; assumption).
  rewrite <- Z.pow_add_r in H1, H2 by lia.
  assert (H3 : (2 ^ (Zdigits2 mz - 1 + (ez + 149)) <
                2 ^ (Z.pos (digits2_pos mF) + (eF + 149)))%Z) by lia.
  apply Z.pow_lt_mono_r_iff in H3; lia.
Qed.

(** Rounding a positive number that does not exceed a canonical binary32
    F gives a canonical binary32 that does not exceed F: the result is
    finite, and rounding to nearest cannot step over F. *)
Lemma binary_round_aux_le (mz ez : Z) (mF : positive) (eF : Z) :
  (0 < mz)%Z -> (-149 <= ez)%Z ->
  (ez <= fexp prec emax (Zdigits2 mz + ez))%Z ->
  bounded prec emax mF eF = true ->
  (mz * 2 ^ (ez + 149) <= Z.pos mF * 2 ^ (eF + 149))%Z ->
  exists m3 e3,
    binary_round_aux prec emax false mz ez loc_Exact = S754_finite false m3 e3 /\
    bounded prec emax m3 e3 = true /\
    (Z.pos m3 * 2 ^ (e3 + 149) <= Z.pos mF * 2 ^ (eF + 149))%Z.
Proof.
  intros Hm He Hpre HF Hle.
  destruct (valid_finite_inv false mF eF HF) as [CF [LF UF]].
  assert (Hm0 : (0 <= mz)%Z) by lia.
  unfold binary_round_aux.
  pose proof (shr_fexp_canonical mz ez loc_Exact Hm0 Hpre) as S1.
  pose proof (shr_fexp_spec mz ez loc_Exact Hm0) as Sp.
  pose proof (shr_fexp_value mz ez Hm0) as V1.
  cbn zeta in S1, Sp, V1.
  destruct (shr_fexp prec emax mz ez loc_Exact) as [mrs1 e1].
  cbn [fst snd] in S1, Sp, V1.
  destruct S1 as (N1 & K1). destruct Sp as (_ & Sz & Sp).
  destruct V1 as (G1 & V1 & X1).
  assert (E1 : e1 = fexp prec emax (Zdigits2 mz + ez)).
  { destruct (Z_le_gt_dec (fexp prec emax (Zdigits2 mz + ez) - ez) 0) as [Hn | Hn].
    - destruct (Sz Hn) as [_ ->]. lia.
    - destruct (Sp ltac:(lia)) as [_ ->]. lia. }
  clear Sz Sp.
  (* the first exponent is not above that of F *)
  assert (GF : (e1 <= eF)%Z).
  { pose proof (leading_bit_le mz ez mF eF Hm He LF Hle) as H.
    apply fexp_mono in H. unfold canonical_mantissa in CF.
    apply Z.eqb_eq in CF. rewrite CF in H. lia. }
  (* the mantissa is not shifted out *)
  assert (P1 : (0 < shr_m mrs1)%Z /\
               fexp prec emax (Zdigits2 (shr_m mrs1) + e1) = e1).
  { destruct K1 as [(_ & _ & H) | K1]; [|exact K1].
    pose proof (Zdigits2_pos mz Hm). rewrite fexp_unfold in H. lia. }
  set (m1 := shr_m mrs1) in *.
  pose proof (round_nearest_even_digits m1 (loc_of_shr_record mrs1) N1)
    as (N2 & L2 & D2).
  destruct (round_nearest_even_le m1 (loc_of_shr_record mrs1)) as [U2 X2].
  set (m2 := round_nearest_even m1 (loc_of_shr_record mrs1)) in *.
  pose proof (pow2_pos (e1 - ez) ltac:(lia)) as HP.
  set (P := (2 ^ (e1 - ez))%Z) in *.
  assert (V3 : (m2 * P < mz + P)%Z).
  { destruct X1 as [X1 | X1].
    - assert ((m2 * P <= (m1 + 1) * P)%Z)
        by (apply Z.mul_le_mono_nonneg_r; lia).
      lia.
    - rewrite (X2 X1). lia. }
  pose proof (shr_fexp_round_canonical m1 m2 e1 N1 L2 D2 (or_intror P1)) as S2.
  pose proof (shr_fexp_value m2 e1 N2) as V2.
  cbn zeta in S2, V2.
  destruct (shr_fexp prec emax m2 e1 loc_Exact) as [mrs2 e2].
  cbn [fst snd] in S2, V2.
  destruct S2 as (N3 & K3). destruct V2 as (G2 & V2 & _).
  assert (P3 : (0 < shr_m mrs2)%Z /\
               fexp prec emax (Zdigits2 (shr_m mrs2) + e2) = e2)
    by (destruct K3 as [[_ K3] | K3]; [lia|exact K3]).
  clear K3 K1.
  (* the value of the result against F *)
  pose proof (pow2_pos (ez + 149) ltac:(lia)) as HA.
  pose proof (pow2_pos (e1 + 149) ltac:(lia)) as HB.
  pose proof (pow2_pos (e2 - e1) ltac:(lia)) as HQ.
  pose proof (pow2_pos (eF - e1) ltac:(lia)) as HD.
  assert (Vle : (shr_m mrs2 * 2 ^ (e2 + 149) <= Z.pos mF * 2 ^ (eF + 149))%Z).
  { rewrite (ulps_shift e1 e2) by lia.
    rewrite (ulps_shift e1 eF) in Hle |- * by lia.
    rewrite (ulps_shift ez e1) in Hle by lia. fold P in Hle.
    set (A := (2 ^ (ez + 149))%Z) in *.
    set (B := (2 ^ (e1 + 149))%Z) in *.
    set (Q := (2 ^ (e2 - e1))%Z) in *.
    set (D := (2 ^ (eF - e1))%Z) in *.
    assert (H1 : (mz <= Z.pos mF * D * P)%Z)
      by (apply (Z.mul_le_mono_pos_r _ _ A HA); lia).
    assert (H2 : (m2 < Z.pos mF * D + 1)%Z)
      by (apply (Z.mul_lt_mono_pos_r P _ _ HP); lia).
    assert (H3 : (shr_m mrs2 * Q * B <= Z.pos mF * D * B)%Z)
      by (apply Z.mul_le_mono_nonneg_r; lia).
    lia. }
  destruct P3 as [P3 C3].
  destruct (shr_m mrs2) as [|p|p] eqn:Em3; try lia.
  assert (Cp : canonical_mantissa prec emax p e2 = true)
    by (unfold canonical_mantissa; apply Z.eqb_eq; exact C3).
  destruct (e2 <=? emax - prec)%Z eqn:Eb.
  - exists p, e2. split; [reflexivity|]. split; [|exact Vle].
    unfold bounded. rewrite Cp, Eb. reflexivity.
  - apply Z.leb_gt in Eb. change (emax - prec)%Z with 104%Z in Eb.
    pose proof (in_ulps_exponent_order mF p eF e2 CF Cp ltac:(lia)). lia.
Qed.

(** aligning a mantissa keeps the number it stands for *)
Lemma shl_align_in_ulps (m : positive) (e e' : Z) :
  (-149 <= e)%Z -> (-149 <= e')%Z ->
  (-149 <= snd (shl_align m e e'))%Z /\
  (Z.pos (fst (shl_align m e e')) * 2 ^ (snd (shl_align m e e') + 149) =
   Z.pos m * 2 ^ (e + 149))%Z.
Proof.
  intros He He'. unfold shl_align.
  destruct (e' - e)%Z as [|d|d] eqn:E; cbn [fst snd]; try (split; [lia|reflexivity]).
  split; [lia|].
  rewrite iter_xO_pow2, (ulps_shift e' e) by lia.
  replace (e - e')%Z with (Z.pos d) by lia. lia.
Qed.

Lemma binary_round_le (m : positive) (e : Z) (mF : positive) (eF : Z) :
  (-149 <= e)%Z ->
  bounded prec emax mF eF = true ->
  (Z.pos m * 2 ^ (e + 149) <= Z.pos mF * 2 ^ (eF + 149))%Z ->
  exists m3 e3,
    binary_round prec emax false m e = S754_finite false m3 e3 /\
    bounded prec emax m3 e3 = true /\
    (Z.pos m3 * 2 ^ (e3 + 149) <= Z.pos mF * 2 ^ (eF + 149))%Z.
Proof.
  intros He HF Hle. unfold binary_round.
  pose proof (shl_align_fexp m e) as (A & _ & _). cbn zeta in A.
  assert (Hf : (-149 <= fexp prec emax (Z.pos (digits2_pos m) + e))%Z)
    by (rewrite fexp_unfold; lia).
  pose proof (shl_align_in_ulps m e _ He Hf) as [L V].
  destruct (shl_align m e (fexp prec emax (Z.pos (digits2_pos m) + e))) as [mz ez].
  cbn [fst snd] in A, L, V.
  apply binary_round_aux_le; try assumption; lia.
Qed.

(** the numbers a sum and a difference are rounded from *)
Lemma aligned_in_ulps (m : positive) (e ez : Z) :
  (-149 <= ez)%Z -> (ez <= e)%Z ->
  (Z.pos (fst (shl_align m e ez)) * 2 ^ (ez + 149) = Z.pos m * 2 ^ (e + 149))%Z.
Proof.
  intros H1 H2. rewrite shl_align_value by exact H2.
  rewrite (ulps_shift ez e) by lia. lia.
Qed.

(** x + y does not exceed a canonical binary32 F that the exact sum does
    not exceed, for canonical finite x and y that are not negative *)
Lemma fadd_le (x y F : float) :
  valid x = true -> valid y = true -> valid F = true ->
  is_finite x = true -> is_finite y = true -> is_finite F = true ->
  fle f0 x = true -> fle f0 y = true -> fle f0 F = true ->
  (in_ulps x + in_ulps y <= in_ulps F)%Z ->
  valid (fadd x y) = true /\ is_finite (fadd x y) = true /\
  fle f0 (fadd x y) = true /\ (in_ulps (fadd x y) <= in_ulps F)%Z.
Proof.
  intros Vx Vy VF Fx Fy FF Nx Ny NF Hle.
  destruct (nonneg_finite_inv x Fx Nx) as [[sx ->] | (mx & ex & ->)];
    destruct (nonneg_finite_inv y Fy Ny) as [[sy ->] | (my & ey & ->)].
  - destruct sx, sy; repeat split; try reflexivity; exact Hle.
  - change (fadd (S754_zero sx) (S754_finite false my ey))
      with (S754_finite false my ey).
    repeat split; try assumption.
  - change (fadd (S754_finite false mx ex) (S754_zero sy))
      with (S754_finite false mx ex).
    repeat split; try assumption. cbn [in_ulps] in Hle |- *. lia.
  - destruct (valid_finite_inv _ _ _ Vx) as [_ Lx].
    destruct (valid_finite_inv _ _ _ Vy) as [_ Ly].
    cbn [in_ulps cond_Zopp] in Hle.
    pose proof (in_ulps_positive mx ex ltac:(lia)) as Px.
    pose proof (in_ulps_positive my ey ltac:(lia)) as Py.
    destruct (nonneg_finite_inv F FF NF) as [[sF ->] | (mF & eF & ->)];
      cbn [in_ulps cond_Zopp] in Hle; [lia|].
    unfold fadd, SFadd. cbn [cond_Zopp].
    pose proof (aligned_in_ulps mx ex (Z.min ex ey) ltac:(lia) ltac:(lia)) as Ax.
    pose proof (aligned_in_ulps my ey (Z.min ex ey) ltac:(lia) ltac:(lia)) as Ay.
    set (ax := fst (shl_align mx ex (Z.min ex ey))) in *.
    set (ay := fst (shl_align my ey (Z.min ex ey))) in *.
    change (Z.pos ax + Z.pos ay)%Z with (Z.pos (ax + ay)).
    cbn [binary_normalize].
    destruct (binary_round_le (ax + ay) (Z.min ex ey) mF eF ltac:(lia) VF)
      as (m3 & e3 & -> & B3 & V3).
    { rewrite Pos2Z.inj_add, Z.mul_add_distr_r, Ax, Ay. exact Hle. }
    repeat split; [exact B3|exact V3].
Qed.

(** x - y does not exceed a canonical binary32 F that the exact
    difference does not exceed, for canonical finite 0 < y <= x *)
Lemma fsub_le (x y F : float) :
  valid x = true -> valid y = true -> valid F = true ->
  is_finite x = true -> is_finite y = true -> is_finite F = true ->
  fle f0 x = true -> fgt y f0 = true -> fle f0 F = true ->
  fle y x = true ->
  (in_ulps x - in_ulps y <= in_ulps F)%Z ->
  valid (fsub x y) = true /\ is_finite (fsub x y) = true /\
  fle f0 (fsub x y) = true /\ (in_ulps (fsub x y) <= in_ulps F)%Z.
Proof.
  intros Vx Vy VF Fx Fy FF Nx Py NF Hyx Hle.
  assert (Ny : fle f0 y = true).
  { unfold fgt, SFltb in Py. unfold fle, SFleb.
    destruct (SFcompare f0 y) as [[]|]; try discriminate; reflexivity. }
  pose proof (proj1 (fle_in_ulps y x Vy Vx Fy Fx Ny Nx) Hyx) as Hord.
  destruct (nonneg_finite_inv y Fy Ny) as [[sy ->] | (my & ey & ->)];
    [destruct sy; discriminate|].
  destruct (valid_finite_inv _ _ _ Vy) as [_ Ly].
  pose proof (in_ulps_positive my ey ltac:(lia)) as Pmy.
  destruct (nonneg_finite_inv x Fx Nx) as [[sx ->] | (mx & ex & ->)];
    cbn [in_ulps cond_Zopp] in Hord, Hle; [lia|].
  destruct (valid_finite_inv _ _ _ Vx) as [_ Lx].
  assert (HF0 : (0 <= in_ulps F)%Z).
  { destruct (nonneg_finite_inv F FF NF) as [[sF ->] | (mF & eF & ->)];
      cbn [in_ulps cond_Zopp]; [lia|].
    destruct (valid_finite_inv _ _ _ VF) as [_ LF].
    pose proof (in_ulps_positive mF eF ltac:(lia)). lia. }
  unfold fsub, SFsub. cbn [cond_Zopp negb].
  pose proof (aligned_in_ulps mx ex (Z.min ex ey) ltac:(lia) ltac:(lia)) as Ax.
  pose proof (aligned_in_ulps my ey (Z.min ex ey) ltac:(lia) ltac:(lia)) as Ay.
  set (ax := fst (shl_align mx ex (Z.min ex ey))) in *.
  set (ay := fst (shl_align my ey (Z.min ex ey))) in *.
  pose proof (pow2_pos (Z.min ex ey + 149) ltac:(lia)) as HA.
  match goal with |- context [binary_normalize prec emax ?d _ false] =>
    assert (Hd : (d * 2 ^ (Z.min ex ey + 149) =
                  Z.pos mx * 2 ^ (ex + 149) - Z.pos my * 2 ^ (ey + 149))%Z) by lia;
    destruct d as [|p|p]
  end.
  - cbn [binary_normalize]. repeat split; try reflexivity. exact HF0.
  - cbn [binary_normalize].
    destruct (nonneg_finite_inv F FF NF) as [[sF ->] | (mF & eF & ->)];
      cbn [in_ulps cond_Zopp] in Hle.
    + pose proof (Z.mul_pos_pos _ _ (Pos2Z.is_pos p) HA). lia.
    + destruct (binary_round_le p (Z.min ex ey) mF eF ltac:(lia) VF)
        as (m3 & e3 & -> & B3 & V3); [lia|].
      repeat split; [exact B3|exact V3].
  - pose proof (Z.mul_pos_pos _ _ (Pos2Z.is_pos p) HA). lia.
Qed.

(** x + x is exact: the exponent goes up by one, or the mantissa doubles
    below the smallest normal exponent; it overflows past the largest
    exponent *)
Lemma fadd_self (m : positive) (e : Z) :
  canonical_mantissa prec emax m e = true ->
  fadd (S754_finite false m e) (S754_finite false m e) =
  if (Z.pos (digits2_pos m) =? 24)%Z
  then if (e + 1 <=? 104)%Z then S754_finite false m (e + 1)
       else S754_infinity false
  else S754_finite false (xO m) e.
Proof.
  intros Hc. pose proof (canonical_exponent_min _ _ Hc) as He.
  unfold canonical_mantissa in Hc. rewrite fexp_unfold in Hc. apply Z.eqb_eq in Hc.
  pose proof (Pos2Z.is_pos (digits2_pos m)) as Hd.
  unfold fadd, SFadd. rewrite Z.min_id.
  assert (Ea : shl_align m e e = (m, e))
    by (unfold shl_align; rewrite Z.sub_diag; reflexivity).
  rewrite Ea. cbn [fst cond_Zopp].
  change (Z.pos m + Z.pos m)%Z with (Z.pos (m + m)). rewrite Pos.add_diag.
  cbn [binary_normalize]. unfold binary_round. cbn [digits2_pos].
  rewrite Pos2Z.inj_succ, fexp_unfold.
  destruct (Z.pos (digits2_pos m) =? 24)%Z eqn:D.
  - apply Z.eqb_eq in D.
    replace (Z.max (Z.succ (Z.pos (digits2_pos m)) + e - 24) (-149))%Z
      with (e + 1)%Z by lia.
    assert (Es : shl_align (xO m) e (e + 1) = (xO m, e))
      by (unfold shl_align; replace (e + 1 - e)%Z with 1%Z by lia; reflexivity).
    rewrite Es. unfold binary_round_aux, shr_fexp.
    cbn [Zdigits2 digits2_pos]. rewrite Pos2Z.inj_succ, fexp_unfold.
    replace (Z.max (Z.succ (Z.pos (digits2_pos m)) + e - 24) (-149) - e)%Z
      with 1%Z by lia.
    cbn [shr shr_record_of_loc iter_pos shr_1 fst snd shr_m loc_of_shr_record
         orb round_nearest_even Zdigits2].
    rewrite fexp_unfold.
    replace (Z.max (Z.pos (digits2_pos m) + (e + 1) - 24) (-149) - (e + 1))%Z
      with 0%Z by lia.
    cbn [shr fst snd shr_m]. reflexivity.
  - apply Z.eqb_neq in D.
    replace (Z.max (Z.succ (Z.pos (digits2_pos m)) + e - 24) (-149))%Z
      with e by lia.
    assert (Es : shl_align (xO m) e e = (xO m, e))
      by (unfold shl_align; rewrite Z.sub_diag; reflexivity).
    rewrite Es. unfold binary_round_aux, shr_fexp.
    cbn [Zdigits2 digits2_pos]. rewrite Pos2Z.inj_succ, fexp_unfold.
    replace (Z.max (Z.succ (Z.pos (digits2_pos m)) + e - 24) (-149) - e)%Z
      with 0%Z by lia.
    cbn [shr shr_record_of_loc fst snd shr_m loc_of_shr_record
         orb round_nearest_even Zdigits2 digits2_pos].
    rewrite Pos2Z.inj_succ, fexp_unfold.
    replace (Z.max (Z.succ (Z.pos (digits2_pos m)) + e - 24) (-149) - e)%Z
      with 0%Z by lia.
    cbn [shr fst snd shr_m].
    replace (e <=? emax - prec)%Z with true; [reflexivity|].
    symmetry. apply Z.leb_le. change (emax - prec)%Z with 104%Z. lia.
Qed.


Lemma fgt_f0_inv (x : float) :
  fgt x f0 = true ->
  x = S754_infinity false \/ exists m e, x = S754_finite false m e.
Proof.
  destruct x as [s|[]| |[] m e]; try discriminate; intros _; eauto.
Qed.

(** when T + T is finite it is twice T *)
Lemma fadd_self_in_ulps (T : float) :
  valid T = true -> fgt T f0 = true -> is_finite (fadd T T) = true ->
  is_finite T = true /\ fle f0 T = true /\
  valid (fadd T T) = true /\ fle f0 (fadd T T) = true /\
  in_ulps (fadd T T) = (2 * in_ulps T)%Z.
Proof.
  intros VT PT FT.
  destruct (fgt_f0_inv T PT) as [-> | (m & e & ->)]; [discriminate|].
  destruct (valid_finite_inv _ _ _ VT) as [CT LT].
  split; [reflexivity|]. split; [reflexivity|].
  split; [apply fadd_valid; exact VT|].
  rewrite (fadd_self m e CT) in *.
  destruct (Z.pos (digits2_pos m) =? 24)%Z.
  - destruct (e + 1 <=? 104)%Z; [|discriminate].
    split; [reflexivity|]. cbn [in_ulps cond_Zopp].
    replace (e + 1 + 149)%Z with (Z.succ (e + 149)) by lia.
    rewrite Z.pow_succ_r by lia. lia.
  - split; [reflexivity|]. cbn [in_ulps cond_Zopp]. lia.
Qed.

(** Within the period: when the buffer holds at most the period T and
    the elapsed time is at most T, the buffer after [AccumulateBuffer] is
    again a canonical number in [0, T], provided T + T does not overflow. *)
Lemma AccumulateBuffer_within (b dt T : float) :
  valid b = true -> fle f0 b = true -> fle b T = true ->
  is_elapsed_time dt = true -> fle dt T = true ->
  valid T = true -> fgt T f0 = true -> is_finite (fadd T T) = true ->
  valid (snd (AccumulateBuffer b dt T)) = true /\
  fle f0 (snd (AccumulateBuffer b dt T)) = true /\
  fle (snd (AccumulateBuffer b dt T)) T = true.
Proof.
  intros Vb Nb Hb Hdt HdT VT PT F2.
  unfold is_elapsed_time in Hdt. apply andb_prop in Hdt. destruct Hdt as [Hdt Nd].
  apply andb_prop in Hdt. destruct Hdt as [Vd Fd].
  destruct (fadd_self_in_ulps T VT PT F2) as (FT & NT & V2 & N2 & E2).
  assert (Fb : is_finite b = true).
  { destruct (fle_f0_inv b Nb) as [[s ->] | [-> | (m & e & ->)]]; try reflexivity.
    destruct T as [| | |[] ? ?]; discriminate. }
  pose proof (proj1 (fle_in_ulps b T Vb VT Fb FT Nb NT) Hb) as Ub.
  pose proof (proj1 (fle_in_ulps dt T Vd VT Fd FT Nd NT) HdT) as Ud.
  destruct (fadd_le b dt (fadd T T) Vb Vd V2 Fb Fd F2 Nb Nd N2 ltac:(lia))
    as (Vx & Fx & Nx & Ux).
  rewrite E2 in Ux.
  unfold AccumulateBuffer. destruct (fge (fadd b dt) T) eqn:G; cbn [snd].
  - destruct (fsub_le (fadd b dt) T T Vx VT VT Fx FT FT Nx PT NT G ltac:(lia))
      as (Vy & Fy & Ny & Uy).
    split; [exact Vy|]. split; [exact Ny|].
    apply (fle_in_ulps _ T Vy VT Fy FT Ny NT). exact Uy.
  - split; [exact Vx|]. split; [exact Nx|].
    apply (fle_in_ulps _ T Vx VT Fx FT Nx NT).
    destruct (Z_le_gt_dec (in_ulps T) (in_ulps (fadd b dt))) as [H | H]; [|lia].
    apply (fle_in_ulps T _ VT Vx FT Fx NT Nx) in H.
    unfold fge in G. unfold fle in H. congruence.
Qed.

(** ** The tick buffer after a tick that calculated (C6) *)






(** * Further properties of the code *)

(** ** Further properties of the lifecycle *)

(** X1: while the controller is disabled, every sequence of gated ticks
    (either overload) answers false at each call and leaves the object and
    the output stream exactly as they were. *)
Theorem disabled_controller_ignores_gated_ticks (w : World) (calls : list Call) :
  IsEnabled (self w) = false ->
  forallb is_gated_tick calls = true ->
  perform_all calls w = (map (fun _ => Ret_bool false) calls, w).
Proof.
  intros Hoff. induction calls as [|c calls IH]; intros Hall.
  - reflexivity.
  - cbn [forallb] in Hall. apply andb_prop in Hall. destruct Hall as [Hc Hall].
    cbn [perform_all map]. unfold bind at 1.
    assert (E : perform c w = (Ret_bool false, w)).
    { destruct c; try discriminate; unfold perform;
        [unfold TickIfEnabled | unfold TickIfEnabled_Error];
        unfold bind, get, ret; cbn [fst snd]; rewrite Hoff; reflexivity. }
    rewrite E. cbn [fst snd]. unfold bind at 1. rewrite (IH Hall). reflexivity.
Qed.

Lemma disabled_controller_ignores_gated_ticks_witness :
  let w := after (SetEnabled false false) (construct []) in
  let calls := [Call_TickIfEnabled f1 f0 f1; Call_TickIfEnabled_Error f1 (of_ratio 1 10)] in
  IsEnabled (self w) = false /\
  forallb is_gated_tick calls = true /\
  perform_all calls w = ([Ret_bool false; Ret_bool false], w).
Proof.
  intros w calls.
  assert (H1 : IsEnabled (self w) = false) by (vm_compute; reflexivity).
  assert (H2 : forallb is_gated_tick calls = true) by (vm_compute; reflexivity).
  split; [exact H1|]. split; [exact H2|].
  exact (disabled_controller_ignores_gated_ticks w calls H1 H2).
Defined.

(** X2: SetEnabled resets the run-time state only on the step from
    disabled to enabled.  On an enabled controller, or when disabling, it
    changes nothing but the flag; the flag always ends as requested; and
    calling it twice with the same flag is the same as calling it once. *)
Theorem SetEnabled_only_resets_on_reenable
    (w : World) (bIsEnabled c c' : bool) :
  (IsEnabled (self w) = true \/ bIsEnabled = false ->
   after (SetEnabled bIsEnabled c) w =
   mkWorld (set_bIsEnabled bIsEnabled (self w)) (cout w)) /\
  IsEnabled (self (after (SetEnabled bIsEnabled c) w)) = bIsEnabled /\
  after (SetEnabled bIsEnabled c') (after (SetEnabled bIsEnabled c) w) =
  after (SetEnabled bIsEnabled c) w.
Proof.
  unfold after. rewrite !SetEnabled_run. cbn [snd self cout].
  split; [|split].
  - intros [H | ->]; [rewrite H|rewrite andb_false_r]; reflexivity.
  - destruct (negb _ && _); reflexivity.
  - assert (E : IsEnabled
                  (set_bIsEnabled bIsEnabled
                     (if negb (IsEnabled (self w)) && bIsEnabled
                      then cleared (self w) else self w)) = bIsEnabled)
      by (destruct (negb _ && _); reflexivity).
    rewrite E, andb_negb_l.
    generalize (if negb (IsEnabled (self w)) && bIsEnabled
                then cleared (self w) else self w).
    intros s. reflexivity.
Qed.

Lemma SetEnabled_only_resets_on_reenable_witness :
  let w := after (CalculateNewValue_Error (of_ratio 1 2) f1) (construct []) in
  IsEnabled (self w) = true /\
  after (SetEnabled true false) w = w /\
  GetLastCalculatedValue (self (after (SetEnabled true true) w)) = of_ratio 1 2.
Proof.
  intros w.
  assert (H : IsEnabled (self w) = true) by (vm_compute; reflexivity).
  destruct (SetEnabled_only_resets_on_reenable w true false false) as (E1 & _).
  destruct (SetEnabled_only_resets_on_reenable w true true false) as (E2 & _).
  split; [exact H|]. split.
  - rewrite (E1 (or_introl H)). vm_compute. reflexivity.
  - rewrite (E2 (or_introl H)). vm_compute. reflexivity.
Defined.

(** X3: both constructors assign every data member, so the object does
    not depend on what its storage held before; the six-argument
    constructor leaves the given gains, bounds (maximum before minimum) and
    period, a one-entry zero window, the enabled flag set and every other
    run-time member 0; the default constructor is the same object with
    gains (1, 0, 0), range [0, 1] and period 0.2f. *)
Theorem constructors_assign_every_member
    (storage : FPIDController) (out : list string)
    (P I D MaxValue MinValue Period : float) :
  after (FPIDController_gains_body P I D MaxValue MinValue Period)
    (mkWorld storage out) =
  mkWorld
    (mkFPIDController P I D MaxValue MinValue Period [f0] 1 true f0 f0 f0 f0 f0)
    out /\
  after FPIDController_default_body (mkWorld storage out) =
  mkWorld
    (mkFPIDController (of_int 1) f0 f0 (of_int 1) f0 (of_ratio 2 10)
       [f0] 1 true f0 f0 f0 f0 f0)
    out.
Proof.
  destruct storage. split; reflexivity.
Qed.

(** ** What calculating calls preserve *)

Section Preservation.

Variable Inv : FPIDController -> Prop.

Hypothesis Inv_integrated :
  forall s e dt, Inv s -> Inv (integrated s e dt).
Hypothesis Inv_PreviousError :
  forall s e, Inv s -> Inv (set_PreviousError e s).
Hypothesis Inv_PreviousInput :
  forall s c, Inv s -> Inv (set_PreviousInput c s).
Hypothesis Inv_cache :
  forall s y, Inv s ->
    Inv (cache (clamp (ControlledValue_Min s) (ControlledValue_Max s) y) s).
Hypothesis Inv_accumulate :
  forall s dt size, Inv s ->
    Inv (set_TickBuffer (snd (AccumulateBuffer (_TickBuffer s) dt size)) s).

Lemma CalculateNewValue_preserves (t c dt : float) (w : World) :
  Inv (self w) -> Inv (self (after (CalculateNewValue t c dt) w)).
Proof.
  intros H. unfold after. destruct (IsNearlyZero dt) eqn:Hdt.
  - rewrite CalculateNewValue_nearly_zero by assumption. exact H.
  - rewrite CalculateNewValue_run by assumption. cbn zeta. cbn [snd self].
    apply (Inv_cache (set_PreviousInput c
                        (set_PreviousError (fsub t c)
                           (integrated (self w) (fsub t c) dt)))).
    apply Inv_PreviousInput, Inv_PreviousError, Inv_integrated, H.
Qed.

Lemma CalculateNewValue_Error_preserves (e dt : float) (w : World) :
  Inv (self w) -> Inv (self (after (CalculateNewValue_Error e dt) w)).
Proof.
  intros H. unfold after. destruct (IsNearlyZero dt) eqn:Hdt.
  - rewrite CalculateNewValue_Error_nearly_zero by assumption. exact H.
  - rewrite CalculateNewValue_Error_run by assumption. cbn zeta. cbn [snd self].
    apply (Inv_cache (set_PreviousError e (integrated (self w) e dt))).
    apply Inv_PreviousError, Inv_integrated, H.
Qed.

Lemma Tick_preserves (t c dt : float) (w : World) :
  Inv (self w) -> Inv (self (after (Tick t c dt) w)).
Proof.
  intros H. unfold after. rewrite Tick_run. cbn zeta.
  repeat match goal with |- context [if ?b then _ else _] => destruct b end;
    cbn [snd]; try apply CalculateNewValue_preserves;
    try exact H; apply Inv_accumulate, H.
Qed.

Lemma Tick_Error_preserves (e dt : float) (w : World) :
  Inv (self w) -> Inv (self (after (Tick_Error e dt) w)).
Proof.
  intros H. unfold after. rewrite Tick_Error_run. cbn zeta.
  repeat match goal with |- context [if ?b then _ else _] => destruct b end;
    cbn [snd]; try apply CalculateNewValue_Error_preserves;
    try exact H; apply Inv_accumulate, H.
Qed.

Lemma calculating_call_preserves (c : Call) (w : World) :
  is_calculating_call c = true ->
  Inv (self w) -> Inv (self (after (perform c) w)).
Proof.
  intros Hc H. destruct c; try discriminate;
    unfold after, perform; unfold bind at 1; cbn [snd ret].
  - apply CalculateNewValue_preserves, H.
  - apply CalculateNewValue_Error_preserves, H.
  - apply Tick_preserves, H.
  - apply Tick_Error_preserves, H.
  - unfold TickIfEnabled. unfold bind at 1. unfold get at 1. cbn [fst snd].
    destruct (IsEnabled (self w)); [apply Tick_preserves, H | exact H].
  - unfold TickIfEnabled_Error. unfold bind at 1. unfold get at 1. cbn [fst snd].
    destruct (IsEnabled (self w)); [apply Tick_Error_preserves, H | exact H].
Qed.

Lemma calculating_calls_preserve (calls : list Call) (w : World) :
  forallb is_calculating_call calls = true ->
  Inv (self w) -> Inv (self (after (perform_all calls) w)).
Proof.
  revert w. induction calls as [|c calls IH]; intros w Hall H.
  - exact H.
  - cbn [forallb] in Hall. apply andb_prop in Hall. destruct Hall as [Hc Hall].
    unfold after. cbn [perform_all]. unfold bind at 1. unfold bind at 1.
    cbn [snd ret].
    apply (IH (snd (perform c w)) Hall).
    apply calculating_call_preserves; assumption.
Qed.

End Preservation.

Lemma same_settings_refl (s : FPIDController) : same_settings s s.
Proof. repeat split. Qed.

(** X4: calculations and ticks never retune the controller: along every
    sequence of calculation, tick and gated-tick calls the three gains,
    the two output bounds, the period, the averaging size and the enabled
    flag stay what they were. *)
Theorem calculating_calls_keep_settings (calls : list Call) (w : World) :
  forallb is_calculating_call calls = true ->
  same_settings (self w) (self (after (perform_all calls) w)).
Proof.
  intros Hall.
  apply (calculating_calls_preserve (same_settings (self w))); try assumption.
  - intros s e dt H. unfold same_settings in *.
    destruct (integrated_frame s e dt)
      as (E1 & E2 & E3 & E4 & E5 & E6 & _ & E7 & _ & E8).
    rewrite E1, E2, E3, E4, E5, E6, E7, E8. exact H.
  - intros s e H. exact H.
  - intros s c H. exact H.
  - intros s y H. unfold same_settings in *.
    destruct (cache_frame (clamp (ControlledValue_Min s) (ControlledValue_Max s) y) s)
      as (E1 & E2 & E3 & E4 & E5 & E6 & E7 & _ & _ & E8 & _).
    rewrite E1, E2, E3, E4, E5, E6, E7, E8. exact H.
  - intros s dt size H. exact H.
  - apply same_settings_refl.
Qed.

Lemma calculating_calls_keep_settings_witness :
  let w := construct_gains f1 f1 f1 f1 f0 (of_ratio 1 4) [] in
  let calls := [Call_Tick f1 f0 (of_ratio 1 2);
                Call_CalculateNewValue_Error f1 f1;
                Call_TickIfEnabled_Error f1 (of_ratio 1 8)] in
  forallb is_calculating_call calls = true /\
  same_settings (self w) (self (after (perform_all calls) w)) /\
  GetLastCalculatedValue (self (after (perform_all calls) w)) = f1.
Proof.
  intros w calls.
  assert (H : forallb is_calculating_call calls = true) by (vm_compute; reflexivity).
  split; [exact H|]. split.
  - exact (calculating_calls_keep_settings calls w H).
  - vm_compute. reflexivity.
Defined.

(** ** The integral accumulator along sequences of calls *)

(** X5: integral history is frozen, not erased, while the integral gain
    is nearly zero: along every sequence of calculation, tick and
    gated-tick calls, with any inputs, the integral accumulator keeps its
    value. *)
Theorem nearly_zero_I_Gain_freezes_integral (calls : list Call) (w : World) :
  IsNearlyZero (I_Gain (self w)) = true ->
  forallb is_calculating_call calls = true ->
  GetIntegralAccumulation (self (after (perform_all calls) w)) =
  GetIntegralAccumulation (self w).
Proof.
  intros HI Hall.
  enough (H : IsNearlyZero (I_Gain (self (after (perform_all calls) w))) = true /\
              _IntegralAccumulation (self (after (perform_all calls) w)) =
              _IntegralAccumulation (self w)) by apply H.
  apply (calculating_calls_preserve
           (fun s => IsNearlyZero (I_Gain s) = true /\
                     _IntegralAccumulation s = _IntegralAccumulation (self w)));
    try assumption.
  - intros s e dt [H1 H2]. unfold integrated. rewrite H1. auto.
  - intros s e H. exact H.
  - intros s c H. exact H.
  - intros s y [H1 H2].
    destruct (cache_frame (clamp (ControlledValue_Min s) (ControlledValue_Max s) y) s)
      as (_ & E2 & _ & _ & _ & _ & _ & E8 & _).
    rewrite E2, E8. auto.
  - intros s dt size H. exact H.
  - auto.
Qed.

Lemma nearly_zero_I_Gain_freezes_integral_witness :
  let w := after (perform (Write_I_Gain (of_ratio 1 1000000)))
             (after (CalculateNewValue_Error (of_ratio 1 2) f1)
                (construct_gains f1 f1 f0 f1 f0 f0 [])) in
  let calls := [Call_CalculateNewValue_Error f1 f1; Call_Tick fm1 f0 f1] in
  IsNearlyZero (I_Gain (self w)) = true /\
  forallb is_calculating_call calls = true /\
  GetIntegralAccumulation (self w) = of_ratio 1 2 /\
  GetIntegralAccumulation (self (after (perform_all calls) w)) = of_ratio 1 2.
Proof.
  intros w calls.
  assert (H1 : IsNearlyZero (I_Gain (self w)) = true) by (vm_compute; reflexivity).
  assert (H2 : forallb is_calculating_call calls = true) by (vm_compute; reflexivity).
  assert (H3 : GetIntegralAccumulation (self w) = of_ratio 1 2) by (vm_compute; reflexivity).
  split; [exact H1|]. split; [exact H2|]. split; [exact H3|].
  rewrite (nearly_zero_I_Gain_freezes_integral calls w H1 H2). exact H3.
Defined.

(** X6: anti-windup as an invariant.  If the output bounds are ordered
    and the integral accumulator and the last output start within
    [Min, Max] (or NaN), then along every sequence of calculation, tick and
    gated-tick calls, with inputs of any magnitude, both remain within
    [Min, Max] (or NaN). *)
Theorem integral_and_last_output_stay_within (calls : list Call) (w : World) :
  let Min := ControlledValue_Min (self w) in
  let Max := ControlledValue_Max (self w) in
  fle Min Max = true ->
  within Min Max (GetIntegralAccumulation (self w)) ->
  within Min Max (GetLastCalculatedValue (self w)) ->
  forallb is_calculating_call calls = true ->
  within Min Max (GetIntegralAccumulation (self (after (perform_all calls) w))) /\
  within Min Max (GetLastCalculatedValue (self (after (perform_all calls) w))).
Proof.
  intros Min Max HMM Hacc Hlast Hall.
  enough (H : ControlledValue_Min (self (after (perform_all calls) w)) = Min /\
              ControlledValue_Max (self (after (perform_all calls) w)) = Max /\
              within Min Max (_IntegralAccumulation (self (after (perform_all calls) w))) /\
              within Min Max (_PreviousCalculation (self (after (perform_all calls) w))))
    by (destruct H as (_ & _ & H1 & H2); split; assumption).
  apply (calculating_calls_preserve
           (fun s => ControlledValue_Min s = Min /\ ControlledValue_Max s = Max /\
                     within Min Max (_IntegralAccumulation s) /\
                     within Min Max (_PreviousCalculation s)));
    try assumption.
  - intros s e dt (H1 & H2 & H3 & H4).
    destruct (integrated_frame s e dt) as (_ & _ & _ & EM & Em & _).
    rewrite EM, Em. repeat split; try assumption.
    + unfold integrated. destruct (IsNearlyZero (I_Gain s)); [exact H3|].
      cbn. unfold integrate. rewrite H1, H2. apply clamp_in_range, HMM.
    + unfold integrated. destruct (IsNearlyZero (I_Gain s)); exact H4.
  - intros s e H. exact H.
  - intros s c H. exact H.
  - intros s y (H1 & H2 & H3 & H4).
    destruct (cache_frame (clamp (ControlledValue_Min s) (ControlledValue_Max s) y) s)
      as (_ & _ & _ & EM & Em & _ & _ & Ea & _ & _ & Ep).
    rewrite EM, Em, Ea, Ep, H1, H2. repeat split; try assumption.
    apply clamp_in_range, HMM.
  - intros s dt size H. exact H.
  - repeat split; assumption.
Qed.

Lemma integral_and_last_output_stay_within_witness :
  let w := construct_gains (of_int 50) (of_int 7) f0 f1 fm1 f0 [] in
  let calls := [Call_CalculateNewValue_Error (of_int 1000) f1;
                Call_Tick (of_int (-9)) (of_int 4) (of_int 3);
                Call_CalculateNewValue_Error (of_ratio 1 100) (of_ratio 1 2)] in
  fle (ControlledValue_Min (self w)) (ControlledValue_Max (self w)) = true /\
  within fm1 f1 (GetIntegralAccumulation (self w)) /\
  within fm1 f1 (GetLastCalculatedValue (self w)) /\
  forallb is_calculating_call calls = true /\
  within fm1 f1 (GetIntegralAccumulation (self (after (perform_all calls) w))) /\
  within fm1 f1 (GetLastCalculatedValue (self (after (perform_all calls) w))) /\
  GetIntegralAccumulation (self (after (perform_all calls) w)) = of_ratio (-965) 1000.
Proof.
  intros w calls.
  assert (H1 : fle (ControlledValue_Min (self w)) (ControlledValue_Max (self w)) = true)
    by (vm_compute; reflexivity).
  assert (H2 : within fm1 f1 (GetIntegralAccumulation (self w)))
    by (right; vm_compute; reflexivity).
  assert (H3 : within fm1 f1 (GetLastCalculatedValue (self w)))
    by (right; vm_compute; reflexivity).
  assert (H4 : forallb is_calculating_call calls = true) by (vm_compute; reflexivity).
  destruct (integral_and_last_output_stay_within calls w H1 H2 H3 H4) as [A B].
  split; [exact H1|]. split; [exact H2|]. split; [exact H3|]. split; [exact H4|].
  split; [exact A|]. split; [exact B|].
  vm_compute. reflexivity.
Defined.

(** ** Further properties of Tick *)

(** X7: a Tick that answers false has calculated nothing: for every
    state and every input of both overloads, the period is positive, the
    DeltaTime does not exceed it, nothing is written and no member changes
    except the tick buffer, which is buffer + DeltaTime. *)
Theorem Tick_false_only_accumulates (w : World) (t c e dt : float) :
  (result (Tick t c dt) w = false ->
   fgt (PeriodicDuration (self w)) f0 = true /\
   fgt dt (PeriodicDuration (self w)) = false /\
   after (Tick t c dt) w =
     mkWorld (set_TickBuffer (fadd (_TickBuffer (self w)) dt) (self w)) (cout w)) /\
  (result (Tick_Error e dt) w = false ->
   fgt (PeriodicDuration (self w)) f0 = true /\
   fgt dt (PeriodicDuration (self w)) = false /\
   after (Tick_Error e dt) w =
     mkWorld (set_TickBuffer (fadd (_TickBuffer (self w)) dt) (self w)) (cout w)).
Proof.
  unfold result, after. rewrite Tick_run, Tick_Error_run. cbn zeta.
  unfold AccumulateBuffer, with_TickBuffer.
  destruct (fgt (PeriodicDuration (self w)) f0);
    destruct (fgt dt (PeriodicDuration (self w)));
    destruct (fge (fadd (_TickBuffer (self w)) dt) (PeriodicDuration (self w)));
    cbn [fst snd]; split; intros H; try discriminate; repeat split.
Qed.

Lemma Tick_false_only_accumulates_witness :
  let w := construct [] in
  let dt := of_ratio 1 10 in
  result (Tick f1 f0 dt) w = false /\
  after (Tick f1 f0 dt) w = mkWorld (set_TickBuffer dt (self w)) [] /\
  GetLastCalculatedValue (self (after (Tick f1 f0 dt) w)) = f0.
Proof.
  intros w dt.
  assert (H : result (Tick f1 f0 dt) w = false) by (vm_compute; reflexivity).
  destruct (Tick_false_only_accumulates w f1 f0 f1 dt) as [A _].
  destruct (A H) as (_ & _ & E).
  split; [exact H|]. split.
  - rewrite E. vm_compute. reflexivity.
  - rewrite E. vm_compute. reflexivity.
Defined.

Lemma fadd_nan_l (x : float) : fadd S754_nan x = S754_nan.
Proof. reflexivity. Qed.

Lemma fadd_nan_r (x : float) : fadd x S754_nan = S754_nan.
Proof. destruct x; reflexivity. Qed.

Lemma is_nan_inv (x : float) : is_nan x = true -> x = S754_nan.
Proof. destruct x; try discriminate; reflexivity. Qed.

Lemma set_TickBuffer_same (s : FPIDController) : set_TickBuffer (_TickBuffer s) s = s.
Proof. destruct s; reflexivity. Qed.

(** X8: a NaN DeltaTime is not turned away by Tick: on a controller with
    a positive period it answers false and leaves a NaN in the tick
    buffer; a NaN tick buffer then stays NaN along every sequence of
    calculation, tick and gated-tick calls, and every Tick whose DeltaTime
    does not exceed the period answers false and changes nothing at all:
    the controller has stopped calculating on such ticks. *)
Theorem NaN_tick_buffer_stalls_ticks :
  (forall (w : World) (t c dt : float),
     fgt (PeriodicDuration (self w)) f0 = true ->
     is_nan dt = true ->
     result (Tick t c dt) w = false /\
     is_nan (_TickBuffer (self (after (Tick t c dt) w))) = true) /\
  (forall (w : World) (calls : list Call),
     is_nan (_TickBuffer (self w)) = true ->
     forallb is_calculating_call calls = true ->
     is_nan (_TickBuffer (self (after (perform_all calls) w))) = true) /\
  (forall (w : World) (t c dt : float),
     is_nan (_TickBuffer (self w)) = true ->
     fgt (PeriodicDuration (self w)) f0 = true ->
     fgt dt (PeriodicDuration (self w)) = false ->
     Tick t c dt w = (false, w)).
Proof.
  split; [|split].
  - intros w t c dt HT Hdt. apply is_nan_inv in Hdt. subst dt.
    unfold result, after. rewrite Tick_run. cbn zeta. rewrite HT.
    assert (E : fgt S754_nan (PeriodicDuration (self w)) = false)
      by (unfold fgt, SFltb; destruct (PeriodicDuration (self w)); reflexivity).
    rewrite E. unfold AccumulateBuffer. rewrite fadd_nan_r.
    assert (E' : fge S754_nan (PeriodicDuration (self w)) = false)
      by (unfold fge, SFleb; destruct (PeriodicDuration (self w)); reflexivity).
    rewrite E'. split; reflexivity.
  - intros w calls Hb Hall.
    apply (calculating_calls_preserve (fun s => is_nan (_TickBuffer s) = true));
      try assumption.
    + intros s e dt H.
      destruct (integrated_frame s e dt) as (_ & _ & _ & _ & _ & _ & _ & _ & E & _).
      rewrite E. exact H.
    + intros s e H. exact H.
    + intros s c H. exact H.
    + intros s y H.
      destruct (cache_frame (clamp (ControlledValue_Min s) (ControlledValue_Max s) y) s)
        as (_ & _ & _ & _ & _ & _ & _ & _ & E & _).
      rewrite E. exact H.
    + intros s dt size H. apply is_nan_inv in H. cbn.
      unfold AccumulateBuffer. rewrite H, fadd_nan_l.
      assert (E : fge S754_nan size = false)
        by (unfold fge, SFleb; destruct size; reflexivity).
      rewrite E. reflexivity.
  - intros w t c dt Hb HT Hover. pose proof (is_nan_inv _ Hb) as Eb.
    rewrite Tick_run. cbn zeta. rewrite HT, Hover.
    unfold AccumulateBuffer. rewrite Eb, fadd_nan_l.
    assert (E : fge S754_nan (PeriodicDuration (self w)) = false)
      by (unfold fge, SFleb; destruct (PeriodicDuration (self w)); reflexivity).
    rewrite E. cbn [fst snd]. unfold with_TickBuffer. rewrite <- Eb.
    rewrite set_TickBuffer_same, world_eta. reflexivity.
Qed.

Lemma NaN_tick_buffer_stalls_ticks_witness :
  let w0 := construct [] in
  let w := after (Tick f1 f0 S754_nan) w0 in
  fgt (PeriodicDuration (self w0)) f0 = true /\
  is_nan S754_nan = true /\
  result (Tick f1 f0 S754_nan) w0 = false /\
  is_nan (_TickBuffer (self w)) = true /\
  fgt (of_ratio 1 10) (PeriodicDuration (self w)) = false /\
  Tick f1 f0 (of_ratio 1 10) w = (false, w).
Proof.
  intros w0 w.
  assert (H1 : fgt (PeriodicDuration (self w0)) f0 = true) by (vm_compute; reflexivity).
  assert (H2 : is_nan S754_nan = true) by reflexivity.
  assert (H3 : fgt (PeriodicDuration (self w)) f0 = true) by (vm_compute; reflexivity).
  assert (H4 : fgt (of_ratio 1 10) (PeriodicDuration (self w)) = false)
    by (vm_compute; reflexivity).
  destruct NaN_tick_buffer_stalls_ticks as (A & _ & C).
  destruct (A w0 f1 f0 S754_nan H1 H2) as [R B].
  split; [exact H1|]. split; [exact H2|]. split; [exact R|]. split; [exact B|].
  split; [exact H4|].
  exact (C w f1 f0 (of_ratio 1 10) B H3 H4).
Defined.

(** ** The output stream *)

Lemma CalculateNewValue_cout (t c dt : float) (w : World) :
  cout (after (CalculateNewValue t c dt) w) =
  cout w ++ (if IsNearlyZero dt then [diagnostic] else []).
Proof.
  unfold after. destruct (IsNearlyZero dt) eqn:Hdt.
  - rewrite CalculateNewValue_nearly_zero by assumption. reflexivity.
  - rewrite CalculateNewValue_run by assumption. cbn. rewrite app_nil_r. reflexivity.
Qed.

Lemma CalculateNewValue_Error_cout (e dt : float) (w : World) :
  cout (after (CalculateNewValue_Error e dt) w) =
  cout w ++ (if IsNearlyZero dt then [diagnostic] else []).
Proof.
  unfold after. destruct (IsNearlyZero dt) eqn:Hdt.
  - rewrite CalculateNewValue_Error_nearly_zero by assumption. reflexivity.
  - rewrite CalculateNewValue_Error_run by assumption. cbn. rewrite app_nil_r. reflexivity.
Qed.

Lemma perform_cout (c : Call) (w : World) :
  exists n : nat,
    (n <= 1)%nat /\
    cout (after (perform c) w) = cout w ++ repeat diagnostic n /\
    (is_calculating_call c = false -> n = 0%nat).
Proof.
  assert (Hcalc : forall b : bool, forall out : list string,
            exists n : nat, (n <= 1)%nat /\
              out ++ (if b then [diagnostic] else []) = out ++ repeat diagnostic n /\
              (true = false -> n = 0%nat)).
  { intros [] out; [exists 1%nat | exists 0%nat]; repeat split; auto; discriminate. }
  assert (Hnone : forall out : list string,
            exists n : nat, (n <= 1)%nat /\ out = out ++ repeat diagnostic n /\
              (true = false -> n = 0%nat)).
  { intros out. exists 0%nat. cbn. rewrite app_nil_r. repeat split; auto. }
  assert (Hset : forall out : list string,
            exists n : nat, (n <= 1)%nat /\ out = out ++ repeat diagnostic n /\
              (false = false -> n = 0%nat)).
  { intros out. exists 0%nat. cbn. rewrite app_nil_r. repeat split; auto. }
  destruct c; unfold after, perform; unfold bind at 1; cbn [snd ret is_calculating_call].
  - fold (after (CalculateNewValue TargetSetpoint CurrentValue DeltaTime) w).
    rewrite CalculateNewValue_cout. apply Hcalc.
  - fold (after (CalculateNewValue_Error Error DeltaTime) w).
    rewrite CalculateNewValue_Error_cout. apply Hcalc.
  - rewrite Tick_run. cbn zeta.
    repeat match goal with |- context [if ?b then _ else _] => destruct b end;
      cbn [snd]; rewrite ?CalculateNewValue_cout; cbn [with_TickBuffer cout];
      try apply Hcalc; apply Hnone.
  - rewrite Tick_Error_run. cbn zeta.
    repeat match goal with |- context [if ?b then _ else _] => destruct b end;
      cbn [snd]; rewrite ?CalculateNewValue_Error_cout; cbn [with_TickBuffer cout];
      try apply Hcalc; apply Hnone.
  - unfold TickIfEnabled. unfold bind at 1. unfold get at 1. cbn [fst snd].
    destruct (IsEnabled (self w)); [|apply Hnone].
    rewrite Tick_run. cbn zeta.
    repeat match goal with |- context [if ?b then _ else _] => destruct b end;
      cbn [snd]; rewrite ?CalculateNewValue_cout; cbn [with_TickBuffer cout];
      try apply Hcalc; apply Hnone.
  - unfold TickIfEnabled_Error. unfold bind at 1. unfold get at 1. cbn [fst snd].
    destruct (IsEnabled (self w)); [|apply Hnone].
    rewrite Tick_Error_run. cbn zeta.
    repeat match goal with |- context [if ?b then _ else _] => destruct b end;
      cbn [snd]; rewrite ?CalculateNewValue_Error_cout; cbn [with_TickBuffer cout];
      try apply Hcalc; apply Hnone.
  - rewrite SetPeriodicDuration_run. apply Hset.
  - rewrite SetEnabled_run. apply Hset.
  - rewrite SetAveragingBufferSize_run. apply Hset.
  - apply Hset.
  - apply Hset.
  - apply Hset.
  - apply Hset.
  - apply Hset.
  - apply Hset.
Qed.

(** X9: the controller only ever appends its one diagnostic line to the
    output stream: along every sequence of calls the stream is what it was
    followed by copies of "delta time nearly zero", at most one per call;
    and a sequence without calculation or tick calls (setters and member
    writes only) writes nothing. *)
Theorem cout_grows_by_diagnostics_only (calls : list Call) (w : World) :
  exists n : nat,
    (n <= List.length calls)%nat /\
    cout (after (perform_all calls) w) = cout w ++ repeat diagnostic n /\
    (forallb (fun c => negb (is_calculating_call c)) calls = true -> n = 0%nat).
Proof.
  revert w. induction calls as [|c calls IH]; intros w.
  - exists 0%nat. cbn. rewrite app_nil_r. repeat split; auto.
  - destruct (perform_cout c w) as (n1 & L1 & E1 & Z1).
    destruct (IH (after (perform c) w)) as (n2 & L2 & E2 & Z2).
    exists (n1 + n2)%nat. split; [cbn [List.length]; lia|]. split.
    + unfold after in *. cbn [perform_all]. unfold bind at 1. unfold bind at 1.
      cbn [snd ret]. rewrite E2, E1, repeat_app, app_assoc. reflexivity.
    + cbn [forallb]. intros H. apply andb_prop in H. destruct H as [Hc Hall].
      apply negb_true_iff in Hc. rewrite (Z1 Hc), (Z2 Hall). reflexivity.
Qed.

Lemma cout_grows_by_diagnostics_only_witness :
  let w := construct ["boot"%string] in
  let calls := [Call_SetPeriodicDuration f1; Call_SetEnabled false true;
                Write_P_Gain f0; Call_SetAveragingBufferSize 4] in
  forallb (fun c => negb (is_calculating_call c)) calls = true /\
  cout (after (perform_all calls) w) = ["boot"%string] /\
  cout (after (perform_all [Call_CalculateNewValue f1 f0 f0; Call_Tick_Error f1 f1]) w) =
    ["boot"%string; diagnostic].
Proof.
  intros w calls.
  assert (H : forallb (fun c => negb (is_calculating_call c)) calls = true)
    by (vm_compute; reflexivity).
  destruct (cout_grows_by_diagnostics_only calls w) as (n & _ & E & Z).
  split; [exact H|]. split.
  - rewrite E, (Z H). vm_compute. reflexivity.
  - vm_compute. reflexivity.
Defined.

(** ** The tolerance test *)

Lemma SFcompare_opp (x y : float) :
  SFcompare (SFopp x) (SFopp y) = SFcompare y x.
Proof.
  destruct x as [sx|sx| |sx mx ex], y as [sy|sy| |sy my ey]; cbn;
    try reflexivity;
    try (destruct sx; reflexivity); try (destruct sy; reflexivity);
    try (destruct sx, sy; reflexivity).
  change (Pos.compare_cont Eq mx my) with (Pos.compare mx my).
  change (Pos.compare_cont Eq my mx) with (Pos.compare my mx).
  rewrite (Pos.compare_antisym mx my), (Z.compare_antisym ex ey).
  destruct sx, sy; cbn; try reflexivity;
    destruct (ex ?= ey)%Z; cbn; try reflexivity;
    destruct (mx ?= my)%positive; reflexivity.
Qed.

(** X10: IsNearlyZero is exactly the open interval test
    -0.00001f < value < 0.00001f (the comparison with 0.f adds nothing); it
    gives the same answer for value and -value; it is false for a NaN and
    for the infinities; and the tolerance itself is not nearly zero. *)
Theorem IsNearlyZero_is_open_interval (value : float) :
  IsNearlyZero value =
    fgt value (fneg ZeroThresholdRadius) && flt value ZeroThresholdRadius /\
  IsNearlyZero (fneg value) = IsNearlyZero value /\
  (is_finite value = false -> IsNearlyZero value = false) /\
  IsNearlyZero ZeroThresholdRadius = false /\
  IsNearlyZero (fneg ZeroThresholdRadius) = false.
Proof.
  assert (Hint : forall x, IsNearlyZero x =
            fgt x (fneg ZeroThresholdRadius) && flt x ZeroThresholdRadius).
  { intros x. unfold IsNearlyZero. destruct (feq x f0) eqn:E; [|reflexivity].
    destruct (feq_zero_inv x E) as [-> | ->]; reflexivity. }
  split; [apply Hint|]. split; [|split; [|split]].
  - rewrite !Hint. unfold fgt, flt, SFltb, fneg.
    rewrite SFcompare_opp.
    change ZeroThresholdRadius with (SFopp (SFopp ZeroThresholdRadius)) at 2.
    rewrite SFcompare_opp. apply andb_comm.
  - destruct value as [s|s| |s m e]; try discriminate; intros _.
    + destruct s; reflexivity.
    + reflexivity.
  - vm_compute. reflexivity.
  - vm_compute. reflexivity.
Qed.

Lemma IsNearlyZero_is_open_interval_witness :
  is_finite (S754_infinity false) = false /\
  IsNearlyZero (S754_infinity false) = false /\
  IsNearlyZero (fneg (of_ratio 1 200000)) = IsNearlyZero (of_ratio 1 200000) /\
  IsNearlyZero (of_ratio 1 200000) = true.
Proof.
  assert (H : is_finite (S754_infinity false) = false) by reflexivity.
  destruct (IsNearlyZero_is_open_interval (S754_infinity false)) as (_ & _ & A & _).
  destruct (IsNearlyZero_is_open_interval (of_ratio 1 200000)) as (_ & B & _).
  split; [exact H|]. split; [exact (A H)|]. split; [exact B|].
  vm_compute. reflexivity.
Defined.

(** ** The rolling window along direct calculations *)

Lemma direct_calculation_effect (c : Call) (w : World) :
  is_direct_calculation c = true ->
  exists (y : float) (s1 : FPIDController),
    perform c w = (Ret_float y, mkWorld (cache y s1) (cout w)) /\
    _CalculationAveragingBuffer s1 = _CalculationAveragingBuffer (self w) /\
    _CalculationAverageBufferSize s1 = _CalculationAverageBufferSize (self w).
Proof.
  intros Hc. destruct c; try discriminate; cbn [is_direct_calculation] in Hc;
    apply negb_true_iff in Hc; unfold perform; unfold bind at 1; cbn [ret].
  - rewrite CalculateNewValue_run by assumption. cbn zeta. cbn [fst snd].
    do 2 eexists. split; [reflexivity|].
    destruct (integrated_frame (self w) (fsub TargetSetpoint CurrentValue) DeltaTime)
      as (_ & _ & _ & _ & _ & _ & Eb & En & _).
    split; cbn; assumption.
  - rewrite CalculateNewValue_Error_run by assumption. cbn zeta. cbn [fst snd].
    do 2 eexists. split; [reflexivity|].
    destruct (integrated_frame (self w) Error DeltaTime)
      as (_ & _ & _ & _ & _ & _ & Eb & En & _).
    split; cbn; assumption.
Qed.

Lemma direct_calculations_window (calls : list Call) (w : World) :
  buffer_filled (self w) ->
  (1 < _CalculationAverageBufferSize (self w))%Z ->
  forallb is_direct_calculation calls = true ->
  let r := perform_all calls w in
  _CalculationAverageBufferSize (self (snd r)) = _CalculationAverageBufferSize (self w) /\
  buffer_filled (self (snd r)) /\
  List.length (outputs (fst r)) = List.length calls /\
  _CalculationAveragingBuffer (self (snd r)) =
    skipn (List.length calls) (_CalculationAveragingBuffer (self w) ++ outputs (fst r)).
Proof.
  revert w. induction calls as [|c calls IH]; intros w Hf Hn Hall.
  - cbn. rewrite app_nil_r. auto.
  - cbn [forallb] in Hall. apply andb_prop in Hall. destruct Hall as [Hc Hall].
    destruct (direct_calculation_effect c w Hc) as (y & s1 & E & Eb & En).
    set (w1 := mkWorld (cache y s1) (cout w)) in *.
    assert (Er : perform_all (c :: calls) w =
                 (Ret_float y :: fst (perform_all calls w1), snd (perform_all calls w1))).
    { cbn [perform_all]. unfold bind at 1. rewrite E. cbn [fst snd].
      unfold bind at 1. reflexivity. }
    cbn zeta. rewrite Er. cbn [fst snd outputs returned_float List.length].
    assert (Hn1 : _CalculationAverageBufferSize (self w1) =
                  _CalculationAverageBufferSize (self w)).
    { cbn. destruct (cache_frame y s1) as (_ & _ & _ & _ & _ & _ & E7 & _).
      rewrite E7. exact En. }
    assert (Hf1 : buffer_filled (self w1)).
    { cbn. apply buffer_filled_cache. unfold buffer_filled. rewrite Eb, En. exact Hf. }
    assert (Hb1 : _CalculationAveragingBuffer (self w1) =
                  tl (_CalculationAveragingBuffer (self w) ++ [y])).
    { cbn. unfold cache, GetAveragingBufferSize. cbn.
      rewrite En. destruct (_ >? 1) eqn:G; [cbn; rewrite Eb; reflexivity|].
      rewrite Z.gtb_ltb, Z.ltb_ge in G. lia. }
    destruct (IH w1 Hf1 ltac:(rewrite Hn1; exact Hn) Hall) as (A & B & C & D).
    cbn zeta in A, B, C, D.
    split; [rewrite A; exact Hn1|]. split; [exact B|]. split; [rewrite C; reflexivity|].
    rewrite D, Hb1.
    unfold buffer_filled in Hf.
    destruct (_CalculationAveragingBuffer (self w)) as [|a l] eqn:Ew.
    + cbn in Hf. lia.
    + cbn [app tl skipn]. rewrite <- app_assoc. reflexivity.
Qed.

(** X11: the averaging window is a rolling window of the latest outputs.
    On a reachable controller with averaging size n > 1, after any run of
    direct calculations that are not turned away, the window is the old
    window followed by the returned values with as many of the oldest
    entries dropped; once at least n calculations have run it holds exactly
    the last n returned values, oldest first; the average is the mean of
    that window and the size is unchanged. *)
Theorem window_holds_latest_outputs (calls : list Call) (w : World) :
  reachable w ->
  (1 < GetAveragingBufferSize (self w))%Z ->
  forallb is_direct_calculation calls = true ->
  let n := Z.to_nat (GetAveragingBufferSize (self w)) in
  let r := perform_all calls w in
  let outs := outputs (fst r) in
  List.length outs = List.length calls /\
  GetAveragingBufferSize (self (snd r)) = GetAveragingBufferSize (self w) /\
  _CalculationAveragingBuffer (self (snd r)) =
    skipn (List.length outs) (_CalculationAveragingBuffer (self w) ++ outs) /\
  ((n <= List.length outs)%nat ->
   _CalculationAveragingBuffer (self (snd r)) = skipn (List.length outs - n) outs) /\
  GetAverageCalculatedValue (self (snd r)) =
    mean (_CalculationAveragingBuffer (self (snd r))).
Proof.
  intros Hw Hn Hall n r outs.
  pose proof (reachable_buffer_filled w Hw) as Hf.
  destruct (direct_calculations_window calls w Hf Hn Hall) as (A & B & C & D).
  fold r in A, B, C, D. fold outs in C, D.
  split; [exact C|]. split; [exact A|]. split; [rewrite C; exact D|]. split.
  - intros Hle. rewrite D, <- C, skipn_app.
    unfold buffer_filled in Hf. fold (GetAveragingBufferSize (self w)) in Hf.
    fold n in Hf. rewrite Hf.
    rewrite skipn_all2 by lia. reflexivity.
  - rewrite (GetAverageCalculatedValue_filled _ B).
    unfold GetAveragingBufferSize in *. rewrite A.
    destruct (_ <=? 1) eqn:G; [|reflexivity].
    apply Z.leb_le in G. lia.
Qed.

Lemma window_holds_latest_outputs_witness :
  let w := after (perform (Call_SetAveragingBufferSize 2)) (construct []) in
  let calls := [Call_CalculateNewValue_Error (of_ratio 1 4) f1;
                Call_CalculateNewValue f1 (of_ratio 1 2) f1;
                Call_CalculateNewValue_Error (of_ratio 3 4) f1] in
  reachable w /\
  (1 < GetAveragingBufferSize (self w))%Z /\
  forallb is_direct_calculation calls = true /\
  outputs (fst (perform_all calls w)) = [of_ratio 1 4; of_ratio 1 2; of_ratio 3 4] /\
  _CalculationAveragingBuffer (self (snd (perform_all calls w))) =
    [of_ratio 1 2; of_ratio 3 4] /\
  GetAverageCalculatedValue (self (snd (perform_all calls w))) = of_ratio 5 8.
Proof.
  intros w calls.
  assert (H1 : reachable w) by (unfold w; apply reachable_perform, reachable_construct).
  assert (H2 : (1 < GetAveragingBufferSize (self w))%Z) by (vm_compute; reflexivity).
  assert (H3 : forallb is_direct_calculation calls = true) by (vm_compute; reflexivity).
  assert (H4 : outputs (fst (perform_all calls w)) =
               [of_ratio 1 4; of_ratio 1 2; of_ratio 3 4]) by (vm_compute; reflexivity).
  destruct (window_holds_latest_outputs calls w H1 H2 H3) as (_ & _ & _ & L & M).
  cbn zeta in L, M.
  assert (Hlen : (Z.to_nat (GetAveragingBufferSize (self w)) <=
                  List.length (outputs (fst (perform_all calls w))))%nat)
    by (rewrite H4; vm_compute; lia).
  split; [exact H1|]. split; [exact H2|]. split; [exact H3|]. split; [exact H4|].
  split.
  - rewrite (L Hlen), H4. vm_compute. reflexivity.
  - rewrite M, (L Hlen), H4. vm_compute. reflexivity.
Defined.

(** ** The tick buffer is never negative for elapsed times *)

Lemma perform_tick_buffer_nonneg (c : Call) (w : World) :
  passes_elapsed_time c = true ->
  valid (PeriodicDuration (self w)) = true ->
  is_finite (PeriodicDuration (self w)) = true ->
  valid (_TickBuffer (self w)) = true ->
  fle f0 (_TickBuffer (self w)) = true ->
  PeriodicDuration (self (after (perform c) w)) = PeriodicDuration (self w) /\
  valid (_TickBuffer (self (after (perform c) w))) = true /\
  fle f0 (_TickBuffer (self (after (perform c) w))) = true.
Proof.
  intros Hc HvT HfT Hvb Hb.
  set (Inv := fun s : FPIDController =>
                PeriodicDuration s = PeriodicDuration (self w) /\
                valid (_TickBuffer s) = true /\ fle f0 (_TickBuffer s) = true).
  assert (I0 : Inv (self w)) by (repeat split; assumption).
  assert (Ii : forall s e dt, Inv s -> Inv (integrated s e dt)).
  { intros s e dt H. unfold Inv in *.
    destruct (integrated_frame s e dt) as (_ & _ & _ & _ & _ & E6 & _ & _ & E9 & _).
    rewrite E6, E9. exact H. }
  assert (Ie : forall s e, Inv s -> Inv (set_PreviousError e s)) by (intros s e H; exact H).
  assert (Ip : forall s c0, Inv s -> Inv (set_PreviousInput c0 s)) by (intros s c0 H; exact H).
  assert (Ic : forall s y, Inv s ->
            Inv (cache (clamp (ControlledValue_Min s) (ControlledValue_Max s) y) s)).
  { intros s y H. unfold Inv in *.
    destruct (cache_frame (clamp (ControlledValue_Min s) (ControlledValue_Max s) y) s)
      as (_ & _ & _ & _ & _ & E6 & _ & _ & E9 & _).
    rewrite E6, E9. exact H. }
  assert (Ia : forall s dt size, Inv s -> is_elapsed_time dt = true ->
            size = dt \/ size = PeriodicDuration s ->
            Inv (set_TickBuffer (snd (AccumulateBuffer (_TickBuffer s) dt size)) s)).
  { intros s dt size (H1 & H2 & H3) Hdt Hsize. unfold Inv. cbn.
    split; [exact H1|].
    apply AccumulateBuffer_nonneg; try assumption.
    - destruct Hsize as [-> | ->]; [|rewrite H1; exact HvT].
      unfold is_elapsed_time in Hdt. apply andb_prop in Hdt. destruct Hdt as [Hdt _].
      apply andb_prop in Hdt. apply Hdt.
    - destruct Hsize as [-> | ->]; [|rewrite H1; exact HfT].
      unfold is_elapsed_time in Hdt. apply andb_prop in Hdt. destruct Hdt as [Hdt _].
      apply andb_prop in Hdt. apply Hdt. }
  assert (IT : forall t c0 dt, is_elapsed_time dt = true ->
            Inv (self (after (Tick t c0 dt) w))).
  { intros t c0 dt Hdt. unfold after. rewrite Tick_run. cbn zeta.
    repeat match goal with |- context [if ?b then _ else _] => destruct b end;
      cbn [snd]; try apply (CalculateNewValue_preserves Inv Ii Ie Ip Ic);
      try exact I0; apply Ia; auto. }
  assert (ITe : forall e dt, is_elapsed_time dt = true ->
            Inv (self (after (Tick_Error e dt) w))).
  { intros e dt Hdt. unfold after. rewrite Tick_Error_run. cbn zeta.
    repeat match goal with |- context [if ?b then _ else _] => destruct b end;
      cbn [snd]; try apply (CalculateNewValue_Error_preserves Inv Ii Ie Ic);
      try exact I0; apply Ia; auto. }
  change (Inv (self (after (perform c) w))).
  destruct c; try discriminate; cbn [passes_elapsed_time DeltaTime_of] in Hc;
    unfold after, perform; unfold bind at 1; cbn [snd ret].
  - apply (CalculateNewValue_preserves Inv Ii Ie Ip Ic), I0.
  - apply (CalculateNewValue_Error_preserves Inv Ii Ie Ic), I0.
  - apply IT, Hc.
  - apply ITe, Hc.
  - unfold TickIfEnabled. unfold bind at 1. unfold get at 1. cbn [fst snd].
    destruct (IsEnabled (self w)); [apply IT, Hc | exact I0].
  - unfold TickIfEnabled_Error. unfold bind at 1. unfold get at 1. cbn [fst snd].
    destruct (IsEnabled (self w)); [apply ITe, Hc | exact I0].
Qed.

(** X12: with a finite period, the tick buffer never becomes negative
    under elapsed times: if it starts at a non-negative value (as after
    construction or re-enabling), then after every sequence of
    calculation, tick and gated-tick calls whose DeltaTime is finite and
    not negative it is again non-negative (and the period is unchanged). *)
Theorem tick_buffer_never_negative (calls : list Call) (w : World) :
  valid (PeriodicDuration (self w)) = true ->
  is_finite (PeriodicDuration (self w)) = true ->
  valid (_TickBuffer (self w)) = true ->
  fle f0 (_TickBuffer (self w)) = true ->
  forallb passes_elapsed_time calls = true ->
  fle f0 (_TickBuffer (self (after (perform_all calls) w))) = true /\
  valid (_TickBuffer (self (after (perform_all calls) w))) = true /\
  PeriodicDuration (self (after (perform_all calls) w)) = PeriodicDuration (self w).
Proof.
  revert w. induction calls as [|c calls IH]; intros w HvT HfT Hvb Hb Hall.
  - repeat split; assumption.
  - cbn [forallb] in Hall. apply andb_prop in Hall. destruct Hall as [Hc Hall].
    destruct (perform_tick_buffer_nonneg c w Hc HvT HfT Hvb Hb) as (E & V & N).
    assert (Ea : after (perform_all (c :: calls)) w =
                 after (perform_all calls) (after (perform c) w)).
    { unfold after. cbn [perform_all]. unfold bind at 1. unfold bind at 1.
      reflexivity. }
    rewrite Ea.
    destruct (IH (after (perform c) w)) as (A & B & C); try assumption;
      try (rewrite E; assumption).
    rewrite C, E. repeat split; assumption.
Qed.

Lemma tick_buffer_never_negative_witness :
  let w := construct [] in
  let calls := [Call_Tick f1 f0 (of_ratio 15 100); Call_Tick f1 f0 (of_ratio 3 10);
                Call_Tick_Error f1 (of_ratio 15 100); Call_CalculateNewValue f1 f0 f0] in
  valid (PeriodicDuration (self w)) = true /\
  is_finite (PeriodicDuration (self w)) = true /\
  valid (_TickBuffer (self w)) = true /\
  fle f0 (_TickBuffer (self w)) = true /\
  forallb passes_elapsed_time calls = true /\
  fle f0 (_TickBuffer (self (after (perform_all calls) w))) = true.
Proof.
  intros w calls.
  assert (H1 : valid (PeriodicDuration (self w)) = true) by (vm_compute; reflexivity).
  assert (H2 : is_finite (PeriodicDuration (self w)) = true) by (vm_compute; reflexivity).
  assert (H3 : valid (_TickBuffer (self w)) = true) by (vm_compute; reflexivity).
  assert (H4 : fle f0 (_TickBuffer (self w)) = true) by (vm_compute; reflexivity).
  assert (H5 : forallb passes_elapsed_time calls = true) by (vm_compute; reflexivity).
  destruct (tick_buffer_never_negative calls w H1 H2 H3 H4 H5) as [A _].
  split; [exact H1|]. split; [exact H2|]. split; [exact H3|]. split; [exact H4|].
  split; [exact H5|]. exact A.
Defined.

(** ** Resizing and re-enabling *)

Lemma fold_fadd_zeros (k : nat) : fold_left fadd (repeat f0 k) f0 = f0.
Proof. induction k as [|k IH]; [reflexivity|]. cbn [repeat fold_left]. exact IH. Qed.

Lemma fdiv_f0_of_int (n : Z) : (0 < n)%Z -> fdiv f0 (of_int n) = f0.
Proof.
  intros Hn. destruct (of_int_positive n Hn) as [-> | (m & e & ->)]; reflexivity.
Qed.

Lemma GetAverageCalculatedValue_zeros (s : FPIDController) :
  (1 < _CalculationAverageBufferSize s)%Z ->
  _CalculationAveragingBuffer s = repeat f0 (Z.to_nat (_CalculationAverageBufferSize s)) ->
  GetAverageCalculatedValue s = f0.
Proof.
  intros Hn Hb. unfold GetAverageCalculatedValue, GetAveragingBufferSize.
  destruct (_ <=? 1) eqn:G; [apply Z.leb_le in G; lia|].
  rewrite average_loop_fold, Hb. cbn [skipn].
  rewrite firstn_all2 by (rewrite repeat_length; lia).
  rewrite fold_fadd_zeros. apply fdiv_f0_of_int. lia.
Qed.

(** X13: SetAveragingBufferSize(n) with n >= 0 returns, changes the
    averaging size and the window and nothing else (the last output
    stays), and restarts the average: for n > 1 the window is n zeros and
    GetAverageCalculatedValue is 0, whatever the last output was; for
    n <= 1 the average is the last output; for n = 0 the window is empty.
    With n < 0 the call does not return: reserve throws std::length_error,
    after the size has been stored and the vector cleared. *)
Theorem SetAveragingBufferSize_restarts_average (w : World) (n : Z) :
  let w' := after (SetAveragingBufferSize n) w in
  ((0 <= n)%Z ->
   result (SetAveragingBufferSize n) w = Returns /\
   w' = mkWorld (set_CalculationAveragingBuffer (repeat f0 (Z.to_nat n))
                   (set_CalculationAverageBufferSize n (self w))) (cout w) /\
   GetLastCalculatedValue (self w') = GetLastCalculatedValue (self w) /\
   ((1 < n)%Z -> GetAverageCalculatedValue (self w') = f0) /\
   ((n <= 1)%Z ->
    GetAverageCalculatedValue (self w') = GetLastCalculatedValue (self w)) /\
   (n = 0%Z -> _CalculationAveragingBuffer (self w') = [])) /\
  ((n < 0)%Z ->
   result (SetAveragingBufferSize n) w = Throws_length_error /\
   w' = mkWorld (set_CalculationAveragingBuffer []
                   (set_CalculationAverageBufferSize n (self w))) (cout w)).
Proof.
  cbn zeta. unfold after, result. rewrite SetAveragingBufferSize_run. cbn [fst snd].
  unfold reserved. split; intros Hn.
  - assert (E : (n <? 0)%Z = false) by (apply Z.ltb_ge; exact Hn). rewrite E.
    split; [reflexivity|]. split; [reflexivity|]. split; [reflexivity|].
    split; [|split].
    + intros H1. apply GetAverageCalculatedValue_zeros; [exact H1|reflexivity].
    + intros H1. unfold GetAverageCalculatedValue, GetAveragingBufferSize. cbn.
      destruct (n <=? 1)%Z eqn:G; [reflexivity|]. apply Z.leb_gt in G. lia.
    + intros ->. reflexivity.
  - assert (E : (n <? 0)%Z = true) by (apply Z.ltb_lt; exact Hn). rewrite E.
    split; [reflexivity|].
    unfold cleared_buffer. cbn.
    assert (Z.to_nat n = 0%nat) as -> by lia. reflexivity.
Qed.

Lemma SetAveragingBufferSize_restarts_average_witness :
  let w := after (CalculateNewValue_Error (of_ratio 3 4) f1) (construct []) in
  (0 <= 5)%Z /\ (1 < 5)%Z /\ (0 <= 0)%Z /\ (0 <= 1)%Z /\ (-1 < 0)%Z /\
  GetAverageCalculatedValue (self w) = of_ratio 3 4 /\
  result (SetAveragingBufferSize 5) w = Returns /\
  GetAverageCalculatedValue (self (after (SetAveragingBufferSize 5) w)) = f0 /\
  GetLastCalculatedValue (self (after (SetAveragingBufferSize 5) w)) = of_ratio 3 4 /\
  GetAverageCalculatedValue (self (after (SetAveragingBufferSize 0) w)) = of_ratio 3 4 /\
  result (SetAveragingBufferSize (-1)) w = Throws_length_error /\
  _CalculationAveragingBuffer (self (after (SetAveragingBufferSize (-1)) w)) = [].
Proof.
  intros w.
  assert (H0 : (0 <= 5)%Z) by lia.
  assert (H1 : (1 < 5)%Z) by lia.
  assert (H2 : (0 <= 0)%Z) by lia.
  assert (H3 : (0 <= 1)%Z) by lia.
  assert (H4 : (-1 < 0)%Z) by lia.
  destruct (SetAveragingBufferSize_restarts_average w 5) as [P5 _].
  destruct (P5 H0) as (R & _ & L & A & _).
  destruct (SetAveragingBufferSize_restarts_average w 0) as [P0 _].
  destruct (P0 H2) as (_ & _ & _ & _ & B & _).
  destruct (SetAveragingBufferSize_restarts_average w (-1)) as [_ N1].
  destruct (N1 H4) as (T & E).
  split; [exact H0|]. split; [exact H1|]. split; [exact H2|]. split; [exact H3|].
  split; [exact H4|]. split; [vm_compute; reflexivity|].
  split; [exact R|]. split; [exact (A H1)|]. split; [|split; [|split]].
  - rewrite L. vm_compute. reflexivity.
  - rewrite (B H3). vm_compute. reflexivity.
  - exact T.
  - rewrite E. reflexivity.
Defined.

(** X14: enabling a disabled controller resets the run-time state and
    nothing of the tuning: the gains, the output bounds, the period and the
    averaging size are kept, the flag is set, the tick buffer, the integral
    accumulator, the previous error, input and output are 0, the window is
    refilled with zeros, and both GetLastCalculatedValue and
    GetAverageCalculatedValue answer 0. *)
Theorem SetEnabled_reenable_resets_run_time_state (w : World) (c : bool) :
  IsEnabled (self w) = false ->
  let s := self w in
  let w' := after (SetEnabled true c) w in
  w' = mkWorld
         (mkFPIDController (P_Gain s) (I_Gain s) (D_Gain s)
            (ControlledValue_Max s) (ControlledValue_Min s) (PeriodicDuration s)
            (repeat f0 (Z.to_nat (_CalculationAverageBufferSize s)))
            (_CalculationAverageBufferSize s) true f0 f0 f0 f0 f0)
         (cout w) /\
  GetLastCalculatedValue (self w') = f0 /\
  GetAverageCalculatedValue (self w') = f0.
Proof.
  intros Hoff s w'. subst w' s. unfold after. rewrite SetEnabled_run, Hoff.
  cbn [negb andb snd].
  split; [reflexivity|]. split; [reflexivity|].
  destruct (Z_lt_le_dec 1 (_CalculationAverageBufferSize (self w))) as [Hn | Hn].
  - apply GetAverageCalculatedValue_zeros; [exact Hn|reflexivity].
  - unfold GetAverageCalculatedValue, GetAveragingBufferSize. cbn.
    destruct (_ <=? 1) eqn:G; [reflexivity|]. apply Z.leb_gt in G. lia.
Qed.

Lemma SetEnabled_reenable_resets_run_time_state_witness :
  let w := after (SetEnabled false false)
             (after (CalculateNewValue (of_int 3) f1 f1)
                (after (SetAveragingBufferSize 3)
                   (construct_gains (of_int 2) f1 f1 (of_int 9) f0 f1 []))) in
  IsEnabled (self w) = false /\
  GetLastCalculatedValue (self w) = of_int 5 /\
  self (after (SetEnabled true false) w) =
    mkFPIDController (of_int 2) f1 f1 (of_int 9) f0 f1 [f0; f0; f0] 3 true
      f0 f0 f0 f0 f0 /\
  GetAverageCalculatedValue (self (after (SetEnabled true false) w)) = f0.
Proof.
  intros w.
  assert (H : IsEnabled (self w) = false) by (vm_compute; reflexivity).
  destruct (SetEnabled_reenable_resets_run_time_state w false H) as (E & _ & A).
  cbn zeta in E, A.
  split; [exact H|]. split; [vm_compute; reflexivity|]. split.
  - rewrite E. vm_compute. reflexivity.
  - exact A.
Defined.

(** ** The two overloads without derivative action *)

(** X15: when the derivative gain is nearly zero, the setpoint/measurement
    overload is the error overload applied to TargetSetpoint - CurrentValue:
    the returned value and the written diagnostics are the same, and the
    objects differ only in the previous input, which the measurement
    overload records (when it is not turned away) and the error overload
    never touches. *)
Theorem overloads_agree_without_derivative (w : World) (t c dt : float) :
  IsNearlyZero (D_Gain (self w)) = true ->
  let r := CalculateNewValue t c dt w in
  let r' := CalculateNewValue_Error (fsub t c) dt w in
  fst r = fst r' /\
  cout (snd r) = cout (snd r') /\
  self (snd r) =
    set_PreviousInput (if IsNearlyZero dt then GetPreviousInput (self w) else c)
      (self (snd r')) /\
  GetPreviousInput (self (snd r')) = GetPreviousInput (self w).
Proof.
  intros HD r r'. subst r r'.
  destruct (IsNearlyZero dt) eqn:Hdt.
  - rewrite CalculateNewValue_nearly_zero, CalculateNewValue_Error_nearly_zero
      by assumption.
    cbn [fst snd diagnosed self cout]. repeat split.
    destruct (self w); reflexivity.
  - rewrite CalculateNewValue_run, CalculateNewValue_Error_run by assumption.
    cbn zeta. cbn [fst snd self cout].
    assert (ED : D_Gain (integrated (self w) (fsub t c) dt) = D_Gain (self w))
      by apply integrated_frame.
    unfold derivative_of_input, derivative_of_error.
    rewrite ED, HD, !orb_true_r.
    split; [reflexivity|]. split; [reflexivity|].
    set (s1 := integrated (self w) (fsub t c) dt).
    assert (EI : _PreviousInput s1 = _PreviousInput (self w)).
    { subst s1. unfold integrated.
      destruct (IsNearlyZero (I_Gain (self w))); reflexivity. }
    set (y := clamp _ _ _).
    split.
    + unfold cache, GetAveragingBufferSize. cbn.
      destruct (_ >? 1); reflexivity.
    + unfold GetPreviousInput, cache, GetAveragingBufferSize. cbn.
      destruct (_ >? 1); cbn; exact EI.
Qed.

Lemma overloads_agree_without_derivative_witness :
  let w := construct_gains (of_int 2) f1 f0 (of_int 10) f0 f1 [] in
  IsNearlyZero (D_Gain (self w)) = true /\
  result (CalculateNewValue (of_int 3) f1 f1) w =
    result (CalculateNewValue_Error (fsub (of_int 3) f1) f1) w /\
  result (CalculateNewValue (of_int 3) f1 f1) w = of_int 6.
Proof.
  intros w.
  assert (H : IsNearlyZero (D_Gain (self w)) = true) by (vm_compute; reflexivity).
  destruct (overloads_agree_without_derivative w (of_int 3) f1 f1 H) as (E & _).
  split; [exact H|]. split; [exact E|]. vm_compute. reflexivity.
Defined.

(** ** The size of the window *)

(** only SetAveragingBufferSize changes the averaging size *)
Lemma perform_size (c : Call) (w : World) :
  _CalculationAverageBufferSize (self (after (perform c) w)) =
  match c with
  | Call_SetAveragingBufferSize n => n
  | _ => _CalculationAverageBufferSize (self w)
  end.
Proof.
  set (Inv := fun s : FPIDController =>
                _CalculationAverageBufferSize s = _CalculationAverageBufferSize (self w)).
  assert (Hcalc : is_calculating_call c = true -> Inv (self (after (perform c) w))).
  { intros Hc. apply calculating_call_preserves; try exact Hc; try reflexivity.
    - intros s e dt H. unfold Inv in *.
      destruct (integrated_frame s e dt) as (_ & _ & _ & _ & _ & _ & _ & E & _).
      rewrite E. exact H.
    - intros s e H. exact H.
    - intros s c0 H. exact H.
    - intros s y H. unfold Inv in *.
      destruct (cache_frame (clamp (ControlledValue_Min s) (ControlledValue_Max s) y) s)
        as (_ & _ & _ & _ & _ & _ & E & _).
      rewrite E. exact H.
    - intros s dt size H. exact H. }
  destruct c; try (apply Hcalc; reflexivity);
    unfold after, perform; unfold bind at 1; cbn [snd ret].
  - rewrite SetPeriodicDuration_run. cbn [snd self].
    destruct (rescales _ _); reflexivity.
  - rewrite SetEnabled_run. cbn [snd self].
    destruct (negb _ && _); reflexivity.
  - rewrite SetAveragingBufferSize_run. reflexivity.
  - reflexivity.
  - reflexivity.
  - reflexivity.
  - reflexivity.
  - reflexivity.
  - reflexivity.
Qed.

(** a call that leaves a negative size where there was none has thrown *)
Lemma perform_size_nonneg (c : Call) (w : World) :
  (0 <= _CalculationAverageBufferSize (self w))%Z ->
  result (perform c) w <> Ret_length_error ->
  (0 <= _CalculationAverageBufferSize (self (after (perform c) w)))%Z.
Proof.
  intros H0 Hr. rewrite perform_size.
  destruct c; try exact H0.
  unfold result, perform in Hr. unfold bind at 1 in Hr.
  rewrite SetAveragingBufferSize_run in Hr. cbn [fst snd ret] in Hr.
  unfold reserved in Hr.
  destruct (AveragingBufferSize <? 0)%Z eqn:E; [elim Hr; reflexivity|].
  apply Z.ltb_ge in E. exact E.
Qed.

Lemma perform_all_cons (c : Call) (calls : list Call) (w : World) :
  perform_all (c :: calls) w =
  (result (perform c) w :: result (perform_all calls) (after (perform c) w),
   after (perform_all calls) (after (perform c) w)).
Proof. reflexivity. Qed.

(** X16: the averaging vector always matches the averaging size.  On
    every object the owner can reach, and after any further sequence of
    calls of any kind, it holds exactly GetAveragingBufferSize() entries
    when the size is positive and none otherwise.  Along a run in which no
    call threw, from an object whose size is not negative (after
    construction it is 1), the size is never negative and the vector
    holds exactly that many entries: a negative size is only ever left by
    a SetAveragingBufferSize call that threw std::length_error, and the
    vector is empty then. *)
Theorem window_length_matches_size (w : World) (calls : list Call) :
  reachable w ->
  let s' := self (after (perform_all calls) w) in
  Z.of_nat (List.length (_CalculationAveragingBuffer s')) =
    Z.max 0 (GetAveragingBufferSize s') /\
  ((0 <= GetAveragingBufferSize (self w))%Z ->
   ~ In Ret_length_error (result (perform_all calls) w) ->
   (0 <= GetAveragingBufferSize s')%Z /\
   Z.of_nat (List.length (_CalculationAveragingBuffer s')) =
     GetAveragingBufferSize s').
Proof.
  intros Hw s'. subst s'.
  assert (Hr : reachable (after (perform_all calls) w)).
  { revert w Hw. induction calls as [|c calls IH]; intros w Hw.
    - exact Hw.
    - unfold after. rewrite perform_all_cons. cbn [snd].
      apply IH, reachable_perform, Hw. }
  pose proof (reachable_buffer_filled _ Hr) as Hf.
  unfold buffer_filled in Hf. unfold GetAveragingBufferSize. rewrite Hf.
  split; [lia|]. intros H0 Hno.
  assert (Hs : (0 <= _CalculationAverageBufferSize
                        (self (after (perform_all calls) w)))%Z).
  { clear Hf Hr Hw. revert w H0 Hno.
    induction calls as [|c calls IH]; intros w H0 Hno.
    - exact H0.
    - unfold after, result in *. rewrite perform_all_cons in *. cbn [fst snd] in *.
      apply IH.
      + apply perform_size_nonneg; [exact H0|].
        intros E. apply Hno. left. exact E.
      + intros Hin. apply Hno. right. exact Hin. }
  split; [exact Hs|]. lia.
Qed.

Lemma window_length_matches_size_witness :
  let w := construct [] in
  let calls := [Call_SetAveragingBufferSize 4; Call_CalculateNewValue_Error f1 f1;
                Call_SetEnabled false false; Call_SetEnabled true false] in
  reachable w /\
  (0 <= GetAveragingBufferSize (self w))%Z /\
  ~ In Ret_length_error (result (perform_all calls) w) /\
  Z.of_nat (List.length (_CalculationAveragingBuffer
                           (self (after (perform_all calls) w)))) = 4%Z /\
  GetAveragingBufferSize (self (after (perform_all calls) w)) = 4%Z.
Proof.
  intros w calls.
  assert (H : reachable w) by apply reachable_construct.
  assert (H0 : (0 <= GetAveragingBufferSize (self w))%Z) by (vm_compute; discriminate).
  assert (Hno : ~ In Ret_length_error (result (perform_all calls) w)).
  { vm_compute. intros [E | [E | [E | [E | []]]]]; discriminate. }
  destruct (window_length_matches_size w calls H) as [_ E].
  destruct (E H0 Hno) as [_ L].
  split; [exact H|]. split; [exact H0|]. split; [exact Hno|]. split.
  - rewrite L. vm_compute. reflexivity.
  - vm_compute. reflexivity.
Defined.

(** ** Misordered output bounds *)

(** X17: with misordered output bounds (maximum < minimum, as when the two
    constructor arguments are swapped) the clamp has no interior: every
    calculation that is not turned away returns the maximum or the minimum
    (or NaN), whatever the inputs and gains are. *)
Theorem misordered_bounds_collapse_output
    (w : World) (t c e dt : float) (r : float) :
  flt (ControlledValue_Max (self w)) (ControlledValue_Min (self w)) = true ->
  IsNearlyZero dt = false ->
  r = result (CalculateNewValue t c dt) w \/
  r = result (CalculateNewValue_Error e dt) w ->
  is_nan r = true \/
  r = ControlledValue_Max (self w) \/ r = ControlledValue_Min (self w).
Proof.
  intros Hmis Hdt Hr.
  assert (Hc : forall x, is_nan (clamp (ControlledValue_Min (self w))
                                   (ControlledValue_Max (self w)) x) = true \/
                         clamp (ControlledValue_Min (self w))
                           (ControlledValue_Max (self w)) x =
                           ControlledValue_Max (self w) \/
                         clamp (ControlledValue_Min (self w))
                           (ControlledValue_Max (self w)) x =
                           ControlledValue_Min (self w)).
  { intros x. unfold clamp.
    destruct (fgt x (ControlledValue_Max (self w))) eqn:E1; [auto|].
    destruct (flt x (ControlledValue_Min (self w))) eqn:E2; [auto|].
    destruct (is_nan x) eqn:Hx; [auto|]. exfalso.
    destruct (fgt_not_nan _ _ Hmis) as [Hmin Hmax].
    pose proof (not_fgt_fle x _ Hx Hmax E1) as Hle.
    rewrite (fle_flt_trans _ _ _ Hle Hmis) in E2. discriminate. }
  unfold result in Hr.
  rewrite CalculateNewValue_run, CalculateNewValue_Error_run in Hr by assumption.
  cbn zeta in Hr. cbn [fst] in Hr.
  destruct (integrated_frame (self w) (fsub t c) dt) as (_ & _ & _ & EM & Em & _).
  destruct (integrated_frame (self w) e dt) as (_ & _ & _ & EM' & Em' & _).
  rewrite EM, Em, EM', Em' in Hr.
  destruct Hr as [-> | ->]; apply Hc.
Qed.

Lemma misordered_bounds_collapse_output_witness :
  let w := construct_gains f1 f0 f0 f0 f1 (of_ratio 2 10) [] in
  flt (ControlledValue_Max (self w)) (ControlledValue_Min (self w)) = true /\
  IsNearlyZero f1 = false /\
  result (CalculateNewValue_Error (of_ratio 1 2) f1) w = ControlledValue_Max (self w) /\
  result (CalculateNewValue_Error (of_ratio (-1) 2) f1) w = ControlledValue_Min (self w).
Proof.
  intros w.
  assert (H1 : flt (ControlledValue_Max (self w)) (ControlledValue_Min (self w)) = true)
    by (vm_compute; reflexivity).
  assert (H2 : IsNearlyZero f1 = false) by (vm_compute; reflexivity).
  pose proof (misordered_bounds_collapse_output w f0 f0 (of_ratio 1 2) f1 _ H1 H2
                (or_intror eq_refl)) as A.
  split; [exact H1|]. split; [exact H2|]. split.
  - destruct A as [A | [A | A]]; [|exact A|].
    + vm_compute in A. discriminate.
    + rewrite A. vm_compute in A. discriminate.
  - vm_compute. reflexivity.
Defined.

(** ** The entries of the window *)

(** X18: with ordered output bounds, if every entry of the averaging
    window starts within [Min, Max] (or NaN), as the zeros of a fresh window
    do when 0 lies within the bounds, then after every sequence of
    calculation, tick and gated-tick calls every entry is still within
    [Min, Max] (or NaN). *)
Theorem window_entries_stay_within (calls : list Call) (w : World) :
  let Min := ControlledValue_Min (self w) in
  let Max := ControlledValue_Max (self w) in
  fle Min Max = true ->
  Forall (within Min Max) (_CalculationAveragingBuffer (self w)) ->
  forallb is_calculating_call calls = true ->
  Forall (within Min Max)
    (_CalculationAveragingBuffer (self (after (perform_all calls) w))).
Proof.
  intros Min Max HMM Hwin Hall.
  enough (H : ControlledValue_Min (self (after (perform_all calls) w)) = Min /\
              ControlledValue_Max (self (after (perform_all calls) w)) = Max /\
              Forall (within Min Max)
                (_CalculationAveragingBuffer (self (after (perform_all calls) w))))
    by apply H.
  apply (calculating_calls_preserve
           (fun s => ControlledValue_Min s = Min /\ ControlledValue_Max s = Max /\
                     Forall (within Min Max) (_CalculationAveragingBuffer s)));
    try assumption.
  - intros s e dt (H1 & H2 & H3).
    destruct (integrated_frame s e dt) as (_ & _ & _ & EM & Em & _ & Eb & _).
    rewrite EM, Em, Eb. auto.
  - intros s e H. exact H.
  - intros s c H. exact H.
  - intros s y (H1 & H2 & H3).
    destruct (cache_frame (clamp (ControlledValue_Min s) (ControlledValue_Max s) y) s)
      as (_ & _ & _ & EM & Em & _).
    rewrite EM, Em. split; [exact H1|]. split; [exact H2|].
    unfold cache, GetAveragingBufferSize. cbn.
    destruct (_ >? 1); cbn; [|exact H3].
    assert (Hall' : Forall (within Min Max)
                      (_CalculationAveragingBuffer s ++
                       [clamp (ControlledValue_Min s) (ControlledValue_Max s) y])).
    { apply Forall_app. split; [exact H3|]. constructor; [|constructor].
      rewrite H1, H2. apply clamp_in_range, HMM. }
    destruct (_CalculationAveragingBuffer s ++
              [clamp (ControlledValue_Min s) (ControlledValue_Max s) y]);
      [constructor|].
    cbn [tl]. inversion Hall'; assumption.
  - intros s dt size H. exact H.
  - auto.
Qed.

Lemma window_entries_stay_within_witness :
  let w := after (SetAveragingBufferSize 2)
             (construct_gains (of_int 3) f0 f0 f1 fm1 f0 []) in
  let calls := [Call_Tick f1 f0 f1; Call_CalculateNewValue_Error (of_ratio (-1) 4) f1;
                Call_CalculateNewValue_Error (of_int (-7)) f1] in
  fle (ControlledValue_Min (self w)) (ControlledValue_Max (self w)) = true /\
  Forall (within fm1 f1) (_CalculationAveragingBuffer (self w)) /\
  forallb is_calculating_call calls = true /\
  Forall (within fm1 f1)
    (_CalculationAveragingBuffer (self (after (perform_all calls) w))) /\
  _CalculationAveragingBuffer (self (after (perform_all calls) w)) =
    [of_ratio (-3) 4; fm1].
Proof.
  intros w calls.
  assert (H1 : fle (ControlledValue_Min (self w)) (ControlledValue_Max (self w)) = true)
    by (vm_compute; reflexivity).
  assert (H2 : Forall (within fm1 f1) (_CalculationAveragingBuffer (self w)))
    by (repeat constructor; right; vm_compute; reflexivity).
  assert (H3 : forallb is_calculating_call calls = true) by (vm_compute; reflexivity).
  pose proof (window_entries_stay_within calls w H1 H2 H3) as A.
  split; [exact H1|]. split; [exact H2|]. split; [exact H3|]. split; [exact A|].
  vm_compute. reflexivity.
Defined.

(** ** The tick buffer stays within the period *)

Lemma perform_tick_buffer_within (c : Call) (w : World) :
  let T := PeriodicDuration (self w) in
  keeps_within_period T c = true ->
  valid T = true -> fgt T f0 = true -> is_finite (fadd T T) = true ->
  valid (_TickBuffer (self w)) = true ->
  fle f0 (_TickBuffer (self w)) = true ->
  fle (_TickBuffer (self w)) T = true ->
  PeriodicDuration (self (after (perform c) w)) = T /\
  valid (_TickBuffer (self (after (perform c) w))) = true /\
  fle f0 (_TickBuffer (self (after (perform c) w))) = true /\
  fle (_TickBuffer (self (after (perform c) w))) T = true.
Proof.
  intros T Hc VT PT F2 Vb Nb Hb.
  set (Inv := fun s : FPIDController =>
                PeriodicDuration s = T /\
                valid (_TickBuffer s) = true /\ fle f0 (_TickBuffer s) = true /\
                fle (_TickBuffer s) T = true).
  assert (I0 : Inv (self w)) by (repeat split; assumption).
  assert (Ii : forall s e dt, Inv s -> Inv (integrated s e dt)).
  { intros s e dt H. unfold Inv in *.
    destruct (integrated_frame s e dt) as (_ & _ & _ & _ & _ & E6 & _ & _ & E9 & _).
    rewrite E6, E9. exact H. }
  assert (Ie : forall s e, Inv s -> Inv (set_PreviousError e s)) by (intros s e H; exact H).
  assert (Ip : forall s c0, Inv s -> Inv (set_PreviousInput c0 s)) by (intros s c0 H; exact H).
  assert (Ic : forall s y, Inv s ->
            Inv (cache (clamp (ControlledValue_Min s) (ControlledValue_Max s) y) s)).
  { intros s y H. unfold Inv in *.
    destruct (cache_frame (clamp (ControlledValue_Min s) (ControlledValue_Max s) y) s)
      as (_ & _ & _ & _ & _ & E6 & _ & _ & E9 & _).
    rewrite E6, E9. exact H. }
  assert (Ia : forall dt, is_elapsed_time dt && fle dt T = true ->
            fgt dt T = false /\
            Inv (self (with_TickBuffer
                         (snd (AccumulateBuffer (_TickBuffer (self w)) dt T)) w))).
  { intros dt Hdt. apply andb_prop in Hdt. destruct Hdt as [Hdt HdT].
    split; [apply fle_not_fgt; exact HdT|].
    destruct (AccumulateBuffer_within (_TickBuffer (self w)) dt T
                Vb Nb Hb Hdt HdT VT PT F2) as (A & B & C).
    unfold Inv. cbn. repeat split; assumption. }
  assert (IT : forall t c0 dt, is_elapsed_time dt && fle dt T = true ->
            Inv (self (after (Tick t c0 dt) w))).
  { intros t c0 dt Hdt. destruct (Ia dt Hdt) as [Hover Hacc].
    unfold after. rewrite Tick_run. cbn zeta. fold T. rewrite PT, Hover.
    destruct (fst (AccumulateBuffer _ _ _)); cbn [snd]; [|exact Hacc].
    apply (CalculateNewValue_preserves Inv Ii Ie Ip Ic), Hacc. }
  assert (ITe : forall e dt, is_elapsed_time dt && fle dt T = true ->
            Inv (self (after (Tick_Error e dt) w))).
  { intros e dt Hdt. destruct (Ia dt Hdt) as [Hover Hacc].
    unfold after. rewrite Tick_Error_run. cbn zeta. fold T. rewrite PT, Hover.
    destruct (fst (AccumulateBuffer _ _ _)); cbn [snd]; [|exact Hacc].
    apply (CalculateNewValue_Error_preserves Inv Ii Ie Ic), Hacc. }
  change (Inv (self (after (perform c) w))).
  destruct c; try discriminate; cbn [keeps_within_period] in Hc;
    unfold after, perform; unfold bind at 1; cbn [snd ret].
  - apply (CalculateNewValue_preserves Inv Ii Ie Ip Ic), I0.
  - apply (CalculateNewValue_Error_preserves Inv Ii Ie Ic), I0.
  - apply IT, Hc.
  - apply ITe, Hc.
  - unfold TickIfEnabled. unfold bind at 1. unfold get at 1. cbn [fst snd].
    destruct (IsEnabled (self w)); [apply IT, Hc | exact I0].
  - unfold TickIfEnabled_Error. unfold bind at 1. unfold get at 1. cbn [fst snd].
    destruct (IsEnabled (self w)); [apply ITe, Hc | exact I0].
Qed.

(** X19: the tick buffer stays within the period.  On a controller whose
    period T is positive with T + T finite, and whose tick buffer lies in
    [0, T] (as after construction or re-enabling, where it is 0), every
    sequence of direct calculations and of ticks (gated or not) whose
    DeltaTime is finite, not negative and at most T leaves the tick buffer
    in [0, T] again, and the period unchanged.  The bound T itself can be
    reached, by rounding. *)
Theorem tick_buffer_stays_within_period (calls : list Call) (w : World) :
  let T := PeriodicDuration (self w) in
  valid T = true -> fgt T f0 = true -> is_finite (fadd T T) = true ->
  valid (_TickBuffer (self w)) = true ->
  fle f0 (_TickBuffer (self w)) = true ->
  fle (_TickBuffer (self w)) T = true ->
  forallb (keeps_within_period T) calls = true ->
  let s' := self (after (perform_all calls) w) in
  fle f0 (_TickBuffer s') = true /\
  fle (_TickBuffer s') T = true /\
  valid (_TickBuffer s') = true /\
  PeriodicDuration s' = T.
Proof.
  cbn zeta. revert w. induction calls as [|c calls IH]; intros w VT PT F2 Vb Nb Hb Hall.
  - repeat split; assumption.
  - cbn [forallb] in Hall. apply andb_prop in Hall. destruct Hall as [Hc Hall].
    destruct (perform_tick_buffer_within c w Hc VT PT F2 Vb Nb Hb) as (E & V & N & U).
    unfold after. rewrite perform_all_cons. cbn [snd].
    destruct (IH (after (perform c) w)) as (A & B & C & D);
      try (rewrite E; assumption); try assumption.
    rewrite E in B, D. repeat split; assumption.
Qed.

Lemma tick_buffer_stays_within_period_witness :
  let w := construct_gains f1 f0 f0 f1 f0 f1 [] in
  let T := PeriodicDuration (self w) in
  let calls := [Call_Tick f1 f0 (of_ratio 16777215 16777216); Call_Tick f1 f0 f1;
                Call_CalculateNewValue f1 f0 (of_int 5);
                Call_TickIfEnabled_Error f1 (of_ratio 1 2)] in
  valid T = true /\ fgt T f0 = true /\ is_finite (fadd T T) = true /\
  valid (_TickBuffer (self w)) = true /\
  fle f0 (_TickBuffer (self w)) = true /\
  fle (_TickBuffer (self w)) T = true /\
  forallb (keeps_within_period T) calls = true /\
  fle f0 (_TickBuffer (self (after (perform_all calls) w))) = true /\
  fle (_TickBuffer (self (after (perform_all calls) w))) T = true /\
  _TickBuffer (self (after (perform_all [Call_Tick f1 f0 (of_ratio 16777215 16777216);
                                         Call_Tick f1 f0 f1]) w)) = T.
Proof.
  intros w T calls.
  assert (VT : valid T = true) by (vm_compute; reflexivity).
  assert (PT : fgt T f0 = true) by (vm_compute; reflexivity).
  assert (F2 : is_finite (fadd T T) = true) by (vm_compute; reflexivity).
  assert (Vb : valid (_TickBuffer (self w)) = true) by (vm_compute; reflexivity).
  assert (Nb : fle f0 (_TickBuffer (self w)) = true) by (vm_compute; reflexivity).
  assert (Hb : fle (_TickBuffer (self w)) T = true) by (vm_compute; reflexivity).
  assert (Hall : forallb (keeps_within_period T) calls = true) by (vm_compute; reflexivity).
  destruct (tick_buffer_stays_within_period calls w VT PT F2 Vb Nb Hb Hall)
    as (A & B & _).
  split; [exact VT|]. split; [exact PT|]. split; [exact F2|].
  split; [exact Vb|]. split; [exact Nb|]. split; [exact Hb|].
  split; [exact Hall|]. split; [exact A|]. split; [exact B|].
  vm_compute. reflexivity.
Defined.
